(** * crypto-price-monitor: the price-ingestion and alert-evaluation loop

    A shallow embedding of the backend services of the repository
    (cacheService.ts, coinGeckoService.ts, alertService.ts, socketService.ts,
    emailService.ts and the cron jobs of app.ts) and the properties of the
    ingestion loop proved about it.

    Conventions.
    - A JavaScript [number] holding a price or a percentage is an IEEE-754
      binary64 value: [float] of [PrimFloat], compared with [ltb] and [leb]
      (false on NaN, as in JavaScript).  Instants and durations in
      milliseconds are integers: [Z].
    - An [async] method is a computation in the monad [M]: it threads the
      [World] (the state of the services and of their collaborators) and ends
      with a value, with a thrown exception, or still pending when the fuel
      of the one unbounded loop of the program (the retry on HTTP 429) is
      used up.
    - Collaborators outside the repository (Redis, MongoDB, the SMTP
      transport, socket.io, the CoinGecko HTTP API) are part of the [World]:
      their stored data, and for each of them a script saying which of its
      next calls fail. *)

From Stdlib Require Import PrimFloat Ascii String ZArith List.
From stdpp Require Import gmap strings list.

Local Open Scope string_scope.
Local Open Scope Z_scope.

(** ** types/index.ts *)

(** [CryptoPriceData]: the fields read by the backend services; the other
    fields of the interface are read by no function embedded here. *)
Record CryptoPriceData := mkCryptoPriceData {
  id : string;
  symbol : string;
  name : string;
  current_price : float;
  market_cap : float;
  total_volume : float;
  price_change_percentage_24h : float
}.

(** [Alert] / [AlertDocument] (models/Alert.ts): [condition] is the string of
    the schema; [targetPrice] and [percentageChange] are optional fields,
    [None] standing for [undefined].  The field [symbol] of the source is
    [alertSymbol] here, [symbol] being the field of [CryptoPriceData]. *)
Record AlertDocument := mkAlert {
  _id : string;
  userId : string;
  alertSymbol : string;
  condition : string;
  targetPrice : option float;
  percentageChange : option float;
  isActive : bool;
  createdAt : Z
}.

(** [CacheData]: what [CacheService.set] serialises under a key. *)
Record CacheData := mkCacheData {
  data : list CryptoPriceData;
  timestamp : Z;
  ttl : Z
}.

(** JavaScript comparisons on numbers. *)
Definition js_gt (a b : float) : bool := PrimFloat.ltb b a.
Definition js_lt (a b : float) : bool := PrimFloat.ltb a b.
Definition js_ge (a b : float) : bool := PrimFloat.leb b a.
Definition js_le (a b : float) : bool := PrimFloat.leb a b.
Definition js_neg (a : float) : float := PrimFloat.opp a.

(** [String.prototype.toUpperCase] on ASCII letters. *)
Definition upper_ascii (c : ascii) : ascii :=
  let n := nat_of_ascii c in
  if (97 <=? n)%nat && (n <=? 122)%nat then ascii_of_nat (n - 32) else c.

Fixpoint toUpperCase (s : string) : string :=
  match s with
  | EmptyString => EmptyString
  | String c r => String (upper_ascii c) (toUpperCase r)
  end.

(** ** alertService.ts: the evaluator *)

Module AlertEvaluator.

Inductive Direction := increase | decrease.

(** [AlertService.checkPercentageChange] *)
Definition checkPercentageChange
    (alert : AlertDocument) (priceData : CryptoPriceData) (direction : Direction) : bool :=
  match percentageChange alert with
  | None => false
  | Some pc =>
      let change24h := price_change_percentage_24h priceData in
      match direction with
      | increase => js_ge change24h pc
      | decrease => js_le change24h (js_neg pc)
      end
  end.

(** [AlertService.evaluateAlert]: the [switch] on [alert.condition], with
    its [default] branch. *)
Definition evaluateAlert (alert : AlertDocument) (priceData : CryptoPriceData) : bool :=
  let currentPrice := current_price priceData in
  if String.eqb (condition alert) "above" then
    match targetPrice alert with
    | Some t => js_gt currentPrice t
    | None => false
    end
  else if String.eqb (condition alert) "below" then
    match targetPrice alert with
    | Some t => js_lt currentPrice t
    | None => false
    end
  else if String.eqb (condition alert) "percent_increase" then
    checkPercentageChange alert priceData increase
  else if String.eqb (condition alert) "percent_decrease" then
    checkPercentageChange alert priceData decrease
  else false.

(** The reference definition of the specification, section 4.3, as a
    relation: which threshold a condition kind requires, and when a rule
    with that threshold set is triggered by a snapshot. *)
Inductive Triggered (rule : AlertDocument) (snapshot : CryptoPriceData) : Prop :=
| trig_above t :
    condition rule = "above" -> targetPrice rule = Some t ->
    js_gt (current_price snapshot) t = true -> Triggered rule snapshot
| trig_below t :
    condition rule = "below" -> targetPrice rule = Some t ->
    js_lt (current_price snapshot) t = true -> Triggered rule snapshot
| trig_percent_increase p :
    condition rule = "percent_increase" -> percentageChange rule = Some p ->
    js_ge (price_change_percentage_24h snapshot) p = true -> Triggered rule snapshot
| trig_percent_decrease p :
    condition rule = "percent_decrease" -> percentageChange rule = Some p ->
    js_le (price_change_percentage_24h snapshot) (js_neg p) = true -> Triggered rule snapshot.

(** The threshold field that the rule's condition requires is unset. *)
Definition threshold_unset (rule : AlertDocument) : Prop :=
  ((condition rule = "above" \/ condition rule = "below") /\ targetPrice rule = None) \/
  ((condition rule = "percent_increase" \/ condition rule = "percent_decrease") /\
   percentageChange rule = None).

End AlertEvaluator.

(** ** The world: the services' fields and their collaborators *)

(** utils/config.ts *)
Module config.
Definition cacheDefaultTtl : Z := 60000.
Definition supportedCoins : list string :=
  ["bitcoin"; "ethereum"; "binancecoin"; "cardano"; "solana";
   "polkadot"; "dogecoin"; "avalanche-2"; "polygon"; "chainlink"].
Definition coinGeckoApi_rateLimit : Z := 30.
Definition coinGeckoApi_timeout : Z := 10000.
End config.

(** utils/logger: the entries written, by level. *)
Inductive Level := debug | info | warn | error.
Definition LogEntry : Type := Level * string.

(** What a function can throw: the rejection of an HTTP request by axios
    ([error.response?.status], [None] when there is no response), a
    [new Error(message)] of the repository, or the failure of a collaborator
    (Redis, MongoDB, socket.io, SMTP). *)
Inductive Exn :=
| AxiosError (status : option Z)
| JsError (message : string)
| CollaboratorError (who : string).

(** The CoinGecko API seen from the client: what comes back for a request.
    [retryAfter] is the number of seconds that the [retry-after] header
    holds, when the header is present. *)
Inductive HttpOutcome :=
| Response (status : Z) (retryAfter : option Z) (body : list CryptoPriceData)
| NetworkError.

(** The request configuration of [api.get('/coins/markets', {params})]. *)
Record RequestConfig := mkRequest {
  url : string;
  ids : string;
  per_page : nat
}.

(** Modelled from the spec: models/User.ts is not among the sources; the
    fields are those that [triggerAlert] reads from the user record (the
    owning user's address, first name and e-mail notification preference). *)
Record UserDocument := mkUser {
  user_id : string;
  email : string;
  firstName : string;
  emailNotifications : bool
}.

(** models/PriceHistory.ts *)
Record PriceHistoryDocument := mkPriceHistory {
  ph_symbol : string;
  ph_price : float;
  ph_timestamp : Z;
  ph_volume_24h : float;
  ph_market_cap : float
}.

(** Events emitted through socket.io. *)
Inductive SocketEvent :=
| price_update (priceData : list CryptoPriceData)
| symbol_price_update (room : string) (priceData : CryptoPriceData)
| alert_triggered (alert : AlertDocument) (currentPrice priceChange24h : float) (at_ : Z).

(** A message handed to the SMTP transport by [sendAlertEmail]. *)
Record MailMessage := mkMail {
  mail_to : string;
  mail_firstName : string;
  mail_alert : AlertDocument;
  mail_currentPrice : float
}.

(** [CacheService]: the [isConnected] field and the Redis client. *)
Record CacheState := mkCache {
  isConnected : bool;
  redis : gmap string CacheData;
  redisFaults : list bool
}.

(** [CoinGeckoService]: its two counters. *)
Record GeckoState := mkGecko {
  lastRequestTime : Z;
  requestCount : Z
}.

(** The upstream API: the requests it has received, and its answer to the
    [n]-th request it receives (counted from 0). *)
Record Network := mkNetwork {
  sent : list RequestConfig;
  upstream : nat -> HttpOutcome
}.

(** MongoDB: the three collections. *)
Record Mongo := mkMongo {
  alerts : list AlertDocument;
  users : list UserDocument;
  priceHistory : list PriceHistoryDocument;
  mongoFaults : list bool
}.

(** [SocketService]: [io] is [true] once [initialize] has run. *)
Record SocketState := mkSocket {
  io : bool;
  emitted : list SocketEvent;
  socketFaults : list bool
}.

(** [EmailService]: the transporter. *)
Record Mailer := mkMailer {
  outbox : list MailMessage;
  mailFaults : list bool
}.

(** A fault script ([redisFaults], [mongoFaults], [socketFaults],
    [mailFaults]) says, call by call, whether the next call to that
    collaborator fails ([true]); an exhausted script means no failure. *)
Record World := mkWorld {
  now : Z;
  cache : CacheState;
  gecko : GeckoState;
  network : Network;
  mongo : Mongo;
  socket : SocketState;
  mailer : Mailer;
  logs : list LogEntry
}.

Definition with_now (v : Z) (w : World) : World :=
  mkWorld v (cache w) (gecko w) (network w) (mongo w) (socket w) (mailer w) (logs w).
Definition with_cache (v : CacheState) (w : World) : World :=
  mkWorld (now w) v (gecko w) (network w) (mongo w) (socket w) (mailer w) (logs w).
Definition with_gecko (v : GeckoState) (w : World) : World :=
  mkWorld (now w) (cache w) v (network w) (mongo w) (socket w) (mailer w) (logs w).
Definition with_network (v : Network) (w : World) : World :=
  mkWorld (now w) (cache w) (gecko w) v (mongo w) (socket w) (mailer w) (logs w).
Definition with_mongo (v : Mongo) (w : World) : World :=
  mkWorld (now w) (cache w) (gecko w) (network w) v (socket w) (mailer w) (logs w).
Definition with_socket (v : SocketState) (w : World) : World :=
  mkWorld (now w) (cache w) (gecko w) (network w) (mongo w) v (mailer w) (logs w).
Definition with_mailer (v : Mailer) (w : World) : World :=
  mkWorld (now w) (cache w) (gecko w) (network w) (mongo w) (socket w) v (logs w).
Definition with_logs (v : list LogEntry) (w : World) : World :=
  mkWorld (now w) (cache w) (gecko w) (network w) (mongo w) (socket w) (mailer w) v.

(** ** The monad of asynchronous methods *)

(** How a call ends: with a value, with an exception, or not yet ([Pending]:
    the retry loop of the HTTP client is still going when the fuel is used
    up). *)
Inductive Outcome (A : Type) :=
| Ok (a : A)
| Throw (e : Exn)
| Pending.
Arguments Ok {A} a.
Arguments Throw {A} e.
Arguments Pending {A}.

Definition M (A : Type) : Type := World -> Outcome A * World.

Definition ret {A} (a : A) : M A := fun w => (Ok a, w).

Definition bind {A B} (m : M A) (k : A -> M B) : M B := fun w =>
  match m w with
  | (Ok a, w1) => k a w1
  | (Throw e, w1) => (Throw e, w1)
  | (Pending, w1) => (Pending, w1)
  end.

Definition throw {A} (e : Exn) : M A := fun w => (Throw e, w).

Definition pending {A} : M A := fun w => (Pending, w).

(** [try { m } catch (e) { handler e }] *)
Definition tryCatch {A} (m : M A) (handler : Exn -> M A) : M A := fun w =>
  match m w with
  | (Throw e, w1) => handler e w1
  | r => r
  end.

Definition gets {A} (f : World -> A) : M A := fun w => (Ok (f w), w).

Definition modify (f : World -> World) : M unit := fun w => (Ok tt, f w).

Notation "x <- m ;; k" := (bind m (fun x => k))
  (at level 90, m at level 89, k at level 200, right associativity,
   format "'[v' x  <-  m  ;; '/' k ']'").
Notation "m >> k" := (bind m (fun _ => k))
  (at level 90, k at level 200, right associativity,
   format "'[v' m  >> '/' k ']'").

(** [Date.now()]: the clock of the world, which moves when a call sleeps and
    between two firings of the timer. *)
Definition Date_now : M Z := gets now.

(** [await new Promise(resolve => setTimeout(resolve, ms))]: the clock moves
    on by [ms] (a negative delay elapses at once). *)
Definition sleep (ms : Z) : M unit :=
  modify (fun w => with_now (now w + Z.max 0 ms) w).

Definition log (l : Level) (msg : string) : M unit :=
  modify (fun w => with_logs (logs w ++ [(l, msg)]) w).

(** The next entry of a fault script. *)
Definition nextFault (script : list bool) : bool * list bool :=
  match script with
  | [] => (false, [])
  | b :: rest => (b, rest)
  end.

(** ** The Redis client

    The store holds, for each key, the [CacheData] that the stored JSON
    string parses to.  The expiry that [setEx] asks of Redis is not part of
    the store: it can only remove a key, and every statement below is about
    an arbitrary store. *)

Definition redisCall {A} (op : CacheState -> A * gmap string CacheData) : M A := fun w =>
  let c := cache w in
  let (fault, rest) := nextFault (redisFaults c) in
  if fault then
    (Throw (CollaboratorError "redis"), with_cache (mkCache (isConnected c) (redis c) rest) w)
  else
    let (a, store) := op c in
    (Ok a, with_cache (mkCache (isConnected c) store rest) w).

Definition client_get (key : string) : M (option CacheData) :=
  redisCall (fun c => (redis c !! key, redis c)).

Definition client_set (key : string) (v : CacheData) : M unit :=
  redisCall (fun c => (tt, <[key := v]> (redis c))).

Definition client_setEx (key : string) (seconds : Z) (v : CacheData) : M unit :=
  redisCall (fun c => (tt, <[key := v]> (redis c))).

Definition client_del (key : string) : M unit :=
  redisCall (fun c => (tt, base.delete key (redis c))).

(** ** cacheService.ts *)

Module CacheService.

(** Truthiness of an optional number: [undefined] and [0] are falsy. *)
Definition truthy (ttlSeconds : option Z) : bool :=
  match ttlSeconds with
  | Some s => negb (s =? 0)
  | None => false
  end.

(** [CacheService.delete] *)
Definition delete (key : string) : M unit :=
  tryCatch
    (connected <- gets (fun w => isConnected (cache w)) ;;
     if negb connected then ret tt
     else
       client_del key >>
       log debug ("Cache deleted: " ++ key))
    (fun _ => log error "Cache delete error:").

(** [CacheService.set] *)
Definition set (key : string) (value : list CryptoPriceData) (ttlSeconds : option Z) : M unit :=
  tryCatch
    (connected <- gets (fun w => isConnected (cache w)) ;;
     if negb connected then ret tt
     else
       t <- Date_now ;;
       let cacheData :=
         mkCacheData value t
           (if truthy ttlSeconds then default 0 ttlSeconds * 1000 else config.cacheDefaultTtl) in
       (if truthy ttlSeconds
        then client_setEx key (default 0 ttlSeconds) cacheData
        else client_set key cacheData) >>
       log debug ("Cache set: " ++ key))
    (fun _ => log error "Cache set error:").

(** [CacheService.get]: an entry older than its [ttl] is deleted and
    reported absent. *)
Definition get (key : string) : M (option (list CryptoPriceData)) :=
  tryCatch
    (connected <- gets (fun w => isConnected (cache w)) ;;
     if negb connected then ret None
     else
       cachedData <- client_get key ;;
       match cachedData with
       | None => ret None
       | Some parsed =>
           t <- Date_now ;;
           if ttl parsed <? t - timestamp parsed then
             delete key >>
             ret None
           else
             log debug ("Cache hit: " ++ key) >>
             ret (Some (data parsed))
       end)
    (fun _ => log error "Cache get error:" >> ret None).

End CacheService.

(** ** coinGeckoService.ts *)

Module CoinGeckoService.

(** [REQUEST_INTERVAL = 60000 / config.coinGeckoApi.rateLimit] *)
Definition REQUEST_INTERVAL : Z := 60000 / config.coinGeckoApi_rateLimit.

(** The request interceptor: pacing, then the two counters. *)
Definition requestInterceptor : M unit :=
  t <- Date_now ;;
  last <- gets (fun w => lastRequestTime (gecko w)) ;;
  let timeSinceLastRequest := t - last in
  (if timeSinceLastRequest <? REQUEST_INTERVAL then
     log debug "Rate limiting: waiting" >>
     sleep (REQUEST_INTERVAL - timeSinceLastRequest)
   else ret tt) >>
  modify (fun w =>
    with_gecko (mkGecko (now w) (requestCount (gecko w) + 1)) w).

(** The request leaves the process: the upstream records it and answers. *)
Definition dispatch (cfg : RequestConfig) : M HttpOutcome := fun w =>
  let n := network w in
  (Ok (upstream n (length (sent n))),
   with_network (mkNetwork (sent n ++ [cfg]) (upstream n)) w).

(** [this.api.request(config)] with both interceptors.  A 2xx response is
    returned; any other outcome goes to the error interceptor, which on a
    429 waits [retry-after] seconds (60 without the header) and calls
    [this.api.request(error.config)] again, and rejects otherwise.  One unit
    of fuel is one request sent. *)
Fixpoint request (fuel : nat) (cfg : RequestConfig) : M (list CryptoPriceData) :=
  match fuel with
  | O => pending
  | S fuel' =>
      requestInterceptor >>
      out <- dispatch cfg ;;
      match out with
      | Response status retryAfterHeader body =>
          if (200 <=? status) && (status <? 300) then ret body
          else
            log error "CoinGecko API Error:" >>
            if status =? 429 then
              let retryAfter := default 60 retryAfterHeader in
              log warn "Rate limited. Retrying after" >>
              sleep (retryAfter * 1000) >>
              request fuel' cfg
            else throw (AxiosError (Some status))
      | NetworkError =>
          log error "CoinGecko API Error:" >>
          throw (AxiosError None)
      end
  end.

(** [coins.join(',')] *)
Definition join (coins : list string) : string := String.concat "," coins.

(** The cache key: [`prices:${coins.join(',')}`] *)
Definition cacheKey (coins : list string) : string := "prices:" ++ join coins.

(** [CoinGeckoService.getCurrentPrices] *)
Definition getCurrentPrices (fuel : nat) (coinIds : option (list string))
  : M (list CryptoPriceData) :=
  tryCatch
    (let coins := default config.supportedCoins coinIds in
     let cacheKey := cacheKey coins in
     cachedData <- CacheService.get cacheKey ;;
     match cachedData with
     | Some cached =>
         log debug "Returning cached price data" >>
         ret cached
     | None =>
         priceData <- request fuel (mkRequest "/coins/markets" (join coins) (length coins)) ;;
         CacheService.set cacheKey priceData (Some 30) >>
         log info "Fetched prices for cryptocurrencies" >>
         ret priceData
     end)
    (fun _ =>
       log error "Failed to fetch current prices:" >>
       let cacheKey := cacheKey (default config.supportedCoins coinIds) in
       fallbackData <- CacheService.get cacheKey ;;
       match fallbackData with
       | Some fallback =>
           log warn "Returning stale cached data due to API error" >>
           ret fallback
       | None => throw (JsError "Failed to fetch cryptocurrency prices")
       end).

(** [CoinGeckoService.getUsageStats] *)
Definition getUsageStats : M (Z * Z * Z) :=
  gets (fun w => (requestCount (gecko w), lastRequestTime (gecko w), config.coinGeckoApi_rateLimit)).

End CoinGeckoService.

(** ** MongoDB (mongoose models Alert, User, PriceHistory) *)

Definition mongoCall {A} (op : Mongo -> A * Mongo) : M A := fun w =>
  let m := mongo w in
  let (fault, rest) := nextFault (mongoFaults m) in
  let m1 := mkMongo (alerts m) (users m) (priceHistory m) rest in
  if fault then (Throw (CollaboratorError "mongodb"), with_mongo m1 w)
  else let (a, m2) := op m1 in (Ok a, with_mongo m2 w).

(** A query on the Alert collection: the fields it constrains. *)
Record AlertQuery := mkQuery {
  q_id : option string;
  q_userId : option string;
  q_isActive : option bool
}.

Definition matches (q : AlertQuery) (d : AlertDocument) : bool :=
  match q_id q with Some i => String.eqb (_id d) i | None => true end &&
  match q_userId q with Some u => String.eqb (userId d) u | None => true end &&
  match q_isActive q with Some b => Bool.eqb (isActive d) b | None => true end.

(** [Partial<AlertDocument>] as an update: the fields it sets. *)
Record AlertUpdate := mkUpdate {
  u_symbol : option string;
  u_condition : option string;
  u_targetPrice : option float;
  u_percentageChange : option float;
  u_isActive : option bool
}.

Definition applyUpdate (u : AlertUpdate) (d : AlertDocument) : AlertDocument :=
  mkAlert (_id d) (userId d)
    (default (alertSymbol d) (u_symbol u))
    (default (condition d) (u_condition u))
    (match u_targetPrice u with Some t => Some t | None => targetPrice d end)
    (match u_percentageChange u with Some p => Some p | None => percentageChange d end)
    (default (isActive d) (u_isActive u))
    (createdAt d).

(** [Alert.find(query)] *)
Definition Alert_find (q : AlertQuery) : M (list AlertDocument) :=
  mongoCall (fun m => (List.filter (matches q) (alerts m), m)).

(** [.sort({ createdAt: -1 })]: newest first. *)
Fixpoint insertByCreatedAtDesc (d : AlertDocument) (l : list AlertDocument) : list AlertDocument :=
  match l with
  | [] => [d]
  | x :: r => if createdAt x <? createdAt d then d :: x :: r
              else x :: insertByCreatedAtDesc d r
  end.

Definition sortByCreatedAtDesc (l : list AlertDocument) : list AlertDocument :=
  List.fold_right insertByCreatedAtDesc [] l.

(** The first document matching [q] is replaced by its update. *)
Fixpoint updateFirst (q : AlertQuery) (u : AlertUpdate) (l : list AlertDocument)
  : option AlertDocument * list AlertDocument :=
  match l with
  | [] => (None, [])
  | d :: r =>
      if matches q d then (Some (applyUpdate u d), applyUpdate u d :: r)
      else let (found, r') := updateFirst q u r in (found, d :: r')
  end.

(** [Alert.findOneAndUpdate(query, updateData, { new: true })] *)
Definition Alert_findOneAndUpdate (q : AlertQuery) (u : AlertUpdate) : M (option AlertDocument) :=
  mongoCall (fun m =>
    let (found, l) := updateFirst q u (alerts m) in
    (found, mkMongo l (users m) (priceHistory m) (mongoFaults m))).

(** [User.findById(id)] *)
Definition User_findById (uid : string) : M (option UserDocument) :=
  mongoCall (fun m => (List.find (fun u => String.eqb (user_id u) uid) (users m), m)).

(** [PriceHistory.insertMany(records)] *)
Definition PriceHistory_insertMany (records : list PriceHistoryDocument) : M unit :=
  mongoCall (fun m =>
    (tt, mkMongo (alerts m) (users m) (priceHistory m ++ records) (mongoFaults m))).

(** [for (const x of xs) { await body(x) }] and [xs.forEach(body)] *)
Fixpoint forEach {A} (xs : list A) (body : A -> M unit) : M unit :=
  match xs with
  | [] => ret tt
  | x :: rest => body x >> forEach rest body
  end.

(** ** socketService.ts *)

Module SocketService.

(** [emit] of socket.io, on the server or on a room. *)
Definition emit (ev : SocketEvent) : M unit := fun w =>
  let s := socket w in
  let (fault, rest) := nextFault (socketFaults s) in
  if fault then
    (Throw (CollaboratorError "socket.io"), with_socket (mkSocket (io s) (emitted s) rest) w)
  else
    (Ok tt, with_socket (mkSocket (io s) (emitted s ++ [ev]) rest) w).

(** [SocketService.broadcastPriceUpdate] *)
Definition broadcastPriceUpdate (priceData : list CryptoPriceData) : M unit :=
  ready <- gets (fun w => io (socket w)) ;;
  if negb ready then ret tt
  else
    emit (price_update priceData) >>
    forEach priceData (fun data =>
      let room := ("symbol:" ++ toUpperCase (symbol data))%string in
      emit (symbol_price_update room data)) >>
    log debug "Broadcasted price updates".

(** [SocketService.sendAlert(alert)], as [triggerAlert] calls it: without a
    target socket, the event goes to all clients. *)
Definition sendAlert (alert : AlertDocument) (currentPrice priceChange24h : float) : M unit :=
  ready <- gets (fun w => io (socket w)) ;;
  if negb ready then ret tt
  else
    t <- Date_now ;;
    emit (alert_triggered alert currentPrice priceChange24h t) >>
    log info "Alert sent".

End SocketService.

(** ** emailService.ts *)

Module EmailService.

(** [transporter.sendMail(message)] *)
Definition sendMail (msg : MailMessage) : M unit := fun w =>
  let m := mailer w in
  let (fault, rest) := nextFault (mailFaults m) in
  if fault then (Throw (CollaboratorError "smtp"), with_mailer (mkMailer (outbox m) rest) w)
  else (Ok tt, with_mailer (mkMailer (outbox m ++ [msg]) rest) w).

(** [EmailService.sendAlertEmail]: a failure is logged and thrown again. *)
Definition sendAlertEmail (to first : string) (alert : AlertDocument) (currentPrice : float)
  : M unit :=
  tryCatch
    (sendMail (mkMail to first alert currentPrice) >>
     log info "Alert email sent to:")
    (fun e => log error "Error sending alert email:" >> throw e).

End EmailService.

(** ** alertService.ts *)

Module AlertService.

(** [AlertService.getUserAlerts(userId = 'default')] *)
Definition getUserAlerts (userId : option string) : M (list AlertDocument) :=
  tryCatch
    (found <- Alert_find (mkQuery None (Some (default "default"%string userId)) (Some true)) ;;
     ret (sortByCreatedAtDesc found))
    (fun _ =>
       log error "Failed to fetch user alerts:" >>
       throw (JsError "Failed to fetch alerts")).

(** [AlertService.updateAlert(alertId, updateData, userId?)] *)
Definition updateAlert (alertId : string) (updateData : AlertUpdate) (userId : option string)
  : M (option AlertDocument) :=
  tryCatch
    (let query := mkQuery (Some alertId)
                    (match userId with
                     | Some u => if String.eqb u "" then None else Some u
                     | None => None
                     end) None in
     alert <- Alert_findOneAndUpdate query updateData ;;
     (match alert with
      | Some _ => log info "Alert updated"
      | None => ret tt
      end) >>
     ret alert)
    (fun _ =>
       log error "Failed to update alert:" >>
       throw (JsError "Failed to update alert")).

(** [AlertService.triggerAlert] *)
Definition triggerAlert (alert : AlertDocument) (priceData : CryptoPriceData) : M unit :=
  tryCatch
    (log info "Alert triggered" >>
     user <- User_findById (userId alert) ;;
     SocketService.sendAlert alert (current_price priceData)
       (price_change_percentage_24h priceData) >>
     (match user with
      | Some u =>
          if emailNotifications u then
            EmailService.sendAlertEmail (email u) (firstName u) alert (current_price priceData)
          else ret tt
      | None => ret tt
      end) >>
     _u <- updateAlert (_id alert) (mkUpdate None None None None (Some false)) None ;;
     ret tt)
    (fun _ => log error "Failed to trigger alert:").

(** The body of the loop of [checkAlerts] for one alert. *)
Definition checkAlert (priceData : list CryptoPriceData) (alert : AlertDocument) : M unit :=
  match List.find (fun data =>
          String.eqb (toUpperCase (symbol data)) (toUpperCase (alertSymbol alert))) priceData with
  | Some currentPrice =>
      if AlertEvaluator.evaluateAlert alert currentPrice
      then triggerAlert alert currentPrice
      else ret tt
  | None => ret tt
  end.

(** [AlertService.checkAlerts]; [populate('userId')] adds nothing to the
    documents that the loop reads. *)
Definition checkAlerts (priceData : list CryptoPriceData) : M unit :=
  tryCatch
    (active <- Alert_find (mkQuery None None (Some true)) ;;
     forEach active (checkAlert priceData))
    (fun _ => log error "Failed to check alerts:").

End AlertService.

(** ** app.ts: the cron jobs *)

Module App.

(** [App.storePriceHistory] *)
Definition storePriceHistory (prices : list CryptoPriceData) : M unit :=
  tryCatch
    (t <- Date_now ;;
     let historyRecords :=
       List.map (fun price =>
         mkPriceHistory (toUpperCase (symbol price)) (current_price price) t
           (total_volume price) (market_cap price)) prices in
     PriceHistory_insertMany historyRecords >>
     log debug "Stored price history")
    (fun _ => log error "Error storing price history:").

(** The [try] block of the callback of [cron.schedule('*/10 * * * * *', ...)]. *)
Definition priceTickBody (fuel : nat) : M unit :=
  prices <- CoinGeckoService.getCurrentPrices fuel None ;;
  SocketService.broadcastPriceUpdate prices >>
  AlertService.checkAlerts prices >>
  t <- Date_now ;;
  if Z.rem (t / 1000) 60 =? 0 then storePriceHistory prices else ret tt.

(** The callback itself: the body inside its [try]/[catch]. *)
Definition priceTick (fuel : nat) : M unit :=
  tryCatch (priceTickBody fuel)
    (fun _ => log error "Error in price update cron job:").

(** The instant of the next firing of the ten-second schedule. *)
Definition nextFiring (t : Z) : Z := (t / 10000 + 1) * 10000.

(** The timer driver: it fires the callback [ticks] times, one firing after
    the other, on the ten-second schedule.  An exception that leaves the
    callback ends the process: no later tick runs.  The result lists how
    each tick that ran ended. *)
Fixpoint cronDriver (ticks fuel : nat) (w : World) : list (Outcome unit) * World :=
  match ticks with
  | O => ([], w)
  | S n =>
      let (r, w1) := priceTick fuel w in
      match r with
      | Throw e => ([r], w1)
      | _ =>
          let (rs, w2) := cronDriver n fuel (with_now (Z.max (now w1) (nextFiring (now w))) w1) in
          (r :: rs, w2)
      end
  end.

End App.

(** ** Vocabulary of the statements *)

(** The next [n] calls of a collaborator do not fail. *)
Definition quiet (n : nat) (script : list bool) : Prop :=
  Forall (fun b => b = false) (take n script).

(** A rule is inactive in the store: every document with that [_id] has
    [isActive = false]. *)
Definition inactive (x : string) (w : World) : Prop :=
  forall d, In d (alerts (mongo w)) -> _id d = x -> isActive d = false.

(** The update [{ isActive: false }] of [triggerAlert]. *)
Definition deactivation : AlertUpdate := mkUpdate None None None None (Some false).

(** A call leaves the Alert collection, the emitted events and the outbox as
    they were. *)
Definition Same (w w' : World) : Prop :=
  alerts (mongo w') = alerts (mongo w) /\
  emitted (socket w') = emitted (socket w) /\
  outbox (mailer w') = outbox (mailer w).

(** A call changes nothing but the cache and the log. *)
Definition OnlyCache (w w' : World) : Prop :=
  now w' = now w /\ gecko w' = gecko w /\ network w' = network w /\
  mongo w' = mongo w /\ socket w' = socket w /\ mailer w' = mailer w.

(** A call leaves MongoDB, the socket server and the mailer as they were. *)
Definition KeepsStores (w w' : World) : Prop :=
  mongo w' = mongo w /\ socket w' = socket w /\ mailer w' = mailer w.

(** A call changes the Alert collection by deactivations only. *)
Definition Mono (w w' : World) : Prop :=
  Forall2 (fun d d' => d' = d \/ d' = applyUpdate deactivation d)
    (alerts (mongo w)) (alerts (mongo w')).

(** A call only adds events satisfying [E] and mails satisfying [F]. *)
Definition Fires (E : SocketEvent -> Prop) (F : MailMessage -> Prop) (w w' : World) : Prop :=
  exists evs mails,
    emitted (socket w') = (emitted (socket w) ++ evs)%list /\
    outbox (mailer w') = (outbox (mailer w) ++ mails)%list /\
    Forall E evs /\ Forall F mails.

(** Both: what a step of the alerting path may do. *)
Definition Step (E : SocketEvent -> Prop) (F : MailMessage -> Prop) (w w' : World) : Prop :=
  Mono w w' /\ Fires E F w w'.

(** A relation between the world before and the world after a call holds
    for every call of [m]. *)
Definition Inv {A} (R : World -> World -> Prop) (m : M A) : Prop :=
  forall w, R w (snd (m w)).

(** A call of [m] ends (the fuel is never what stops it). *)
Definition Settles {A} (m : M A) : Prop :=
  forall w, fst (m w) <> Pending.

(** A call of [m] throws nothing. *)
Definition NoThrow {A} (m : M A) : Prop :=
  forall w e, fst (m w) <> Throw e.

(** An event that is not the firing of rule [x]. *)
Definition not_firing_of (x : string) (ev : SocketEvent) : Prop :=
  match ev with
  | alert_triggered a _ _ _ => _id a <> x
  | _ => True
  end.

(** A mail that is not about rule [x]. *)
Definition not_mail_of (x : string) (m : MailMessage) : Prop :=
  _id (mail_alert m) <> x.

(** What a call may do when rule [x] is inactive: deactivate rules, and emit
    events and send mails that are not firings of [x]. *)
Definition Track (x : string) (w w' : World) : Prop :=
  Mono w w' /\
  (inactive x w -> Fires (not_firing_of x) (not_mail_of x) w w').

Definition is_alert_event (ev : SocketEvent) : Prop :=
  match ev with
  | alert_triggered _ _ _ _ => True
  | _ => False
  end.

(** The events of one [broadcastPriceUpdate]. *)
Definition broadcastEvents (priceData : list CryptoPriceData) : list SocketEvent :=
  price_update priceData ::
  List.map (fun d => symbol_price_update ("symbol:" ++ toUpperCase (symbol d))%string d) priceData.

(** A symbol identifier without a comma. *)
Fixpoint comma_free (s : string) : bool :=
  match s with
  | EmptyString => true
  | String c r => negb (Ascii.eqb c ",") && comma_free r
  end.

(** A 2xx status, which axios resolves. *)
Definition is2xx (status : Z) : bool := (200 <=? status) && (status <? 300).

(** How a request ends when the upstream's answer is not a 429. *)
Definition settle (out : HttpOutcome) : Outcome (list CryptoPriceData) :=
  match out with
  | Response status _ body => if is2xx status then Ok body else Throw (AxiosError (Some status))
  | NetworkError => Throw (AxiosError None)
  end.

Definition is429 (out : HttpOutcome) : bool :=
  match out with
  | Response status _ _ => status =? 429
  | NetworkError => false
  end.

(** The wait that a 429 answer asks for, in milliseconds. *)
Definition retryDelay (out : HttpOutcome) : Z :=
  match out with
  | Response _ retryAfterHeader _ => Z.max 0 (default 60 retryAfterHeader * 1000)
  | NetworkError => 0
  end.

(** The total wait asked by the answers to requests [k], ..., [k + n - 1]. *)
Fixpoint totalDelay (up : nat -> HttpOutcome) (k n : nat) : Z :=
  match n with
  | O => 0
  | S n' => retryDelay (up k) + totalDelay up (S k) n'
  end.

(** The world once the request interceptor has run, and once the request
    has then been handed to the upstream. *)
Definition paced (w : World) : World := snd (CoinGeckoService.requestInterceptor w).
Definition sendOnce (cfg : RequestConfig) (w : World) : World :=
  snd (CoinGeckoService.dispatch cfg (paced w)).

(** The world once the error interceptor has logged a 429 answer [out] and
    waited as it asks. *)
Definition retryWait (out : HttpOutcome) (w : World) : World :=
  let w1 := with_logs (logs w ++ [(error, "CoinGecko API Error:")]) w in
  let w2 := with_logs (logs w1 ++ [(warn, "Rate limited. Retrying after")]) w1 in
  with_now (now w2 + retryDelay out) w2.

(** The rules whose firing a sequence of events announces. *)
Definition firings (evs : list SocketEvent) : list string :=
  flat_map (fun ev => match ev with
                      | alert_triggered a _ _ _ => [_id a]
                      | _ => []
                      end) evs.

(** ** Scenarios *)

Module Scenario.

Definition btc (price change : float) : CryptoPriceData :=
  mkCryptoPriceData "bitcoin" "btc" "Bitcoin" price 0%float 0%float change.

Definition rule_btc_above : AlertDocument :=
  mkAlert "a1" "u1" "BTC" "above" (Some 60000%float) None true 5.

Definition rule_above_unset : AlertDocument :=
  mkAlert "a2" "u1" "BTC" "above" None None true 6.

Definition rule_eth_inactive : AlertDocument :=
  mkAlert "a3" "u1" "ETH" "below" (Some 1000%float) None false 7.

Definition ann : UserDocument := mkUser "u1" "ann@example.org" "Ann" true.

(** An upstream that answers every request with [out]. *)
Definition always (out : HttpOutcome) : nat -> HttpOutcome := fun _ => out.

(** An upstream that answers 429 to the first [n] requests and [out] from
    then on. *)
Definition after429 (n : nat) (out : HttpOutcome) : nat -> HttpOutcome :=
  fun k => if (k <? n)%nat then Response 429 None [] else out.

(** A world at instant [t]: connected cache with content [store], upstream
    [up], one user, and the given rules; no collaborator fails except the
    SMTP transport, which follows [mail]. *)
Definition world (t : Z) (store : gmap string CacheData) (up : nat -> HttpOutcome)
    (rules : list AlertDocument) (mail : list bool) : World :=
  mkWorld t (mkCache true store []) (mkGecko 0 0) (mkNetwork [] up)
    (mkMongo rules [ann] [] []) (mkSocket true [] []) (mkMailer [] mail) [].

End Scenario.

(** * The rest of the backend: the remaining operations of the services, the
    socket clients, the authentication middleware and the routes *)

(** ** cacheService.ts: the remaining operations *)

(** [client.exists(key)]: the number of keys found. *)
Definition client_exists (key : string) : M Z :=
  redisCall (fun c => (match redis c !! key with Some _ => 1 | None => 0 end, redis c)).

(** [client.flushAll()] *)
Definition client_flushAll : M unit :=
  redisCall (fun c => (tt, ∅)).

(** [pipeline.exec()] of a [client.multi()] on which [set] or [setEx] was
    called for each entry in turn: the writes are applied in that order. *)
Definition client_multi_exec (entries : list (string * CacheData)) : M unit :=
  redisCall (fun c =>
    (tt, List.fold_left (fun store kv => <[fst kv := snd kv]> store) entries (redis c))).

(** [CacheService.exists] *)
Definition CacheService_exists (key : string) : M bool :=
  tryCatch
    (connected <- gets (fun w => isConnected (cache w)) ;;
     if negb connected then ret false
     else
       result <- client_exists key ;;
       ret (result =? 1))
    (fun _ => log error "Cache exists error:" >> ret false).

(** [CacheService.flush] *)
Definition CacheService_flush : M unit :=
  tryCatch
    (connected <- gets (fun w => isConnected (cache w)) ;;
     if negb connected then ret tt
     else
       client_flushAll >>
       log info "Cache flushed")
    (fun _ => log error "Cache flush error:").

(** [CacheService.setMultiple]: [data] lists [Object.entries(data)].  The
    method has no [try] block and does not look at [isConnected]. *)
Definition CacheService_setMultiple (data : list (string * list CryptoPriceData))
    (ttlSeconds : option Z) : M unit :=
  t <- Date_now ;;
  let entries :=
    List.map (fun kv =>
      (fst kv,
       mkCacheData (snd kv) t
         (if CacheService.truthy ttlSeconds then default 0 ttlSeconds * 1000
          else config.cacheDefaultTtl))) data in
  client_multi_exec entries >>
  log debug "Cache set multiple".

(** [CacheService.isConnected_] *)
Definition CacheService_isConnected_ : M bool :=
  gets (fun w => isConnected (cache w)).

(** The [ttl], in milliseconds, that [set] and [setMultiple] write for a
    [ttlSeconds] argument. *)
Definition ttlMs (ttlSeconds : option Z) : Z :=
  if CacheService.truthy ttlSeconds then default 0 ttlSeconds * 1000
  else config.cacheDefaultTtl.

(** The clock moves on by [d] milliseconds between two calls. *)
Definition later (d : Z) (w : World) : World := with_now (now w + d) w.

(** What a read answers for the content [entry] of a key at instant [t]. *)
Definition answer (entry : option CacheData) (t : Z) : option (list CryptoPriceData) :=
  match entry with
  | Some e => if ttl e <? t - timestamp e then None else Some (data e)
  | None => None
  end.

(** ** Vocabulary for the HTTP client *)

(** A call leaves the HTTP client and the upstream as they were. *)
Definition KeepsClient (w w' : World) : Prop :=
  gecko w' = gecko w /\ network w' = network w.

(** The pacing of the upstream requests across a call: the requests received
    by the upstream only grow, and the instant of the last request has moved
    on by at least the request interval for each request sent. *)
Definition Paced (w w' : World) : Prop :=
  (length (sent (network w)) <= length (sent (network w')))%nat /\
  lastRequestTime (gecko w) +
    CoinGeckoService.REQUEST_INTERVAL *
      (Z.of_nat (length (sent (network w'))) - Z.of_nat (length (sent (network w)))) <=
    lastRequestTime (gecko w').

(** The request counter across a call: it has moved on by the number of
    requests that the upstream received. *)
Definition Counted (w w' : World) : Prop :=
  requestCount (gecko w') - requestCount (gecko w) =
    Z.of_nat (length (sent (network w'))) - Z.of_nat (length (sent (network w))).

(** ** alertService.ts and models/Alert.ts: the remaining operations *)

(** [Partial<AlertDocument>] as [createAlert] receives it: every field may be
    missing. *)
Record AlertData := mkAlertData {
  d_userId : option string;
  d_symbol : option string;
  d_condition : option string;
  d_targetPrice : option float;
  d_percentageChange : option float;
  d_isActive : option bool
}.

(** The [enum] of the [condition] path of [alertSchema]. *)
Definition conditionEnum : list string :=
  ["above"; "below"; "percent_increase"; "percent_decrease"].

(** [new Alert(alertData)]: the defaults of [alertSchema] ([userId],
    [isActive]), its [uppercase] setter on [symbol] and its [timestamps];
    [oid] is the ObjectId that mongoose gives the new document. *)
Definition newAlert (oid : string) (t : Z) (d : AlertData) : AlertDocument :=
  mkAlert oid
    (default "default" (d_userId d))
    (toUpperCase (default "" (d_symbol d)))
    (default "" (d_condition d))
    (d_targetPrice d)
    (d_percentageChange d)
    (default true (d_isActive d))
    t.

(** The validators of [alertSchema], run by [save]: [symbol] and [condition]
    are required (a required string is not empty), [condition] is in the
    [enum], and [targetPrice] or [percentageChange] is required when the
    function given for it answers [true] for the condition. *)
Definition schemaValid (d : AlertData) : bool :=
  match d_symbol d with Some s => negb (String.eqb s "") | None => false end &&
  match d_condition d with
  | Some c => List.existsb (String.eqb c) conditionEnum
  | None => false
  end &&
  (if List.existsb (String.eqb (default "" (d_condition d))) ["above"; "below"]
   then match d_targetPrice d with Some _ => true | None => false end
   else true) &&
  (if List.existsb (String.eqb (default "" (d_condition d)))
        ["percent_increase"; "percent_decrease"]
   then match d_percentageChange d with Some _ => true | None => false end
   else true).

(** [alert.save()]: validation, then the insertion. *)
Definition Alert_save (d : AlertData) (alert : AlertDocument) : M unit :=
  if schemaValid d then
    mongoCall (fun m =>
      (tt, mkMongo (alerts m ++ [alert]) (users m) (priceHistory m) (mongoFaults m)))
  else throw (CollaboratorError "ValidationError").

(** [AlertService.createAlert] *)
Definition AlertService_createAlert (oid : string) (alertData : AlertData) : M AlertDocument :=
  tryCatch
    (t <- Date_now ;;
     let alert := newAlert oid t alertData in
     Alert_save alertData alert >>
     log info "Alert created" >>
     ret alert)
    (fun _ =>
       log error "Failed to create alert:" >>
       throw (JsError "Failed to create alert")).

(** The first document matching [q] is removed. *)
Fixpoint deleteFirst (q : AlertQuery) (l : list AlertDocument)
  : option AlertDocument * list AlertDocument :=
  match l with
  | [] => (None, [])
  | d :: r =>
      if matches q d then (Some d, r)
      else let (found, r') := deleteFirst q r in (found, d :: r')
  end.

(** [Alert.findOneAndDelete(query)] *)
Definition Alert_findOneAndDelete (q : AlertQuery) : M (option AlertDocument) :=
  mongoCall (fun m =>
    let (found, l) := deleteFirst q (alerts m) in
    (found, mkMongo l (users m) (priceHistory m) (mongoFaults m))).

(** [userId ? { userId } : {}]: the constraint that an optional user id puts
    on a query; [undefined] and the empty string are falsy. *)
Definition truthyId (userId : option string) : option string :=
  match userId with
  | Some u => if String.eqb u "" then None else Some u
  | None => None
  end.

(** The query of [updateAlert] and [deleteAlert]: [{ _id: alertId }], with
    [userId] added when the argument is truthy. *)
Definition ownedQuery (alertId : string) (userId : option string) : AlertQuery :=
  mkQuery (Some alertId) (truthyId userId) None.

(** [AlertService.deleteAlert(alertId, userId?)] *)
Definition AlertService_deleteAlert (alertId : string) (userId : option string) : M bool :=
  tryCatch
    (result <- Alert_findOneAndDelete (ownedQuery alertId userId) ;;
     match result with
     | Some _ => log info "Alert deleted" >> ret true
     | None => ret false
     end)
    (fun _ =>
       log error "Failed to delete alert:" >>
       throw (JsError "Failed to delete alert")).

(** [Alert.countDocuments(query)] *)
Definition Alert_countDocuments (q : AlertQuery) : M nat :=
  mongoCall (fun m => (length (List.filter (matches q) (alerts m)), m)).

(** [$group: { _id: '$symbol', count: { $sum: 1 } }]: one more for the group
    of [s]. *)
Fixpoint bump (s : string) (groups : list (string * nat)) : list (string * nat) :=
  match groups with
  | [] => [(s, 1%nat)]
  | (k, n) :: r => if String.eqb k s then (k, S n) :: r else (k, n) :: bump s r
  end.

Definition groupBySymbol (l : list AlertDocument) : list (string * nat) :=
  List.fold_left (fun groups d => bump (alertSymbol d) groups) l [].

(** [$sort: { count: -1 }] *)
Fixpoint insertByCountDesc (g : string * nat) (l : list (string * nat)) : list (string * nat) :=
  match l with
  | [] => [g]
  | x :: r => if (snd x <? snd g)%nat then g :: x :: r else x :: insertByCountDesc g r
  end.

Definition sortByCountDesc (l : list (string * nat)) : list (string * nat) :=
  List.fold_right insertByCountDesc [] l.

(** [Alert.aggregate([{ $match }, { $group }, { $sort }])] *)
Definition Alert_aggregateBySymbol (q : AlertQuery) : M (list (string * nat)) :=
  mongoCall (fun m =>
    (sortByCountDesc (groupBySymbol (List.filter (matches q) (alerts m))), m)).

Record AlertStats := mkStats {
  totalAlerts : nat;
  activeAlerts : nat;
  alertsBySymbol : list (string * nat)
}.

(** [AlertService.getAlertStats(userId?)] *)
Definition AlertService_getAlertStats (userId : option string) : M AlertStats :=
  tryCatch
    (let owner := truthyId userId in
     total <- Alert_countDocuments (mkQuery None owner None) ;;
     active <- Alert_countDocuments (mkQuery None owner (Some true)) ;;
     bySymbol <- Alert_aggregateBySymbol (mkQuery None owner (Some true)) ;;
     ret (mkStats total active bySymbol))
    (fun _ =>
       log error "Failed to get alert stats:" >>
       ret (mkStats 0 0 [])).

(** The documents of a collection that do not belong to user [u]. *)
Definition ofOthers (u : string) (l : list AlertDocument) : list AlertDocument :=
  List.filter (fun d => negb (String.eqb (userId d) u)) l.

(** The sum of the counts of a grouping. *)
Definition totalCount (groups : list (string * nat)) : nat :=
  List.fold_right (fun g acc => (snd g + acc)%nat) 0%nat groups.

(** Counts in decreasing order. *)
Fixpoint countsDescending (groups : list (string * nat)) : bool :=
  match groups with
  | [] => true
  | x :: r =>
      List.forallb (fun y => (snd y <=? snd x)%nat) r && countsDescending r
  end.

(** The number of documents of a list on symbol [s]. *)
Definition countOn (s : string) (l : list AlertDocument) : nat :=
  length (List.filter (fun d => String.eqb (alertSymbol d) s) l).

(** The count that a grouping gives for [s]; [0] when it has no group. *)
Fixpoint countFor (s : string) (groups : list (string * nat)) : nat :=
  match groups with
  | [] => 0
  | (k, n) :: r => if String.eqb k s then n else countFor s r
  end.

(** ** app.ts: the price history *)

(** The records that [storePriceHistory] builds at instant [t]. *)
Definition historyRecords (t : Z) (prices : list CryptoPriceData) : list PriceHistoryDocument :=
  List.map (fun price =>
    mkPriceHistory (toUpperCase (symbol price)) (current_price price) t
      (total_volume price) (market_cap price)) prices.

(** A record taken in the first second of a minute, on an upper-case symbol. *)
Definition onTheMinute (r : PriceHistoryDocument) : Prop :=
  Z.rem (ph_timestamp r / 1000) 60 = 0 /\ toUpperCase (ph_symbol r) = ph_symbol r.

(** A call leaves the users as they were and only adds, to the price
    history, records taken on the minute. *)
Definition Sampled (w w' : World) : Prop :=
  users (mongo w') = users (mongo w) /\
  exists recs,
    priceHistory (mongo w') = (priceHistory (mongo w) ++ recs)%list /\
    Forall onTheMinute recs.

(** ** alertService.ts: what a check of the alerts may send *)

(** The price that [checkAlerts] finds for an alert: the first one on its
    symbol, letter case apart. *)
Definition priceFor (priceData : list CryptoPriceData) (a : AlertDocument)
  : option CryptoPriceData :=
  List.find (fun data =>
    String.eqb (toUpperCase (symbol data)) (toUpperCase (alertSymbol a))) priceData.

(** The alert was active in [stored], and its condition holds on the price
    that [priceData] has for it, which is [d]. *)
Definition due (stored : list AlertDocument) (priceData : list CryptoPriceData)
    (a : AlertDocument) (d : CryptoPriceData) : Prop :=
  In a stored /\ isActive a = true /\
  priceFor priceData a = Some d /\ AlertEvaluator.evaluateAlert a d = true.

(** A push notification of an alert that is due, with the figures of its
    price. *)
Definition dueEvent (stored : list AlertDocument) (priceData : list CryptoPriceData)
    (ev : SocketEvent) : Prop :=
  match ev with
  | alert_triggered a cp pc _ =>
      exists d, due stored priceData a d /\
                cp = current_price d /\ pc = price_change_percentage_24h d
  | _ => False
  end.

(** An e-mail about an alert that is due, addressed to the owner of the
    alert, who has e-mail notifications on. *)
Definition dueMail (registered : list UserDocument) (stored : list AlertDocument)
    (priceData : list CryptoPriceData) (m : MailMessage) : Prop :=
  (exists d, due stored priceData (mail_alert m) d /\ mail_currentPrice m = current_price d) /\
  exists u,
    List.find (fun x => String.eqb (user_id x) (userId (mail_alert m))) registered = Some u /\
    emailNotifications u = true /\ mail_to m = email u /\ mail_firstName m = firstName u.

(** While the users are [registered], a call leaves them so and only adds
    notifications of due alerts. *)
Definition Notifies (registered : list UserDocument) (stored : list AlertDocument)
    (priceData : list CryptoPriceData) (w w' : World) : Prop :=
  users (mongo w) = registered ->
  users (mongo w') = registered /\
  Fires (dueEvent stored priceData) (dueMail registered stored priceData) w w'.

(** ** socketService.ts: the connected clients and their subscriptions *)

(** What the server emits to one client socket. *)
Inductive ClientEvent :=
| connection_status (connected : bool) (timestamp : Z)
| subscription_confirmed (symbol_ : string) (subscribed : bool)
| pong (timestamp : Z).

(** The state that the handlers of the socket service work on.
    [connectedClients] maps a socket id to the [subscribedSymbols] of the
    client; [rooms] is the room membership kept by socket.io (a pair
    [(room, id)] when socket [id] is in [room]); [delivered] lists what was
    emitted to single sockets.  The handlers are synchronous and have no
    [try] block; what they write to the log is left out. *)
Record Registry := mkRegistry {
  connectedClients : gmap string (gset string);
  rooms : gset (string * string);
  delivered : list (string * ClientEvent)
}.

Definition noClients : Registry := mkRegistry ∅ ∅ [].

(** The room of a symbol: [`symbol:${symbol.toUpperCase()}`]. *)
Definition roomOf (symbol_ : string) : string := "symbol:" ++ toUpperCase symbol_.

(** The handler of ['connection'] at instant [t]. *)
Definition onConnection (socketId : string) (t : Z) (r : Registry) : Registry :=
  mkRegistry (<[socketId := ∅]> (connectedClients r)) (rooms r)
    (delivered r ++ [(socketId, connection_status true t)]).

(** [SocketService.subscribeToSymbol] *)
Definition SocketService_subscribeToSymbol (socketId symbol_ : string) (r : Registry) : Registry :=
  match connectedClients r !! socketId with
  | None => r
  | Some subscribedSymbols =>
      mkRegistry
        (<[socketId := {[toUpperCase symbol_]} ∪ subscribedSymbols]> (connectedClients r))
        ({[(roomOf symbol_, socketId)]} ∪ rooms r)
        (delivered r ++ [(socketId, subscription_confirmed (toUpperCase symbol_) true)])
  end.

(** [SocketService.unsubscribeFromSymbol] *)
Definition SocketService_unsubscribeFromSymbol (socketId symbol_ : string) (r : Registry)
  : Registry :=
  match connectedClients r !! socketId with
  | None => r
  | Some subscribedSymbols =>
      mkRegistry
        (<[socketId := subscribedSymbols ∖ {[toUpperCase symbol_]}]> (connectedClients r))
        (rooms r ∖ {[(roomOf symbol_, socketId)]})
        (delivered r ++ [(socketId, subscription_confirmed (toUpperCase symbol_) false)])
  end.

(** The handler of ['disconnect']: the client is forgotten; socket.io takes
    a disconnected socket out of every room. *)
Definition onDisconnect (socketId : string) (r : Registry) : Registry :=
  mkRegistry (base.delete socketId (connectedClients r))
    (filter (fun p => snd p <> socketId) (rooms r))
    (delivered r).

(** The handler of ['ping']. *)
Definition onPing (socketId : string) (t : Z) (r : Registry) : Registry :=
  mkRegistry (connectedClients r) (rooms r) (delivered r ++ [(socketId, pong t)]).

(** [subscriptionStats[symbol] = (subscriptionStats[symbol] || 0) + 1] *)
Definition countSymbol (symbol_ : string) (stats : gmap string nat) : gmap string nat :=
  <[symbol_ := (default 0 (stats !! symbol_) + 1)%nat]> stats.

Record SocketStats := mkSocketStats {
  totalClients : nat;
  subscriptionStats : gmap string nat;
  connectedAt : Z
}.

(** [SocketService.getStats] at instant [t] *)
Definition SocketService_getStats (t : Z) (r : Registry) : SocketStats :=
  mkSocketStats
    (size (connectedClients r))
    (map_fold (fun _ subscribedSymbols stats => set_fold countSymbol stats subscribedSymbols)
       ∅ (connectedClients r))
    t.

(** The subscriptions and the rooms agree: a socket is in a room exactly
    when it is a connected client subscribed to the symbol of the room, and
    the subscribed symbols are in upper case. *)
Definition inSync (r : Registry) : Prop :=
  (forall room socketId,
     (room, socketId) ∈ rooms r <->
     exists subs s, connectedClients r !! socketId = Some subs /\ s ∈ subs /\
                    room = ("symbol:" ++ s)%string) /\
  (forall socketId subs s,
     connectedClients r !! socketId = Some subs -> s ∈ subs -> toUpperCase s = s).

(** The clients subscribed to [s]. *)
Definition subscribers (s : string) (r : Registry) : gmap string (gset string) :=
  filter (fun kv => s ∈ snd kv) (connectedClients r).

(** ** middleware/auth.ts, middleware/validation.ts, the controllers and
    routes/alertRoutes.ts *)

(** What a handler reads of an Express request: the [authorization] header,
    [cookies.token], [params.id], the body, and the [user] that the
    authentication middleware attaches. *)
Record Request (B : Type) := mkReq {
  authorization : option string;
  cookieToken : option string;
  paramsId : string;
  body : B;
  user : option UserDocument
}.
Arguments mkReq {B} _ _ _ _ _.
Arguments authorization {B} _.
Arguments cookieToken {B} _.
Arguments paramsId {B} _.
Arguments body {B} _.
Arguments user {B} _.

(** [req.user = user] *)
Definition withUser {B} (u : UserDocument) (req : Request B) : Request B :=
  mkReq (authorization req) (cookieToken req) (paramsId req) (body req) (Some u).

(** The [data] or the [error] of an [ApiResponse]. *)
Inductive Content :=
| errorText (error : string)
| alertData (data : AlertDocument) (message : string)
| alertList (data : list AlertDocument)
| statsData (data : AlertStats)
| priceList (data : list CryptoPriceData)
| messageOnly (message : string).

(** How a handler ends: [res.status(code).json({ success, ... })], or
    [next(error)]. *)
Inductive Reply :=
| respond (status : Z) (success : bool) (content : Content)
| forwarded (e : Exn).

(** [s.split(sep)] for a one-character separator. *)
Fixpoint splitOn (sep : ascii) (s : string) : list string :=
  match s with
  | EmptyString => [EmptyString]
  | String c r =>
      if Ascii.eqb c sep then EmptyString :: splitOn sep r
      else match splitOn sep r with
           | h :: t => String c h :: t
           | [] => [String c EmptyString]
           end
  end.

(** The token that [protect] and [optionalAuth] read: the second field of an
    [authorization] header that starts with [Bearer], otherwise a truthy
    [cookies.token]. *)
Definition requestToken {B} (req : Request B) : option string :=
  let fromCookie :=
    match cookieToken req with
    | Some c => if String.eqb c "" then None else Some c
    | None => None
    end in
  match authorization req with
  | Some h =>
      if negb (String.eqb h "") && String.prefix "Bearer" h
      then nth_error (splitOn " " h) 1
      else fromCookie
  | None => fromCookie
  end.

Definition notAuthorized : Reply :=
  respond 401 false (errorText "Not authorized to access this route").

(** [protect]; [jwt_verify token] is [jwt.verify(token, config.jwtSecret)]:
    the [id] of the payload, or [None] when it throws.  The result is the
    response sent, or the request handed to [next()]. *)
Definition protect {B} (jwt_verify : string -> option string) (req : Request B)
  : M (Reply + Request B) :=
  tryCatch
    (match requestToken req with
     | None => ret (inl notAuthorized)
     | Some token =>
         if String.eqb token "" then ret (inl notAuthorized)
         else
           tryCatch
             (match jwt_verify token with
              | None => throw (CollaboratorError "jsonwebtoken")
              | Some decoded_id =>
                  found <- User_findById decoded_id ;;
                  match found with
                  | None =>
                      ret (inl (respond 401 false (errorText "No user found with this token")))
                  | Some u => ret (inr (withUser u req))
                  end
              end)
             (fun _ => ret (inl notAuthorized))
     end)
    (fun _ =>
       log error "Auth middleware error:" >>
       ret (inl (respond 500 false (errorText "Server error")))).

(** [optionalAuth]: it always ends in [next()]; the result is the request
    handed on. *)
Definition optionalAuth {B} (jwt_verify : string -> option string) (req : Request B)
  : M (Request B) :=
  tryCatch
    (match requestToken req with
     | None => ret req
     | Some token =>
         if String.eqb token "" then ret req
         else
           tryCatch
             (match jwt_verify token with
              | None => throw (CollaboratorError "jsonwebtoken")
              | Some decoded_id =>
                  found <- User_findById decoded_id ;;
                  match found with
                  | None => ret req
                  | Some u => ret (withUser u req)
                  end
              end)
             (fun _ => log debug "Invalid token in optional auth:" >> ret req)
     end)
    (fun _ => log error "Optional auth middleware error:" >> ret req).

(** [validateAlert] and [validateUpdateAlert]: [schemaError] is the decision
    of [schema.validate(req.body)], the message of the first error or
    [None]; the body is handed on as it came. *)
Definition validate {B} (schemaError : B -> option string) (req : Request B)
  : Reply + Request B :=
  match schemaError (body req) with
  | Some message => inl (respond 400 false (errorText message))
  | None => inr req
  end.

(** [req.user?._id?.toString()] *)
Definition callerId {B} (req : Request B) : option string :=
  match user req with
  | Some u => Some (user_id u)
  | None => None
  end.

(** [x || 'default'] *)
Definition orDefault (x : option string) : string :=
  match x with
  | Some s => if String.eqb s "" then "default" else s
  | None => "default"
  end.

(** [{ ...req.body, userId: ... }] *)
Definition withUserId (userId : string) (d : AlertData) : AlertData :=
  mkAlertData (Some userId) (d_symbol d) (d_condition d) (d_targetPrice d)
    (d_percentageChange d) (d_isActive d).

(** [AlertController.createAlert]; [oid] is the ObjectId of the new
    document. *)
Definition AlertController_createAlert (oid : string) (req : Request AlertData) : M Reply :=
  tryCatch
    (let data := withUserId (orDefault (callerId req)) (body req) in
     alert <- AlertService_createAlert oid data ;;
     ret (respond 201 true (alertData alert "Alert created successfully")))
    (fun e => log error "Error creating alert:" >> ret (forwarded e)).

(** [AlertController.getUserAlerts] *)
Definition AlertController_getUserAlerts {B} (req : Request B) : M Reply :=
  tryCatch
    (let userId := orDefault (callerId req) in
     found <- AlertService.getUserAlerts (Some userId) ;;
     ret (respond 200 true (alertList found)))
    (fun e => log error "Error fetching user alerts:" >> ret (forwarded e)).

(** [AlertController.updateAlert] *)
Definition AlertController_updateAlert (req : Request AlertUpdate) : M Reply :=
  tryCatch
    (alert <- AlertService.updateAlert (paramsId req) (body req) (callerId req) ;;
     match alert with
     | None => ret (respond 404 false (errorText "Alert not found or not authorized"))
     | Some a => ret (respond 200 true (alertData a "Alert updated successfully"))
     end)
    (fun e => log error "Error updating alert:" >> ret (forwarded e)).

(** [AlertController.deleteAlert] *)
Definition AlertController_deleteAlert {B} (req : Request B) : M Reply :=
  tryCatch
    (deleted <- AlertService_deleteAlert (paramsId req) (callerId req) ;;
     if negb deleted
     then ret (respond 404 false (errorText "Alert not found or not authorized"))
     else ret (respond 200 true (messageOnly "Alert deleted successfully")))
    (fun e => log error "Error deleting alert:" >> ret (forwarded e)).

(** [AlertController.getAlertStats] *)
Definition AlertController_getAlertStats {B} (req : Request B) : M Reply :=
  tryCatch
    (stats <- AlertService_getAlertStats (callerId req) ;;
     ret (respond 200 true (statsData stats)))
    (fun e => log error "Error fetching alert stats:" >> ret (forwarded e)).

(** A route of the alert router: [router.use(protect)], then the validator
    of the route when it has one, then the handler. *)
Definition alertRoute {B} (jwt_verify : string -> option string)
    (schemaError : B -> option string) (handler : Request B -> M Reply)
    (req : Request B) : M Reply :=
  checked <- protect jwt_verify req ;;
  match checked with
  | inl response => ret response
  | inr req1 =>
      match validate schemaError req1 with
      | inl response => ret response
      | inr req2 => handler req2
      end
  end.

(** A route without a validator. *)
Definition noSchema {B} (_ : B) : option string := None.

(** [router.post('/', validateAlert, alertController.createAlert)] *)
Definition POST_alerts (jwt_verify : string -> option string)
    (schemaError : AlertData -> option string) (oid : string) :=
  alertRoute jwt_verify schemaError (AlertController_createAlert oid).

(** [router.get('/', alertController.getUserAlerts)] *)
Definition GET_alerts (jwt_verify : string -> option string) : Request unit -> M Reply :=
  alertRoute jwt_verify noSchema AlertController_getUserAlerts.

(** [router.get('/stats', alertController.getAlertStats)] *)
Definition GET_alerts_stats (jwt_verify : string -> option string) : Request unit -> M Reply :=
  alertRoute jwt_verify noSchema AlertController_getAlertStats.

(** [router.put('/:id', validateUpdateAlert, alertController.updateAlert)] *)
Definition PUT_alerts_id (jwt_verify : string -> option string)
    (schemaError : AlertUpdate -> option string) :=
  alertRoute jwt_verify schemaError AlertController_updateAlert.

(** [router.delete('/:id', alertController.deleteAlert)] *)
Definition DELETE_alerts_id (jwt_verify : string -> option string)
  : Request unit -> M Reply :=
  alertRoute jwt_verify noSchema AlertController_deleteAlert.

(** The caller that a request authenticates as: the user that the token of
    the request verifies to. *)
Definition authenticates {B} (jwt_verify : string -> option string) (req : Request B)
    (w : World) (u : UserDocument) : Prop :=
  exists token,
    requestToken req = Some token /\ token <> "" /\
    jwt_verify token = Some (user_id u) /\
    List.find (fun x => String.eqb (user_id x) (user_id u)) (users (mongo w)) = Some u.

(** A string without a space. *)
Fixpoint space_free (s : string) : bool :=
  match s with
  | EmptyString => true
  | String c r => negb (Ascii.eqb c " ") && space_free r
  end.

(** [coins ? coins.split(',') : undefined] on [req.query.coins] *)
Definition queryCoinIds (coins : option string) : option (list string) :=
  match coins with
  | Some c => if String.eqb c "" then None else Some (splitOn "," c)
  | None => None
  end.

(** [PriceController.getCurrentPrices] *)
Definition PriceController_getCurrentPrices (fuel : nat) (coins : option string) : M Reply :=
  tryCatch
    (prices <- CoinGeckoService.getCurrentPrices fuel (queryCoinIds coins) ;;
     ret (respond 200 true (priceList prices)))
    (fun e => log error "Error fetching current prices:" >> ret (forwarded e)).

(** * Properties *)

(** ** The evaluator (C2) *)

Section Evaluator.
Import AlertEvaluator.

Lemma condition_cases (c : string) :
  c = "above" \/ c = "below" \/ c = "percent_increase" \/ c = "percent_decrease" \/
  (String.eqb c "above" = false /\ String.eqb c "below" = false /\
   String.eqb c "percent_increase" = false /\ String.eqb c "percent_decrease" = false).
Proof.
  destruct (String.eqb_spec c "above"); [tauto|].
  destruct (String.eqb_spec c "below"); [tauto|].
  destruct (String.eqb_spec c "percent_increase"); [tauto|].
  destruct (String.eqb_spec c "percent_decrease"); tauto.
Qed.

(** C2.  [evaluateAlert] is the reference definition: it returns [true]
    exactly when the rule is triggered in the sense of the specification
    ('above': price > target; 'below': price < target; 'percent_increase':
    24h change >= percentage; 'percent_decrease': 24h change <= -percentage),
    and it returns [false], without raising, when the threshold that the
    condition requires is unset. *)
Theorem evaluateAlert_reference (rule : AlertDocument) (snapshot : CryptoPriceData) :
  (evaluateAlert rule snapshot = true <-> Triggered rule snapshot) /\
  (threshold_unset rule -> evaluateAlert rule snapshot = false).
Proof.
  unfold evaluateAlert, checkPercentageChange, threshold_unset.
  destruct (condition_cases (condition rule)) as [E|[E|[E|[E|(E1 & E2 & E3 & E4)]]]].
  1-4: rewrite E; cbn [String.eqb Ascii.eqb Bool.eqb]; split.
  - split.
    + destruct (targetPrice rule) eqn:T; [|discriminate]. intros H. eapply trig_above; eauto.
    + intros [t Hc Ht Hv|t Hc Ht Hv|p Hc Hp Hv|p Hc Hp Hv]; try congruence.
      rewrite Ht. exact Hv.
  - intros [[_ ->]|[[C|C] _]]; [reflexivity| |]; congruence.
  - split.
    + destruct (targetPrice rule) eqn:T; [|discriminate]. intros H. eapply trig_below; eauto.
    + intros [t Hc Ht Hv|t Hc Ht Hv|p Hc Hp Hv|p Hc Hp Hv]; try congruence.
      rewrite Ht. exact Hv.
  - intros [[_ ->]|[[C|C] _]]; [reflexivity| |]; congruence.
  - split.
    + destruct (percentageChange rule) eqn:T; [|discriminate]. intros H.
      eapply trig_percent_increase; eauto.
    + intros [t Hc Ht Hv|t Hc Ht Hv|p Hc Hp Hv|p Hc Hp Hv]; try congruence.
      rewrite Hp. exact Hv.
  - intros [[[C|C] _]|[_ ->]]; [| |reflexivity]; congruence.
  - split.
    + destruct (percentageChange rule) eqn:T; [|discriminate]. intros H.
      eapply trig_percent_decrease; eauto.
    + intros [t Hc Ht Hv|t Hc Ht Hv|p Hc Hp Hv|p Hc Hp Hv]; try congruence.
      rewrite Hp. exact Hv.
  - intros [[[C|C] _]|[_ ->]]; [| |reflexivity]; congruence.
  - rewrite E1, E2, E3, E4. split; [split; [discriminate|]|reflexivity].
    intros [t Hc Ht Hv|t Hc Ht Hv|p Hc Hp Hv|p Hc Hp Hv];
      rewrite Hc in *; discriminate.
Qed.

Lemma evaluateAlert_reference_witness :
  threshold_unset Scenario.rule_above_unset /\
  evaluateAlert Scenario.rule_above_unset (Scenario.btc 61000 1.5) = false.
Proof.
  assert (H : threshold_unset Scenario.rule_above_unset).
  { left. split; [left|]; reflexivity. }
  split; [exact H|].
  exact (proj2 (evaluateAlert_reference Scenario.rule_above_unset (Scenario.btc 61000 1.5)) H).
Defined.

(** The boundary cases of the specification, section 8; -4.9 and -5.1 are
    written as the binary64 values nearest to them. *)
Example evaluateAlert_above_50000 :
  let rule := mkAlert "r" "u" "BTC" "above" (Some 50000%float) None true 0 in
  evaluateAlert rule (Scenario.btc 50001 0) = true /\
  evaluateAlert rule (Scenario.btc 50000 0) = false /\
  evaluateAlert rule (Scenario.btc 49999 0) = false.
Proof. repeat split. Qed.

Example evaluateAlert_percent_decrease_5 :
  let rule := mkAlert "r" "u" "BTC" "percent_decrease" None (Some 5%float) true 0 in
  evaluateAlert rule (Scenario.btc 1 (-5)) = true /\
  evaluateAlert rule (Scenario.btc 1 (-0x1.399999999999ap+2)) = false /\
  evaluateAlert rule (Scenario.btc 1 (-0x1.4666666666666p+2)) = true.
Proof. repeat split. Qed.

(** A comparison with NaN is false, so a snapshot without a number never
    triggers. *)
Example evaluateAlert_nan :
  let rule := mkAlert "r" "u" "BTC" "above" (Some 50000%float) None true 0 in
  evaluateAlert rule (Scenario.btc nan 0) = false.
Proof. reflexivity. Qed.

End Evaluator.

(** ** The cache key (C6) *)

Section CacheKey.
Import CoinGeckoService.

Lemma append_cons (c : ascii) (s t : string) : String c s ++ t = String c (s ++ t).
Proof. reflexivity. Qed.

Lemma append_nil (t : string) : "" ++ t = t.
Proof. reflexivity. Qed.

Lemma comma_free_app_comma (y t : string) : comma_free (y ++ "," ++ t) = false.
Proof.
  induction y as [|c y IH]; [reflexivity|].
  rewrite append_cons. cbn [comma_free]. rewrite IH. apply andb_false_r.
Qed.

Lemma comma_free_head (c : ascii) (r : string) :
  comma_free (String c r) = true -> c <> ","%char /\ comma_free r = true.
Proof.
  cbn. intros H. apply andb_prop in H as [Hc Hr]. split; [|exact Hr].
  intros ->. discriminate.
Qed.

Lemma join_cons_inj (x y s t : string) :
  comma_free x = true -> comma_free y = true ->
  x ++ "," ++ s = y ++ "," ++ t -> x = y /\ s = t.
Proof.
  revert y. induction x as [|a x IH]; intros [|c y] Hx Hy E;
    rewrite ?append_cons, ?append_nil in E.
  - split; [reflexivity|]. congruence.
  - apply comma_free_head in Hy as [Hc _]. congruence.
  - apply comma_free_head in Hx as [Ha _]. congruence.
  - apply comma_free_head in Hx as [_ Hx]. apply comma_free_head in Hy as [_ Hy].
    injection E as -> E. destruct (IH y Hx Hy E) as [-> ->]. split; reflexivity.
Qed.

Lemma join_inj (l1 l2 : list string) :
  l1 <> [] -> l2 <> [] ->
  Forall (fun s => comma_free s = true) l1 -> Forall (fun s => comma_free s = true) l2 ->
  join l1 = join l2 -> l1 = l2.
Proof.
  unfold join. revert l2.
  induction l1 as [|x [|x2 r1] IH]; intros [|y [|y2 r2]] N1 N2 F1 F2 E;
    try congruence; cbn [String.concat] in E.
  - congruence.
  - exfalso. apply Forall_inv in F1. rewrite E, comma_free_app_comma in F1. discriminate.
  - exfalso. apply Forall_inv in F2. rewrite <- E, comma_free_app_comma in F2. discriminate.
  - inversion F1 as [|? ? Hx F1']; subst. inversion F2 as [|? ? Hy F2']; subst.
    destruct (join_cons_inj _ _ _ _ Hx Hy E) as [-> E'].
    f_equal. apply IH; try assumption; discriminate.
Qed.

(** C6, as amended.  The cache key of [getCurrentPrices] is the prefix
    "prices:" followed by the symbols joined with commas in the order and
    with the multiplicity of the list received: nothing is sorted and
    nothing is deduplicated.  Two calls with non-empty lists of comma-free
    symbols use the same key exactly when the lists are equal. *)
Theorem cacheKey_of_list_as_given (l1 l2 : list string) :
  l1 <> [] -> l2 <> [] ->
  Forall (fun s => comma_free s = true) l1 -> Forall (fun s => comma_free s = true) l2 ->
  cacheKey l1 = "prices:" ++ String.concat "," l1 /\
  (cacheKey l1 = cacheKey l2 <-> l1 = l2).
Proof.
  intros N1 N2 F1 F2. split; [reflexivity|]. split; [|intros ->; reflexivity].
  unfold cacheKey. intros E. injection E as E. now apply join_inj.
Qed.

Lemma cacheKey_of_list_as_given_witness :
  cacheKey ["bitcoin"; "ethereum"] = "prices:bitcoin,ethereum" /\
  (cacheKey ["bitcoin"; "ethereum"] = cacheKey ["ethereum"; "bitcoin"] <->
   ["bitcoin"; "ethereum"] = ["ethereum"; "bitcoin"]).
Proof.
  apply (cacheKey_of_list_as_given ["bitcoin"; "ethereum"] ["ethereum"; "bitcoin"]);
    try discriminate; repeat constructor.
Defined.

(** C6, counterexample.  The same two symbols in another order, or one
    symbol given twice, give another key; and a fresh entry cached for one
    order is not found by a call with the other order, which goes to the
    upstream. *)
Lemma cacheKey_order_counterexample :
  (forall x, In x ["bitcoin"; "ethereum"] <-> In x ["ethereum"; "bitcoin"]) /\
  cacheKey ["bitcoin"; "ethereum"] <> cacheKey ["ethereum"; "bitcoin"] /\
  (forall x, In x ["bitcoin"; "bitcoin"] <-> In x ["bitcoin"]) /\
  cacheKey ["bitcoin"; "bitcoin"] <> cacheKey ["bitcoin"] /\
  let entry := mkCacheData [Scenario.btc 61000 1.5] 1000 30000 in
  let w := Scenario.world 2000 {[ cacheKey ["bitcoin"; "ethereum"] := entry ]}
             (Scenario.always (Response 200 None [])) [] [] in
  sent (network (snd (getCurrentPrices 1 (Some ["bitcoin"; "ethereum"]) w))) = [] /\
  sent (network (snd (getCurrentPrices 1 (Some ["ethereum"; "bitcoin"]) w))) =
    [mkRequest "/coins/markets" "ethereum,bitcoin" 2].
Proof.
  split; [intros x; cbn; tauto|].
  split; [discriminate|].
  split; [intros x; cbn; tauto|].
  split; [discriminate|].
  split; vm_compute; reflexivity.
Qed.

End CacheKey.

(** ** Running the monad *)

Lemma nextFault_quiet (n : nat) (script : list bool) :
  quiet (S n) script -> nextFault script = (false, tail script) /\ quiet n (tail script).
Proof.
  unfold quiet. destruct script as [|b rest]; cbn.
  - intros _. split; [reflexivity|]. destruct n; constructor.
  - intros H. inversion H; subst. split; [reflexivity|assumption].
Qed.

Lemma quiet_nil (n : nat) : quiet n [].
Proof. unfold quiet. destruct n; constructor. Qed.

Lemma quiet_le (n m : nat) (script : list bool) :
  (n <= m)%nat -> quiet m script -> quiet n script.
Proof.
  unfold quiet. revert m script. induction n as [|n IH]; intros m script Hle H.
  - constructor.
  - destruct m as [|m]; [lia|]. destruct script as [|b rest]; cbn in *; [constructor|].
    inversion H; subst. constructor; [reflexivity|]. apply (IH m); [lia|assumption].
Qed.

Lemma bind_Ok {A B} (m : M A) (k : A -> M B) (w w1 : World) (a : A) :
  m w = (Ok a, w1) -> bind m k w = k a w1.
Proof. unfold bind. intros ->. reflexivity. Qed.

Lemma bind_Throw {A B} (m : M A) (k : A -> M B) (w w1 : World) (e : Exn) :
  m w = (Throw e, w1) -> bind m k w = (Throw e, w1).
Proof. unfold bind. intros ->. reflexivity. Qed.

Lemma bind_Pending {A B} (m : M A) (k : A -> M B) (w w1 : World) :
  m w = (Pending, w1) -> bind m k w = (Pending, w1).
Proof. unfold bind. intros ->. reflexivity. Qed.

Lemma tryCatch_Ok {A} (m : M A) (h : Exn -> M A) (w w1 : World) (a : A) :
  m w = (Ok a, w1) -> tryCatch m h w = (Ok a, w1).
Proof. unfold tryCatch. intros ->. reflexivity. Qed.

Lemma tryCatch_Throw {A} (m : M A) (h : Exn -> M A) (w w1 : World) (e : Exn) :
  m w = (Throw e, w1) -> tryCatch m h w = h e w1.
Proof. unfold tryCatch. intros ->. reflexivity. Qed.

Lemma tryCatch_Pending {A} (m : M A) (h : Exn -> M A) (w w1 : World) :
  m w = (Pending, w1) -> tryCatch m h w = (Pending, w1).
Proof. unfold tryCatch. intros ->. reflexivity. Qed.

Lemma tryCatch_bind_Ok {A B} (m : M A) (k : A -> M B) (h : Exn -> M B)
    (w w1 : World) (a : A) :
  m w = (Ok a, w1) -> tryCatch (bind m k) h w = tryCatch (k a) h w1.
Proof. intros H. unfold tryCatch, bind. rewrite H. reflexivity. Qed.

Lemma redisCall_quiet {A} (op : CacheState -> A * gmap string CacheData) (w : World) :
  quiet 1 (redisFaults (cache w)) ->
  redisCall op w =
    (Ok (fst (op (cache w))),
     with_cache (mkCache (isConnected (cache w)) (snd (op (cache w)))
                   (tail (redisFaults (cache w)))) w).
Proof.
  intros Q. unfold redisCall. destruct (nextFault_quiet _ _ Q) as [-> _].
  destruct (op (cache w)); reflexivity.
Qed.

Lemma mongoCall_quiet {A} (op : Mongo -> A * Mongo) (w : World) :
  quiet 1 (mongoFaults (mongo w)) ->
  mongoCall op w =
    let m1 := mkMongo (alerts (mongo w)) (users (mongo w)) (priceHistory (mongo w))
                (tail (mongoFaults (mongo w))) in
    (Ok (fst (op m1)), with_mongo (snd (op m1)) w).
Proof.
  intros Q. unfold mongoCall. destruct (nextFault_quiet _ _ Q) as [-> _].
  cbn. destruct (op _); reflexivity.
Qed.

(** ** Relations between the world before and after a call *)

#[local] Instance OnlyCache_refl : Reflexive OnlyCache.
Proof. intros w. repeat split. Qed.

#[local] Instance OnlyCache_trans : Transitive OnlyCache.
Proof.
  intros a b c (H1 & H2 & H3 & H4 & H5 & H6) (K1 & K2 & K3 & K4 & K5 & K6).
  repeat split; congruence.
Qed.

#[local] Instance KeepsStores_refl : Reflexive KeepsStores.
Proof. intros w. repeat split. Qed.

#[local] Instance KeepsStores_trans : Transitive KeepsStores.
Proof. intros a b c (H1 & H2 & H3) (K1 & K2 & K3). repeat split; congruence. Qed.

#[local] Instance Same_refl : Reflexive Same.
Proof. intros w. repeat split. Qed.

#[local] Instance Same_trans : Transitive Same.
Proof. intros a b c (H1 & H2 & H3) (K1 & K2 & K3). repeat split; congruence. Qed.

Lemma applyUpdate_deactivation_idem (d : AlertDocument) :
  applyUpdate deactivation (applyUpdate deactivation d) = applyUpdate deactivation d.
Proof. reflexivity. Qed.

#[local] Instance Mono_refl : Reflexive Mono.
Proof.
  intros w. unfold Mono. induction (alerts (mongo w)); constructor; auto.
Qed.

#[local] Instance Mono_trans : Transitive Mono.
Proof.
  intros a b c. unfold Mono.
  generalize (alerts (mongo a)) (alerts (mongo b)) (alerts (mongo c)).
  intros la lb lc H. revert lc. induction H as [|x y la lb Hxy H IH]; intros lc K.
  - inversion K. constructor.
  - inversion K as [|y' z lb' lc' Hyz K']; subst. constructor; [|apply IH; assumption].
    destruct Hxy as [->| ->]; destruct Hyz as [->| ->]; auto.
Qed.

Lemma Mono_inactive (x : string) (w w' : World) :
  Mono w w' -> inactive x w -> inactive x w'.
Proof.
  unfold Mono, inactive.
  generalize (alerts (mongo w)) (alerts (mongo w')). intros l l' H.
  induction H as [|d d' l l' Hd H IH]; intros Hin e He Hx; [destruct He|].
  destruct He as [<-|He].
  - destruct Hd as [->| ->]; [apply Hin; [left; reflexivity|assumption]|reflexivity].
  - apply IH; [|assumption|assumption]. intros d0 Hd0. apply Hin. right. assumption.
Qed.

#[local] Instance Fires_refl (E : SocketEvent -> Prop) (F : MailMessage -> Prop) :
  Reflexive (Fires E F).
Proof. intros w. exists [], []. rewrite !app_nil_r. repeat split; constructor. Qed.

#[local] Instance Fires_trans (E : SocketEvent -> Prop) (F : MailMessage -> Prop) :
  Transitive (Fires E F).
Proof.
  intros a b c (e1 & m1 & H1 & H2 & H3 & H4) (e2 & m2 & K1 & K2 & K3 & K4).
  exists (e1 ++ e2)%list, (m1 ++ m2)%list.
  rewrite K1, K2, H1, H2, <- !app_assoc.
  repeat split; apply Forall_app; split; assumption.
Qed.

#[local] Instance Step_refl (E : SocketEvent -> Prop) (F : MailMessage -> Prop) :
  Reflexive (Step E F).
Proof. intros w. split; reflexivity. Qed.

#[local] Instance Step_trans (E : SocketEvent -> Prop) (F : MailMessage -> Prop) :
  Transitive (Step E F).
Proof. intros a b c [H1 H2] [K1 K2]. split; etransitivity; eassumption. Qed.

#[local] Instance Track_refl (x : string) : Reflexive (Track x).
Proof. intros w. split; [reflexivity|]. intros _. reflexivity. Qed.

#[local] Instance Track_trans (x : string) : Transitive (Track x).
Proof.
  intros a b c [H1 H2] [K1 K2]. split; [etransitivity; eassumption|].
  intros Hin. etransitivity; [apply H2, Hin|].
  apply K2. eapply Mono_inactive; eassumption.
Qed.

Lemma OnlyCache_KeepsStores (w w' : World) : OnlyCache w w' -> KeepsStores w w'.
Proof. intros (_ & _ & _ & H1 & H2 & H3). repeat split; assumption. Qed.

Lemma KeepsStores_Same (w w' : World) : KeepsStores w w' -> Same w w'.
Proof. intros (H1 & H2 & H3). unfold Same. rewrite H1, H2, H3. repeat split. Qed.

Lemma Same_Step (E : SocketEvent -> Prop) (F : MailMessage -> Prop) (w w' : World) :
  Same w w' -> Step E F w w'.
Proof.
  intros (H1 & H2 & H3). split.
  - unfold Mono. rewrite H1. exact (Mono_refl w).
  - exists [], []. rewrite !app_nil_r. repeat split; auto.
Qed.

Lemma Step_Track (x : string) (w w' : World) :
  Step (not_firing_of x) (not_mail_of x) w w' -> Track x w w'.
Proof. intros [H1 H2]. split; auto. Qed.

(** ** Rules for [Inv], [Settles] and [NoThrow] *)

Section Rules.
Context (R : World -> World -> Prop) `{!Reflexive R} `{!Transitive R}.

Lemma Inv_ret {A} (a : A) : Inv R (ret a).
Proof. intros w. reflexivity. Qed.

Lemma Inv_throw {A} (e : Exn) : Inv R (@throw A e).
Proof. intros w. reflexivity. Qed.

Lemma Inv_pending {A} : Inv R (@pending A).
Proof. intros w. reflexivity. Qed.

Lemma Inv_gets {A} (f : World -> A) : Inv R (gets f).
Proof. intros w. reflexivity. Qed.

Lemma rel_bind {A B} (m : M A) (k : A -> M B) (w : World) :
  R w (snd (m w)) ->
  (forall a w1, m w = (Ok a, w1) -> R w1 (snd (k a w1))) ->
  R w (snd (bind m k w)).
Proof.
  intros H K. unfold bind. destruct (m w) as [[a|e|] w1] eqn:Hm; cbn in *; auto.
  etransitivity; [exact H|]. apply K. reflexivity.
Qed.

Lemma rel_tryCatch {A} (m : M A) (h : Exn -> M A) (w : World) :
  R w (snd (m w)) ->
  (forall e w1, m w = (Throw e, w1) -> R w1 (snd (h e w1))) ->
  R w (snd (tryCatch m h w)).
Proof.
  intros H K. unfold tryCatch. destruct (m w) as [[a|e|] w1] eqn:Hm; cbn in *; auto.
  etransitivity; [exact H|]. apply K. reflexivity.
Qed.

Lemma Inv_bind {A B} (m : M A) (k : A -> M B) :
  Inv R m -> (forall a, Inv R (k a)) -> Inv R (bind m k).
Proof. intros H K w. apply rel_bind; [apply H|]. intros a w1 _. apply K. Qed.

Lemma Inv_tryCatch {A} (m : M A) (h : Exn -> M A) :
  Inv R m -> (forall e, Inv R (h e)) -> Inv R (tryCatch m h).
Proof. intros H K w. apply rel_tryCatch; [apply H|]. intros e w1 _. apply K. Qed.

Lemma Inv_forEach {A} (xs : list A) (body : A -> M unit) :
  (forall x, In x xs -> Inv R (body x)) -> Inv R (forEach xs body).
Proof.
  induction xs as [|x xs IH]; intros H; cbn [forEach].
  - apply Inv_ret.
  - apply Inv_bind; [apply H; left; reflexivity|].
    intros _. apply IH. intros y Hy. apply H. right. exact Hy.
Qed.

Lemma Inv_modify (f : World -> World) : (forall w, R w (f w)) -> Inv R (modify f).
Proof. intros H w. apply H. Qed.

End Rules.

Lemma Inv_weaken {A} (R R' : World -> World -> Prop) (m : M A) :
  (forall w w', R w w' -> R' w w') -> Inv R m -> Inv R' m.
Proof. intros H K w. apply H, K. Qed.

Lemma Settles_ret {A} (a : A) : Settles (ret a).
Proof. intros w. discriminate. Qed.

Lemma Settles_throw {A} (e : Exn) : Settles (@throw A e).
Proof. intros w. discriminate. Qed.

Lemma Settles_gets {A} (f : World -> A) : Settles (gets f).
Proof. intros w. discriminate. Qed.

Lemma Settles_modify (f : World -> World) : Settles (modify f).
Proof. intros w. discriminate. Qed.

Lemma Settles_bind {A B} (m : M A) (k : A -> M B) :
  Settles m -> (forall a, Settles (k a)) -> Settles (bind m k).
Proof.
  intros H K w. unfold bind. specialize (H w).
  destruct (m w) as [[a|e|] w1]; cbn in *; [apply K|discriminate|congruence].
Qed.

Lemma Settles_tryCatch {A} (m : M A) (h : Exn -> M A) :
  Settles m -> (forall e, Settles (h e)) -> Settles (tryCatch m h).
Proof.
  intros H K w. unfold tryCatch. specialize (H w).
  destruct (m w) as [[a|e|] w1]; cbn in *; [discriminate|apply K|congruence].
Qed.

Lemma Settles_forEach {A} (xs : list A) (body : A -> M unit) :
  (forall x, Settles (body x)) -> Settles (forEach xs body).
Proof.
  intros H. induction xs as [|x xs IH]; cbn [forEach].
  - apply Settles_ret.
  - apply Settles_bind; [apply H|]. intros _. exact IH.
Qed.

Lemma NoThrow_ret {A} (a : A) : NoThrow (ret a).
Proof. intros w e. discriminate. Qed.

Lemma NoThrow_modify (f : World -> World) : NoThrow (modify f).
Proof. intros w e. discriminate. Qed.

Lemma NoThrow_bind {A B} (m : M A) (k : A -> M B) :
  NoThrow m -> (forall a, NoThrow (k a)) -> NoThrow (bind m k).
Proof.
  intros H K w e. unfold bind. specialize (H w).
  destruct (m w) as [[a|e'|] w1]; cbn in *;
    [apply K|destruct (H e'); reflexivity|discriminate].
Qed.

Lemma NoThrow_tryCatch {A} (m : M A) (h : Exn -> M A) :
  (forall e, NoThrow (h e)) -> NoThrow (tryCatch m h).
Proof.
  intros K w e. unfold tryCatch.
  destruct (m w) as [[a|e'|] w1]; cbn in *; [discriminate|apply K|discriminate].
Qed.

Lemma NoThrow_forEach {A} (xs : list A) (body : A -> M unit) :
  (forall x, NoThrow (body x)) -> NoThrow (forEach xs body).
Proof.
  intros H. induction xs as [|x xs IH]; cbn [forEach].
  - apply NoThrow_ret.
  - apply NoThrow_bind; [apply H|]. intros _. exact IH.
Qed.

(** A unit call that settles and throws nothing returns. *)
Lemma returns (m : M unit) (w : World) :
  Settles m -> NoThrow m -> fst (m w) = Ok tt.
Proof.
  intros S N. specialize (S w). specialize (N w).
  destruct (fst (m w)) as [[]|e|]; [reflexivity|destruct (N e); reflexivity|congruence].
Qed.

(** ** What each operation may change *)

Create HintDb inv.

Lemma Inv_OnlyCache_KeepsStores {A} (m : M A) : Inv OnlyCache m -> Inv KeepsStores m.
Proof. apply Inv_weaken, OnlyCache_KeepsStores. Qed.

Lemma Inv_KeepsStores_Same {A} (m : M A) : Inv KeepsStores m -> Inv Same m.
Proof. apply Inv_weaken, KeepsStores_Same. Qed.

Lemma Inv_Same_Step {A} (E : SocketEvent -> Prop) (F : MailMessage -> Prop) (m : M A) :
  Inv Same m -> Inv (Step E F) m.
Proof. apply Inv_weaken, Same_Step. Qed.

Lemma Inv_Step_Track {A} (x : string) (m : M A) :
  Inv (Step (not_firing_of x) (not_mail_of x)) m -> Inv (Track x) m.
Proof. apply Inv_weaken, Step_Track. Qed.

#[local] Hint Resolve Inv_OnlyCache_KeepsStores Inv_KeepsStores_Same Inv_Same_Step
  Inv_Step_Track : inv.

(** The proof of [Inv R m] follows the structure of [m]. *)
Ltac inv_auto :=
  repeat first
    [ solve [eauto 8 with inv]
    | apply Inv_ret; typeclasses eauto
    | apply Inv_throw; typeclasses eauto
    | apply Inv_pending; typeclasses eauto
    | apply Inv_gets; typeclasses eauto
    | apply Inv_bind; try typeclasses eauto; [|intros ?]
    | apply Inv_tryCatch; try typeclasses eauto; [|intros ?]
    | apply Inv_forEach; try typeclasses eauto; intros ? ?
    | match goal with
      | |- Inv _ (if ?b then _ else _) => destruct b
      | |- Inv _ (match ?x with _ => _ end) => destruct x
      end ].

Lemma Inv_log (l : Level) (msg : string) : Inv OnlyCache (log l msg).
Proof. intros w. repeat split. Qed.

Lemma Inv_sleep (ms : Z) : Inv KeepsStores (sleep ms).
Proof. intros w. repeat split. Qed.

Lemma Inv_redisCall {A} (op : CacheState -> A * gmap string CacheData) :
  Inv OnlyCache (redisCall op).
Proof.
  intros w. unfold redisCall. destruct (nextFault _) as [[] rest];
    [|destruct (op _)]; repeat split.
Qed.

#[local] Hint Resolve Inv_log Inv_sleep Inv_redisCall : inv.

Lemma Inv_CacheService_delete (key : string) : Inv OnlyCache (CacheService.delete key).
Proof. unfold CacheService.delete, client_del. inv_auto. Qed.

#[local] Hint Resolve Inv_CacheService_delete : inv.

Lemma Inv_CacheService_get (key : string) : Inv OnlyCache (CacheService.get key).
Proof. unfold CacheService.get, client_get, Date_now. inv_auto. Qed.

Lemma Inv_CacheService_set (key : string) (v : list CryptoPriceData) (ttlSeconds : option Z) :
  Inv OnlyCache (CacheService.set key v ttlSeconds).
Proof. unfold CacheService.set, client_set, client_setEx, Date_now. inv_auto. Qed.

#[local] Hint Resolve Inv_CacheService_get Inv_CacheService_set : inv.

Lemma Inv_requestInterceptor : Inv KeepsStores CoinGeckoService.requestInterceptor.
Proof.
  unfold CoinGeckoService.requestInterceptor, Date_now. inv_auto.
  apply Inv_modify. intros w. repeat split.
Qed.

Lemma Inv_dispatch (cfg : RequestConfig) : Inv KeepsStores (CoinGeckoService.dispatch cfg).
Proof. intros w. repeat split. Qed.

#[local] Hint Resolve Inv_requestInterceptor Inv_dispatch : inv.

Lemma Inv_request (fuel : nat) (cfg : RequestConfig) :
  Inv KeepsStores (CoinGeckoService.request fuel cfg).
Proof.
  induction fuel as [|fuel IH]; cbn [CoinGeckoService.request]; inv_auto.
Qed.

#[local] Hint Resolve Inv_request : inv.

Lemma Inv_getCurrentPrices (fuel : nat) (coinIds : option (list string)) :
  Inv KeepsStores (CoinGeckoService.getCurrentPrices fuel coinIds).
Proof. unfold CoinGeckoService.getCurrentPrices. inv_auto. Qed.

#[local] Hint Resolve Inv_getCurrentPrices : inv.

Lemma Inv_mongoCall_Same {A} (op : Mongo -> A * Mongo) :
  (forall m, alerts (snd (op m)) = alerts m) -> Inv Same (mongoCall op).
Proof.
  intros H w. unfold mongoCall. destruct (nextFault _) as [[] rest]; [repeat split|].
  match goal with |- context [op ?m] => specialize (H m); destruct (op m) end.
  repeat split. exact H.
Qed.

Lemma Inv_Alert_find (q : AlertQuery) : Inv Same (Alert_find q).
Proof. apply Inv_mongoCall_Same. reflexivity. Qed.

Lemma Inv_User_findById (uid : string) : Inv Same (User_findById uid).
Proof. apply Inv_mongoCall_Same. reflexivity. Qed.

Lemma Inv_PriceHistory_insertMany (records : list PriceHistoryDocument) :
  Inv Same (PriceHistory_insertMany records).
Proof. apply Inv_mongoCall_Same. reflexivity. Qed.

#[local] Hint Resolve Inv_Alert_find Inv_User_findById Inv_PriceHistory_insertMany : inv.

Lemma updateFirst_deactivation (q : AlertQuery) (l : list AlertDocument) :
  Forall2 (fun d d' => d' = d \/ d' = applyUpdate deactivation d)
    l (snd (updateFirst q deactivation l)).
Proof.
  induction l as [|d l IH]; cbn [updateFirst]; [constructor|].
  destruct (matches q d).
  - constructor; [right; reflexivity|]. clear. induction l; constructor; auto.
  - destruct (updateFirst q deactivation l). constructor; [left; reflexivity|exact IH].
Qed.

Lemma Inv_Alert_findOneAndUpdate (E : SocketEvent -> Prop) (F : MailMessage -> Prop)
    (q : AlertQuery) :
  Inv (Step E F) (Alert_findOneAndUpdate q deactivation).
Proof.
  intros w. unfold Alert_findOneAndUpdate, mongoCall.
  destruct (nextFault _) as [[] rest]; [apply Same_Step; repeat split|].
  cbn [alerts users priceHistory mongoFaults].
  pose proof (updateFirst_deactivation q (alerts (mongo w))) as H.
  destruct (updateFirst q deactivation (alerts (mongo w))) as [found l].
  split; [exact H|]. exists [], []. rewrite !app_nil_r. repeat split; constructor.
Qed.

Lemma Inv_emit (E : SocketEvent -> Prop) (F : MailMessage -> Prop) (ev : SocketEvent) :
  E ev -> Inv (Step E F) (SocketService.emit ev).
Proof.
  intros H w. unfold SocketService.emit.
  destruct (nextFault _) as [[] rest]; [apply Same_Step; repeat split|].
  split; [exact (Mono_refl w)|].
  exists [ev], []. rewrite app_nil_r. repeat split; repeat constructor. exact H.
Qed.

Lemma Inv_sendMail (E : SocketEvent -> Prop) (F : MailMessage -> Prop) (msg : MailMessage) :
  F msg -> Inv (Step E F) (EmailService.sendMail msg).
Proof.
  intros H w. unfold EmailService.sendMail.
  destruct (nextFault _) as [[] rest]; [apply Same_Step; repeat split|].
  split; [exact (Mono_refl w)|].
  exists [], [msg]. rewrite app_nil_r. repeat split; repeat constructor. exact H.
Qed.

#[local] Hint Resolve Inv_Alert_findOneAndUpdate Inv_emit Inv_sendMail : inv.

Lemma Inv_broadcastPriceUpdate (x : string) (F : MailMessage -> Prop)
    (priceData : list CryptoPriceData) :
  Inv (Step (not_firing_of x) F) (SocketService.broadcastPriceUpdate priceData).
Proof.
  unfold SocketService.broadcastPriceUpdate. inv_auto; apply Inv_emit; exact I.
Qed.

Lemma Inv_sendAlert (E : SocketEvent -> Prop) (F : MailMessage -> Prop)
    (alert : AlertDocument) (cp pc : float) :
  (forall t, E (alert_triggered alert cp pc t)) ->
  Inv (Step E F) (SocketService.sendAlert alert cp pc).
Proof. intros H. unfold SocketService.sendAlert, Date_now. inv_auto. Qed.

Lemma Inv_sendAlertEmail (E : SocketEvent -> Prop) (F : MailMessage -> Prop)
    (to first : string) (alert : AlertDocument) (cp : float) :
  F (mkMail to first alert cp) ->
  Inv (Step E F) (EmailService.sendAlertEmail to first alert cp).
Proof. intros H. unfold EmailService.sendAlertEmail. inv_auto. Qed.

Lemma Inv_updateAlert_deactivation (E : SocketEvent -> Prop) (F : MailMessage -> Prop)
    (alertId : string) (uid : option string) :
  Inv (Step E F) (AlertService.updateAlert alertId deactivation uid).
Proof. unfold AlertService.updateAlert. inv_auto. Qed.

#[local] Hint Resolve Inv_broadcastPriceUpdate Inv_sendAlert Inv_sendAlertEmail
  Inv_updateAlert_deactivation : inv.

Lemma Inv_triggerAlert (E : SocketEvent -> Prop) (F : MailMessage -> Prop)
    (alert : AlertDocument) (priceData : CryptoPriceData) :
  (forall cp pc t, E (alert_triggered alert cp pc t)) ->
  (forall to first cp, F (mkMail to first alert cp)) ->
  Inv (Step E F) (AlertService.triggerAlert alert priceData).
Proof.
  intros HE HF. unfold AlertService.triggerAlert.
  change (mkUpdate None None None None (Some false)) with deactivation.
  inv_auto.
Qed.

Lemma Inv_checkAlert (E : SocketEvent -> Prop) (F : MailMessage -> Prop)
    (priceData : list CryptoPriceData) (alert : AlertDocument) :
  (forall cp pc t, E (alert_triggered alert cp pc t)) ->
  (forall to first cp, F (mkMail to first alert cp)) ->
  Inv (Step E F) (AlertService.checkAlert priceData alert).
Proof.
  intros HE HF. unfold AlertService.checkAlert.
  pose proof (Inv_triggerAlert E F alert) as T.
  destruct (List.find _ priceData); inv_auto.
Qed.

Lemma Inv_storePriceHistory (prices : list CryptoPriceData) :
  Inv Same (App.storePriceHistory prices).
Proof. unfold App.storePriceHistory, Date_now. inv_auto. Qed.

#[local] Hint Resolve Inv_storePriceHistory : inv.

(** ** Which operations settle, which throw nothing *)

Create HintDb settles.

Ltac settles_auto :=
  repeat first
    [ solve [eauto with settles]
    | apply Settles_ret | apply Settles_throw | apply Settles_gets | apply Settles_modify
    | apply Settles_bind; [|intros ?]
    | apply Settles_tryCatch; [|intros ?]
    | apply Settles_forEach; intros ?
    | match goal with
      | |- Settles (if ?b then _ else _) => destruct b
      | |- Settles (match ?x with _ => _ end) => destruct x
      end ].

Lemma Settles_redisCall {A} (op : CacheState -> A * gmap string CacheData) :
  Settles (redisCall op).
Proof.
  intros w. unfold redisCall. destruct (nextFault _) as [[] rest];
    [|destruct (op _)]; discriminate.
Qed.

Lemma Settles_mongoCall {A} (op : Mongo -> A * Mongo) : Settles (mongoCall op).
Proof.
  intros w. unfold mongoCall. destruct (nextFault _) as [[] rest]; [discriminate|].
  cbn. destruct (op _). discriminate.
Qed.

Lemma Settles_emit (ev : SocketEvent) : Settles (SocketService.emit ev).
Proof.
  intros w. unfold SocketService.emit. destruct (nextFault _) as [[] rest]; discriminate.
Qed.

Lemma Settles_sendMail (msg : MailMessage) : Settles (EmailService.sendMail msg).
Proof.
  intros w. unfold EmailService.sendMail. destruct (nextFault _) as [[] rest]; discriminate.
Qed.

Lemma Settles_log (l : Level) (msg : string) : Settles (log l msg).
Proof. apply Settles_modify. Qed.

#[local] Hint Resolve Settles_redisCall Settles_mongoCall Settles_emit Settles_sendMail
  Settles_log : settles.

Lemma Settles_CacheService_delete (key : string) : Settles (CacheService.delete key).
Proof. unfold CacheService.delete, client_del. settles_auto. Qed.

#[local] Hint Resolve Settles_CacheService_delete : settles.

Lemma Settles_CacheService_get (key : string) : Settles (CacheService.get key).
Proof. unfold CacheService.get, client_get, Date_now. settles_auto. Qed.

Lemma Settles_CacheService_set (key : string) (v : list CryptoPriceData)
    (ttlSeconds : option Z) :
  Settles (CacheService.set key v ttlSeconds).
Proof. unfold CacheService.set, client_set, client_setEx, Date_now. settles_auto. Qed.

Lemma Settles_broadcastPriceUpdate (priceData : list CryptoPriceData) :
  Settles (SocketService.broadcastPriceUpdate priceData).
Proof. unfold SocketService.broadcastPriceUpdate. settles_auto. Qed.

Lemma Settles_triggerAlert (alert : AlertDocument) (priceData : CryptoPriceData) :
  Settles (AlertService.triggerAlert alert priceData).
Proof.
  unfold AlertService.triggerAlert, User_findById, SocketService.sendAlert, Date_now,
    EmailService.sendAlertEmail, AlertService.updateAlert, Alert_findOneAndUpdate.
  settles_auto.
Qed.

#[local] Hint Resolve Settles_CacheService_get Settles_CacheService_set
  Settles_broadcastPriceUpdate Settles_triggerAlert : settles.

Lemma Settles_checkAlerts (priceData : list CryptoPriceData) :
  Settles (AlertService.checkAlerts priceData).
Proof.
  unfold AlertService.checkAlerts, Alert_find, AlertService.checkAlert. settles_auto.
Qed.

Lemma Settles_storePriceHistory (prices : list CryptoPriceData) :
  Settles (App.storePriceHistory prices).
Proof.
  unfold App.storePriceHistory, PriceHistory_insertMany, Date_now. settles_auto.
Qed.

#[local] Hint Resolve Settles_checkAlerts Settles_storePriceHistory : settles.

Lemma NoThrow_log (l : Level) (msg : string) : NoThrow (log l msg).
Proof. apply NoThrow_modify. Qed.

Lemma NoThrow_CacheService_delete (key : string) : NoThrow (CacheService.delete key).
Proof. apply NoThrow_tryCatch. intros _. apply NoThrow_log. Qed.

Lemma NoThrow_CacheService_set (key : string) (v : list CryptoPriceData)
    (ttlSeconds : option Z) :
  NoThrow (CacheService.set key v ttlSeconds).
Proof. apply NoThrow_tryCatch. intros _. apply NoThrow_log. Qed.

Lemma NoThrow_CacheService_get (key : string) : NoThrow (CacheService.get key).
Proof.
  apply NoThrow_tryCatch. intros _. apply NoThrow_bind; [apply NoThrow_log|].
  intros _. apply NoThrow_ret.
Qed.

Lemma NoThrow_triggerAlert (alert : AlertDocument) (priceData : CryptoPriceData) :
  NoThrow (AlertService.triggerAlert alert priceData).
Proof. apply NoThrow_tryCatch. intros _. apply NoThrow_log. Qed.

Lemma NoThrow_checkAlerts (priceData : list CryptoPriceData) :
  NoThrow (AlertService.checkAlerts priceData).
Proof. apply NoThrow_tryCatch. intros _. apply NoThrow_log. Qed.

Lemma NoThrow_storePriceHistory (prices : list CryptoPriceData) :
  NoThrow (App.storePriceHistory prices).
Proof. apply NoThrow_tryCatch. intros _. apply NoThrow_log. Qed.

Lemma NoThrow_priceTick (fuel : nat) : NoThrow (App.priceTick fuel).
Proof. apply NoThrow_tryCatch. intros _. apply NoThrow_log. Qed.

(** [CacheService.get] always answers: a value or absent. *)
Lemma CacheService_get_answers (key : string) (w : World) :
  exists o, fst (CacheService.get key w) = Ok o.
Proof.
  pose proof (Settles_CacheService_get key w) as S.
  pose proof (NoThrow_CacheService_get key w) as N.
  destruct (fst (CacheService.get key w)) as [o|e|];
    [eauto|destruct (N e); reflexivity|congruence].
Qed.

(** ** The tick is a failure boundary (C8) *)

Lemma settles_bind_at {A B} (m : M A) (k : A -> M B) (w : World) :
  fst (m w) <> Pending -> (forall a, Settles (k a)) -> fst (bind m k w) <> Pending.
Proof.
  intros H K. unfold bind. destruct (m w) as [[a|e|] w1]; cbn in *;
    [apply K|discriminate|congruence].
Qed.

Lemma settles_tryCatch_at {A} (m : M A) (h : Exn -> M A) (w : World) :
  fst (m w) <> Pending -> (forall e, Settles (h e)) -> fst (tryCatch m h w) <> Pending.
Proof.
  intros H K. unfold tryCatch. destruct (m w) as [[a|e|] w1]; cbn in *;
    [discriminate|apply K|congruence].
Qed.

Lemma cronDriver_runs_every_tick (ticks fuel : nat) (w : World) :
  length (fst (App.cronDriver ticks fuel w)) = ticks /\
  Forall (fun r => forall e, r <> Throw e) (fst (App.cronDriver ticks fuel w)).
Proof.
  revert w. induction ticks as [|n IH]; intros w; cbn [App.cronDriver].
  - split; [reflexivity|constructor].
  - pose proof (NoThrow_priceTick fuel w) as N.
    destruct (App.priceTick fuel w) as [r w1]. cbn [fst] in N.
    destruct r as [[]|e|]; [|destruct (N e); reflexivity|].
    all: match goal with |- context [App.cronDriver ?k ?f ?w'] =>
           specialize (IH w'); destruct (App.cronDriver k f w') as [rs w2] end.
    all: cbn [fst length] in *; destruct IH as [IH1 IH2];
      split; [congruence|constructor; [discriminate|assumption]].
Qed.

(** C8.  An exception raised anywhere in the body of a price tick (by the
    fetch, the broadcast, the alert check or the history store) is caught
    by the tick, which logs it and returns normally; no exception leaves the
    tick; once the fetch has settled the tick returns; and the timer driver
    therefore runs every one of its ticks. *)
Theorem priceTick_contains_exceptions (fuel : nat) (w : World) :
  (forall e w1, App.priceTickBody fuel w = (Throw e, w1) ->
     App.priceTick fuel w =
       (Ok tt, with_logs (logs w1 ++ [(error, "Error in price update cron job:")]) w1)) /\
  (forall e, fst (App.priceTick fuel w) <> Throw e) /\
  (fst (CoinGeckoService.getCurrentPrices fuel None w) <> Pending ->
     fst (App.priceTick fuel w) = Ok tt) /\
  (forall ticks,
     length (fst (App.cronDriver ticks fuel w)) = ticks /\
     Forall (fun r => forall e, r <> Throw e) (fst (App.cronDriver ticks fuel w))).
Proof.
  split; [|split; [|split]].
  - intros e w1 H. unfold App.priceTick. rewrite (tryCatch_Throw _ _ _ _ _ H). reflexivity.
  - apply NoThrow_priceTick.
  - intros H.
    assert (S : fst (App.priceTick fuel w) <> Pending).
    { apply settles_tryCatch_at; [|intros _; apply Settles_log].
      apply settles_bind_at; [exact H|]. intros prices. unfold Date_now. settles_auto. }
    pose proof (NoThrow_priceTick fuel w) as N.
    destruct (fst (App.priceTick fuel w)) as [[]|e|];
      [reflexivity|destruct (N e); reflexivity|congruence].
  - intros ticks. apply cronDriver_runs_every_tick.
Qed.

Lemma priceTick_contains_exceptions_witness :
  let w := Scenario.world 100000 ∅ (Scenario.always NetworkError) [] [] in
  fst (App.priceTickBody 1 w) = Throw (JsError "Failed to fetch cryptocurrency prices") /\
  fst (App.priceTick 1 w) = Ok tt /\
  last (logs (snd (App.priceTick 1 w))) = Some (error, "Error in price update cron job:").
Proof.
  intros w.
  assert (Hf : fst (App.priceTickBody 1 w) =
               Throw (JsError "Failed to fetch cryptocurrency prices"))
    by (vm_compute; reflexivity).
  assert (H : App.priceTickBody 1 w =
              (Throw (JsError "Failed to fetch cryptocurrency prices"),
               snd (App.priceTickBody 1 w))).
  { rewrite <- Hf. apply surjective_pairing. }
  pose proof (proj1 (priceTick_contains_exceptions 1 w) _ _ H) as T.
  split; [exact Hf|]. rewrite T. split; [reflexivity|].
  cbn [snd logs with_logs]. apply last_snoc.
Defined.

(** A failure of the broadcast is contained in the same way. *)
Example priceTick_broadcast_failure :
  let w := with_socket (mkSocket true [] [true])
             (Scenario.world 100000 ∅
                (Scenario.always (Response 200 None [Scenario.btc 61000 1.5])) [] []) in
  fst (App.priceTickBody 1 w) = Throw (CollaboratorError "socket.io") /\
  fst (App.priceTick 1 w) = Ok tt.
Proof. split; vm_compute; reflexivity. Qed.

(** ** Listing a user's alerts (C10) *)

Lemma In_insertByCreatedAtDesc (d x : AlertDocument) (l : list AlertDocument) :
  In x (insertByCreatedAtDesc d l) <-> x = d \/ In x l.
Proof.
  induction l as [|y l IH]; cbn [insertByCreatedAtDesc].
  - cbn. intuition.
  - destruct (createdAt y <? createdAt d); cbn [In] in *; [intuition|].
    rewrite IH. intuition.
Qed.

Lemma In_sortByCreatedAtDesc (x : AlertDocument) (l : list AlertDocument) :
  In x (sortByCreatedAtDesc l) <-> In x l.
Proof.
  unfold sortByCreatedAtDesc. induction l as [|d l IH]; cbn [fold_right]; [reflexivity|].
  rewrite In_insertByCreatedAtDesc, IH. cbn. intuition.
Qed.

Lemma matches_user_active (u : string) (d : AlertDocument) :
  matches (mkQuery None (Some u) (Some true)) d = true <->
  userId d = u /\ isActive d = true.
Proof.
  unfold matches. cbn [q_id q_userId q_isActive].
  rewrite andb_true_l, andb_true_iff, String.eqb_eq.
  destruct (isActive d); cbn; intuition.
Qed.

(** C10.  [getUserAlerts] returns exactly the documents of the store that
    belong to the user and have [isActive = true]: a rule that was
    deactivated, by its own firing or by hand, is still in the store but is
    never in the result.  The call returns whenever MongoDB answers. *)
Theorem getUserAlerts_returns_active_only (uid : option string) (w : World) :
  (quiet 1 (mongoFaults (mongo w)) ->
     exists r, fst (AlertService.getUserAlerts uid w) = Ok r) /\
  (forall r, fst (AlertService.getUserAlerts uid w) = Ok r ->
     forall d, In d r <->
       In d (alerts (mongo w)) /\ userId d = default "default" uid /\ isActive d = true).
Proof.
  unfold AlertService.getUserAlerts, Alert_find. split.
  - intros Q. erewrite tryCatch_Ok; [eexists; reflexivity|].
    erewrite bind_Ok; [reflexivity|]. apply mongoCall_quiet, Q.
  - intros r. unfold tryCatch, bind, mongoCall.
    destruct (nextFault _) as [[] rest]; cbn; [discriminate|].
    intros [= <-] d.
    rewrite In_sortByCreatedAtDesc, filter_In, matches_user_active. reflexivity.
Qed.

Lemma getUserAlerts_returns_active_only_witness :
  let w := Scenario.world 0 ∅ (Scenario.always NetworkError)
             [Scenario.rule_btc_above; Scenario.rule_eth_inactive] [] in
  fst (AlertService.getUserAlerts (Some "u1") w) = Ok [Scenario.rule_btc_above] /\
  In Scenario.rule_eth_inactive (alerts (mongo w)) /\
  ~ In Scenario.rule_eth_inactive [Scenario.rule_btc_above].
Proof.
  intros w.
  assert (H : fst (AlertService.getUserAlerts (Some "u1") w) = Ok [Scenario.rule_btc_above])
    by (vm_compute; reflexivity).
  split; [exact H|]. split; [right; left; reflexivity|].
  intros Hin.
  apply (proj2 (getUserAlerts_returns_active_only (Some "u1") w) _ H) in Hin.
  destruct Hin as (_ & _ & Hact). discriminate Hact.
Defined.

(** A rule that has fired is deactivated and leaves the listing at once. *)
Example getUserAlerts_after_firing :
  let w := Scenario.world 100000 ∅
             (Scenario.always (Response 200 None [Scenario.btc 61000 1.5]))
             [Scenario.rule_btc_above] [] in
  fst (AlertService.getUserAlerts (Some "u1") w) = Ok [Scenario.rule_btc_above] /\
  fst (AlertService.getUserAlerts (Some "u1") (snd (App.priceTick 1 w))) = Ok [] /\
  List.map _id (alerts (mongo (snd (App.priceTick 1 w)))) = ["a1"].
Proof. repeat split; vm_compute; reflexivity. Qed.

(** ** The cache in front of the upstream (C7, C1) *)

Lemma get_fresh (key : string) (w : World) (e : CacheData) :
  isConnected (cache w) = true ->
  quiet 1 (redisFaults (cache w)) ->
  redis (cache w) !! key = Some e ->
  now w - timestamp e <= ttl e ->
  CacheService.get key w =
    (Ok (Some (data e)),
     with_logs (logs w ++ [(debug, "Cache hit: " ++ key)])
       (with_cache (mkCache (isConnected (cache w)) (redis (cache w))
                      (tail (redisFaults (cache w)))) w)).
Proof.
  intros C Q L F. unfold CacheService.get.
  apply tryCatch_Ok.
  unfold gets. cbn [bind]. rewrite C. cbn [negb].
  unfold client_get. erewrite bind_Ok; [|apply redisCall_quiet, Q].
  cbn [fst snd]. rewrite L, C. unfold Date_now, gets, bind. cbn [now with_cache].
  destruct (Z.ltb_spec (ttl e) (now w - timestamp e)); [lia|]. reflexivity.
Qed.

Lemma delete_quiet (key : string) (w : World) :
  isConnected (cache w) = true ->
  quiet 1 (redisFaults (cache w)) ->
  CacheService.delete key w =
    (Ok tt,
     with_logs (logs w ++ [(debug, "Cache deleted: " ++ key)])
       (with_cache (mkCache (isConnected (cache w)) (base.delete key (redis (cache w)))
                      (tail (redisFaults (cache w)))) w)).
Proof.
  intros C Q. unfold CacheService.delete.
  apply tryCatch_Ok.
  unfold gets. cbn [bind]. rewrite C. cbn [negb].
  unfold client_del. erewrite bind_Ok; [|apply redisCall_quiet, Q].
  rewrite C. reflexivity.
Qed.

(** A normal read of an entry older than its [ttl] deletes the entry and
    answers absent. *)
Lemma get_stale (key : string) (w : World) (e : CacheData) :
  isConnected (cache w) = true ->
  quiet 2 (redisFaults (cache w)) ->
  redis (cache w) !! key = Some e ->
  ttl e < now w - timestamp e ->
  CacheService.get key w =
    (Ok None,
     with_logs (logs w ++ [(debug, "Cache deleted: " ++ key)])
       (with_cache (mkCache (isConnected (cache w)) (base.delete key (redis (cache w)))
                      (tail (tail (redisFaults (cache w))))) w)).
Proof.
  intros C Q L F. unfold CacheService.get.
  destruct (nextFault_quiet _ _ Q) as [_ Q1].
  apply tryCatch_Ok.
  unfold gets. cbn [bind]. rewrite C. cbn [negb].
  unfold client_get. erewrite bind_Ok; [|apply redisCall_quiet; eapply quiet_le; [|exact Q]; lia].
  cbn [fst snd]. rewrite L, C. unfold Date_now, gets. cbn [bind now with_cache].
  destruct (Z.ltb_spec (ttl e) (now w - timestamp e)); [|lia].
  erewrite bind_Ok; [|apply delete_quiet; [reflexivity|exact Q1]]. reflexivity.
Qed.

(** Whatever the state of the connection, a normal read never answers with
    an entry older than its [ttl]. *)
Lemma get_never_stale (key : string) (w : World) (e : CacheData) :
  redis (cache w) !! key = Some e ->
  ttl e < now w - timestamp e ->
  fst (CacheService.get key w) = Ok None.
Proof.
  intros L F.
  destruct (CacheService_get_answers key w) as [[v|] H]; [exfalso|exact H].
  revert H. unfold CacheService.get, tryCatch, bind, gets, client_get, redisCall, Date_now.
  destruct (isConnected (cache w)); cbn [negb]; [|discriminate].
  destruct (nextFault _) as [[] rest]; cbn; [discriminate|].
  rewrite L. cbn [now with_cache].
  destruct (Z.ltb_spec (ttl e) (now w - timestamp e)); [|lia]. cbn beta.
  match goal with |- context [CacheService.delete key ?x] =>
    destruct (CacheService.delete key x) as [[[]|?|] ?] end; cbn; discriminate.
Qed.

Lemma getCurrentPrices_hit (fuel : nat) (coinIds : option (list string)) (w w1 : World)
    (v : list CryptoPriceData) :
  CacheService.get
    (CoinGeckoService.cacheKey (default config.supportedCoins coinIds)) w = (Ok (Some v), w1) ->
  CoinGeckoService.getCurrentPrices fuel coinIds w =
    (Ok v, with_logs (logs w1 ++ [(debug, "Returning cached price data")]) w1).
Proof.
  intros H. unfold CoinGeckoService.getCurrentPrices.
  erewrite tryCatch_Ok; [reflexivity|].
  erewrite bind_Ok; [|exact H]. reflexivity.
Qed.

(** C7.  When the cache holds a fresh entry under the key of the call,
    [getCurrentPrices] returns the cached value and sends no request: the
    request counter and the list of requests received by the upstream are
    unchanged.  Conversely a call that sends a request had a cache miss. *)
Theorem getCurrentPrices_fresh_hit_sends_nothing :
  (forall (fuel : nat) (coinIds : option (list string)) (w : World) (e : CacheData),
     isConnected (cache w) = true ->
     quiet 1 (redisFaults (cache w)) ->
     redis (cache w) !!
       CoinGeckoService.cacheKey (default config.supportedCoins coinIds) = Some e ->
     now w - timestamp e <= ttl e ->
     let r := CoinGeckoService.getCurrentPrices fuel coinIds w in
     fst r = Ok (data e) /\
     requestCount (gecko (snd r)) = requestCount (gecko w) /\
     sent (network (snd r)) = sent (network w)) /\
  (forall (fuel : nat) (coinIds : option (list string)) (w : World),
     let r := CoinGeckoService.getCurrentPrices fuel coinIds w in
     sent (network (snd r)) <> sent (network w) \/
     requestCount (gecko (snd r)) <> requestCount (gecko w) ->
     fst (CacheService.get
            (CoinGeckoService.cacheKey (default config.supportedCoins coinIds)) w) = Ok None).
Proof.
  split.
  - intros fuel coinIds w e C Q L F r. subst r.
    rewrite (getCurrentPrices_hit fuel coinIds w _ (data e) (get_fresh _ w e C Q L F)).
    repeat split.
  - intros fuel coinIds w r H. subst r.
    destruct (CacheService_get_answers
                (CoinGeckoService.cacheKey (default config.supportedCoins coinIds)) w)
      as [[v|] Hg]; [exfalso|exact Hg].
    pose proof (Inv_CacheService_get
                  (CoinGeckoService.cacheKey (default config.supportedCoins coinIds)) w)
      as (_ & Hgecko & Hnet & _).
    destruct (CacheService.get _ w) as [o w1] eqn:G. cbn [fst snd] in *. subst o.
    rewrite (getCurrentPrices_hit fuel coinIds w w1 v G) in H. cbn [snd] in H.
    cbn [network gecko with_logs] in H. rewrite Hgecko, Hnet in H. tauto.
Qed.

Lemma getCurrentPrices_fresh_hit_sends_nothing_witness :
  let entry := mkCacheData [Scenario.btc 61000 1.5] 1000 30000 in
  let w := Scenario.world 31000 {[ CoinGeckoService.cacheKey config.supportedCoins := entry ]}
             (Scenario.always NetworkError) [] [] in
  fst (CoinGeckoService.getCurrentPrices 1 None w) = Ok [Scenario.btc 61000 1.5] /\
  requestCount (gecko (snd (CoinGeckoService.getCurrentPrices 1 None w))) = 0 /\
  sent (network (snd (CoinGeckoService.getCurrentPrices 1 None w))) = [].
Proof.
  intros entry w.
  apply (proj1 getCurrentPrices_fresh_hit_sends_nothing 1%nat None w entry).
  - reflexivity.
  - apply quiet_nil.
  - vm_compute. reflexivity.
  - vm_compute. discriminate.
Defined.

(** ** The HTTP client: pacing and the retry on 429 (C4) *)

Lemma requestInterceptor_ok (w : World) :
  CoinGeckoService.requestInterceptor w = (Ok tt, paced w).
Proof.
  unfold paced, CoinGeckoService.requestInterceptor, Date_now, gets, bind.
  destruct (_ <? _); reflexivity.
Qed.

Lemma paced_frame (w : World) :
  network (paced w) = network w /\ cache (paced w) = cache w /\
  requestCount (gecko (paced w)) = requestCount (gecko w) + 1 /\
  lastRequestTime (gecko (paced w)) = now (paced w) /\
  now w <= now (paced w).
Proof.
  unfold paced, CoinGeckoService.requestInterceptor, Date_now, gets, bind.
  destruct (_ <? _); cbn; repeat split; lia.
Qed.

Lemma sendOnce_frame (cfg : RequestConfig) (w : World) :
  sent (network (sendOnce cfg w)) = (sent (network w) ++ [cfg])%list /\
  upstream (network (sendOnce cfg w)) = upstream (network w) /\
  cache (sendOnce cfg w) = cache w /\
  requestCount (gecko (sendOnce cfg w)) = requestCount (gecko w) + 1 /\
  lastRequestTime (gecko (sendOnce cfg w)) = now (sendOnce cfg w) /\
  now w <= now (sendOnce cfg w).
Proof.
  destruct (paced_frame w) as (Hn & Hc & Hr & Hl & Ht).
  unfold sendOnce, CoinGeckoService.dispatch. cbn. rewrite Hn. repeat split; assumption.
Qed.

Lemma dispatch_paced (cfg : RequestConfig) (w : World) :
  CoinGeckoService.dispatch cfg (paced w) =
    (Ok (upstream (network w) (length (sent (network w)))), sendOnce cfg w).
Proof.
  unfold sendOnce, CoinGeckoService.dispatch. cbn [snd].
  destruct (paced_frame w) as (Hn & _). rewrite Hn at 1 2. reflexivity.
Qed.

Lemma request_unfold (fuel : nat) (cfg : RequestConfig) (w : World) :
  CoinGeckoService.request (S fuel) cfg w =
    match upstream (network w) (length (sent (network w))) with
    | Response status retryAfterHeader body =>
        if is2xx status then (Ok body, sendOnce cfg w)
        else if status =? 429 then
          CoinGeckoService.request fuel cfg
            (retryWait (Response status retryAfterHeader body) (sendOnce cfg w))
        else (Throw (AxiosError (Some status)),
              with_logs (logs (sendOnce cfg w) ++ [(error, "CoinGecko API Error:")])
                (sendOnce cfg w))
    | NetworkError =>
        (Throw (AxiosError None),
         with_logs (logs (sendOnce cfg w) ++ [(error, "CoinGecko API Error:")]) (sendOnce cfg w))
    end.
Proof.
  cbn [CoinGeckoService.request].
  erewrite bind_Ok; [|apply requestInterceptor_ok].
  erewrite bind_Ok; [|apply dispatch_paced].
  destruct (upstream (network w) (length (sent (network w)))) as [status ra body|];
    [|reflexivity].
  unfold is2xx. destruct ((200 <=? status) && (status <? 300)); [reflexivity|].
  destruct (status =? 429); reflexivity.
Qed.

Lemma is429_inv (out : HttpOutcome) :
  is429 out = true -> exists ra body, out = Response 429 ra body.
Proof.
  destruct out as [status ra body|]; cbn; [|discriminate].
  intros H. apply Z.eqb_eq in H. subst. eauto.
Qed.

Lemma request_429 (fuel : nat) (cfg : RequestConfig) (w : World) :
  is429 (upstream (network w) (length (sent (network w)))) = true ->
  CoinGeckoService.request (S fuel) cfg w =
    CoinGeckoService.request fuel cfg
      (retryWait (upstream (network w) (length (sent (network w)))) (sendOnce cfg w)).
Proof.
  intros H. rewrite request_unfold.
  destruct (is429_inv _ H) as (ra & body & ->). reflexivity.
Qed.

Lemma request_settles (fuel : nat) (cfg : RequestConfig) (w : World) :
  is429 (upstream (network w) (length (sent (network w)))) = false ->
  exists l,
    CoinGeckoService.request (S fuel) cfg w =
      (settle (upstream (network w) (length (sent (network w)))),
       with_logs (logs (sendOnce cfg w) ++ l) (sendOnce cfg w)).
Proof.
  intros H. rewrite request_unfold.
  destruct (upstream (network w) (length (sent (network w)))) as [status ra body|];
    cbn [settle is429] in *.
  - destruct (is2xx status).
    + exists []. rewrite app_nil_r. destruct (sendOnce cfg w); reflexivity.
    + rewrite H. eexists. reflexivity.
  - eexists. reflexivity.
Qed.

Lemma retryWait_frame (out : HttpOutcome) (w : World) :
  network (retryWait out w) = network w /\ gecko (retryWait out w) = gecko w /\
  cache (retryWait out w) = cache w /\ now (retryWait out w) = now w + retryDelay out.
Proof. repeat split. Qed.

Lemma retryDelay_nonneg (out : HttpOutcome) : 0 <= retryDelay out.
Proof. destruct out; cbn; lia. Qed.

(** As long as the upstream answers 429 the client keeps retrying: the call
    is still pending after any number of requests. *)
Lemma request_pending_while_429 (fuel : nat) :
  forall (cfg : RequestConfig) (w : World),
    (forall i, is429 (upstream (network w) (length (sent (network w)) + i)) = true) ->
    fst (CoinGeckoService.request fuel cfg w) = Pending /\
    sent (network (snd (CoinGeckoService.request fuel cfg w))) =
      (sent (network w) ++ repeat cfg fuel)%list.
Proof.
  induction fuel as [|fuel IH]; intros cfg w H.
  - cbn. rewrite app_nil_r. split; reflexivity.
  - assert (H0 : is429 (upstream (network w) (length (sent (network w)))) = true).
    { rewrite <- (Nat.add_0_r (length _)). apply H. }
    rewrite (request_429 fuel cfg w H0).
    destruct (sendOnce_frame cfg w) as (Hs & Hu & _).
    set (w' := retryWait (upstream (network w) (length (sent (network w)))) (sendOnce cfg w)).
    assert (Wn : network w' = network (sendOnce cfg w)) by reflexivity.
    destruct (IH cfg w') as [R1 R2].
    + intros i. rewrite Wn, Hu, Hs, length_app. cbn [length].
      replace (length (sent (network w)) + 1 + i)%nat
        with (length (sent (network w)) + S i)%nat by lia.
      apply H.
    + split; [exact R1|]. rewrite R2, Wn, Hs, <- app_assoc. reflexivity.
Qed.

(** C4, as amended.  A request answered by 429 is sent again, unchanged,
    after the wait the answer asks for (its retry-after header in seconds,
    60 without one), and this is repeated for as long as the upstream
    answers 429, without a bound.  When the answers to the first [n]
    requests are 429 and the next one is not, the call sends exactly [n + 1]
    copies of the request, the last one no earlier than the sum of the
    waits, and ends as the last answer says: with its body if it is a 2xx,
    with the failure surfaced to the caller otherwise. *)
Theorem request_retries_after_every_429 (n fuel : nat) (cfg : RequestConfig) (w : World) :
  (forall i, (i < n)%nat ->
     is429 (upstream (network w) (length (sent (network w)) + i)) = true) ->
  is429 (upstream (network w) (length (sent (network w)) + n)) = false ->
  (n < fuel)%nat ->
  fst (CoinGeckoService.request fuel cfg w) =
    settle (upstream (network w) (length (sent (network w)) + n)) /\
  sent (network (snd (CoinGeckoService.request fuel cfg w))) =
    (sent (network w) ++ repeat cfg (S n))%list /\
  requestCount (gecko (snd (CoinGeckoService.request fuel cfg w))) =
    requestCount (gecko w) + Z.of_nat (S n) /\
  now w + totalDelay (upstream (network w)) (length (sent (network w))) n <=
    lastRequestTime (gecko (snd (CoinGeckoService.request fuel cfg w))).
Proof.
  revert fuel cfg w.
  induction n as [|n IH]; intros fuel cfg w H429 Hlast Hfuel;
    (destruct fuel as [|fuel]; [lia|]);
    destruct (sendOnce_frame cfg w) as (Hs & Hu & _ & Hr & Hl & Ht).
  - rewrite Nat.add_0_r in Hlast.
    destruct (request_settles fuel cfg w Hlast) as [l ->].
    rewrite Nat.add_0_r. cbn [fst snd network gecko with_logs totalDelay repeat].
    repeat split; [assumption|lia|lia].
  - assert (H0 : is429 (upstream (network w) (length (sent (network w)))) = true).
    { rewrite <- (Nat.add_0_r (length _)). apply H429. lia. }
    rewrite (request_429 fuel cfg w H0).
    set (w' := retryWait (upstream (network w) (length (sent (network w)))) (sendOnce cfg w)).
    destruct (retryWait_frame (upstream (network w) (length (sent (network w))))
                (sendOnce cfg w)) as (Wn & Wg & _ & Wt).
    fold w' in Wn, Wg, Wt.
    assert (Hlen : length (sent (network w')) = S (length (sent (network w)))).
    { rewrite Wn, Hs, length_app. cbn. lia. }
    assert (Hup : upstream (network w') = upstream (network w)) by (rewrite Wn; exact Hu).
    destruct (IH fuel cfg w') as (R1 & R2 & R3 & R4).
    + intros i Hi. rewrite Hup, Hlen. replace (S _ + i)%nat with (length (sent (network w)) + S i)%nat by lia.
      apply H429. lia.
    + rewrite Hup, Hlen. replace (S _ + n)%nat with (length (sent (network w)) + S n)%nat by lia.
      exact Hlast.
    + lia.
    + rewrite Hup, Hlen in R1, R4.
      replace (S (length (sent (network w))) + n)%nat
        with (length (sent (network w)) + S n)%nat in R1 by lia.
      split; [exact R1|]. split; [|split].
      * rewrite R2, Wn, Hs, <- app_assoc. reflexivity.
      * rewrite R3, Wg, Hr. lia.
      * cbn [totalDelay]. rewrite Wt in R4. lia.
Qed.

Lemma request_retries_after_every_429_witness :
  let cfg := mkRequest "/coins/markets" "bitcoin" 1 in
  let w := Scenario.world 100000 ∅ (Scenario.after429 1 (Response 500 None [])) [] [] in
  fst (CoinGeckoService.request 2 cfg w) = Throw (AxiosError (Some 500)) /\
  sent (network (snd (CoinGeckoService.request 2 cfg w))) = [cfg; cfg] /\
  requestCount (gecko (snd (CoinGeckoService.request 2 cfg w))) = 2 /\
  100000 + 60000 <= lastRequestTime (gecko (snd (CoinGeckoService.request 2 cfg w))).
Proof.
  intros cfg w.
  apply (request_retries_after_every_429 1 2 cfg w).
  - intros i Hi. destruct i as [|i]; [reflexivity|lia].
  - reflexivity.
  - lia.
Defined.

(** C4, counterexample.  The first answer is a 429 and the single retry
    fails too, with a second 429: the failure is not surfaced, a third
    request is sent and its answer is returned. *)
Lemma request_second_429_counterexample :
  let cfg := mkRequest "/coins/markets" "bitcoin" 1 in
  let ok := Response 200 None [Scenario.btc 61000 1.5] in
  let w := Scenario.world 100000 ∅ (Scenario.after429 2 ok) [] [] in
  is429 (upstream (network w) 0) = true /\
  settle (upstream (network w) 1) = Throw (AxiosError (Some 429)) /\
  fst (CoinGeckoService.request 3 cfg w) = Ok [Scenario.btc 61000 1.5] /\
  sent (network (snd (CoinGeckoService.request 3 cfg w))) = [cfg; cfg; cfg].
Proof. repeat split; vm_compute; reflexivity. Qed.

(** ** The fallback of [getCurrentPrices] on an upstream failure (C1) *)

Lemma get_absent (key : string) (w : World) :
  isConnected (cache w) = true ->
  quiet 1 (redisFaults (cache w)) ->
  redis (cache w) !! key = None ->
  CacheService.get key w =
    (Ok None,
     with_cache (mkCache (isConnected (cache w)) (redis (cache w))
                   (tail (redisFaults (cache w)))) w).
Proof.
  intros C Q L. unfold CacheService.get. apply tryCatch_Ok.
  unfold gets. cbn [bind]. rewrite C. cbn [negb].
  unfold client_get. erewrite bind_Ok; [|apply redisCall_quiet, Q].
  cbn [fst snd]. rewrite L, C. reflexivity.
Qed.

(** With a stale entry under the key and an upstream that fails, the first
    read deletes the entry, the fallback read of the [catch] block goes
    through the same [get] and finds nothing, and the call throws. *)
Lemma getCurrentPrices_stale_entry_lost (fuel : nat) (coinIds : option (list string))
    (w : World) (e : CacheData) (ex : Exn) :
  isConnected (cache w) = true ->
  quiet 3 (redisFaults (cache w)) ->
  redis (cache w) !!
    CoinGeckoService.cacheKey (default config.supportedCoins coinIds) = Some e ->
  ttl e < now w - timestamp e ->
  is429 (upstream (network w) (length (sent (network w)))) = false ->
  settle (upstream (network w) (length (sent (network w)))) = Throw ex ->
  fst (CoinGeckoService.getCurrentPrices (S fuel) coinIds w) =
    Throw (JsError "Failed to fetch cryptocurrency prices").
Proof.
  intros C Q L F H429 Hex. unfold CoinGeckoService.getCurrentPrices.
  set (key := CoinGeckoService.cacheKey (default config.supportedCoins coinIds)) in *.
  set (cfg := mkRequest _ _ _).
  pose proof (get_stale key w e C (quiet_le 2 3 _ ltac:(lia) Q) L F) as G.
  set (w1 := with_logs _ _) in G.
  destruct (request_settles fuel cfg w1 H429) as [l R].
  change (upstream (network w1) (length (sent (network w1))))
    with (upstream (network w) (length (sent (network w)))) in R.
  rewrite Hex in R.
  set (w2 := with_logs (logs (sendOnce cfg w1) ++ l) (sendOnce cfg w1)) in R.
  erewrite tryCatch_Throw;
    [|erewrite bind_Ok; [|exact G]; cbn beta iota; erewrite bind_Throw; [reflexivity|exact R]].
  destruct (sendOnce_frame cfg w1) as (_ & _ & Hc & _).
  assert (Hc3 : forall l', cache (with_logs l' w2) = cache w1) by (intros; exact Hc).
  cbn [bind log modify].
  match goal with |- context [bind _ _ ?x] => set (w3 := x) end.
  assert (E3 : cache w3 = cache w1) by apply Hc3.
  assert (G3 : CacheService.get key w3 =
               (Ok None,
                with_cache (mkCache (isConnected (cache w3)) (redis (cache w3))
                              (tail (redisFaults (cache w3)))) w3)).
  { apply get_absent; rewrite E3.
    - exact C.
    - cbn [cache w1 with_logs with_cache redisFaults].
      destruct (nextFault_quiet _ _ Q) as [_ Q2].
      destruct (nextFault_quiet _ _ Q2) as [_ Q1]. exact Q1.
    - cbn [cache w1 with_logs with_cache redis]. apply lookup_delete_eq. }
  rewrite (bind_Ok _ _ _ _ _ G3). reflexivity.
Qed.

(** C1, at the failing input.  The cache holds, under the key of the call, an
    entry written at instant 0 with a [ttl] of 30 s; at instant 40 s the
    upstream is unreachable.  The stale payload is not returned: the call
    throws, and the entry is gone from the cache. *)
Theorem getCurrentPrices_stale_fallback_throws :
  let key := CoinGeckoService.cacheKey ["bitcoin"] in
  let entry := mkCacheData [Scenario.btc 61000 1.5] 0 30000 in
  let w := Scenario.world 40000 {[ key := entry ]} (Scenario.always NetworkError) [] [] in
  redis (cache w) !! key = Some entry /\
  ttl entry < now w - timestamp entry /\
  fst (CacheService.get key w) = Ok None /\
  redis (cache (snd (CacheService.get key w))) !! key = None /\
  fst (CoinGeckoService.getCurrentPrices 1 (Some ["bitcoin"]) w) =
    Throw (JsError "Failed to fetch cryptocurrency prices") /\
  redis (cache (snd (CoinGeckoService.getCurrentPrices 1 (Some ["bitcoin"]) w))) !! key = None.
Proof.
  intros key entry w.
  assert (L : redis (cache w) !! key = Some entry) by (vm_compute; reflexivity).
  assert (F : ttl entry < now w - timestamp entry) by (vm_compute; reflexivity).
  split; [exact L|]. split; [exact F|].
  split; [exact (get_never_stale key w entry L F)|].
  split; [vm_compute; reflexivity|].
  split; [|vm_compute; reflexivity].
  apply (getCurrentPrices_stale_entry_lost 0 (Some ["bitcoin"]) w entry (AxiosError None));
    try reflexivity; try assumption.
  apply quiet_nil.
Qed.

(** ** Broadcast before alert evaluation (C9) *)

Lemma forEach_emit (f : CryptoPriceData -> SocketEvent) (l : list CryptoPriceData) :
  forall w w', forEach l (fun d => SocketService.emit (f d)) w = (Ok tt, w') ->
    emitted (socket w') = (emitted (socket w) ++ List.map f l)%list /\
    io (socket w') = io (socket w).
Proof.
  induction l as [|d l IH]; intros w w' H; cbn [forEach] in H.
  - injection H as <-. rewrite app_nil_r. split; reflexivity.
  - unfold bind in H. unfold SocketService.emit at 1 in H.
    destruct (nextFault _) as [[] rest]; [discriminate|].
    apply IH in H as [H1 H2]. cbn in H1, H2.
    rewrite H1, H2, <- app_assoc. split; reflexivity.
Qed.

Lemma broadcastPriceUpdate_events (prices : list CryptoPriceData) (w w' : World) :
  SocketService.broadcastPriceUpdate prices w = (Ok tt, w') ->
  emitted (socket w') =
    (emitted (socket w) ++ (if io (socket w) then broadcastEvents prices else []))%list.
Proof.
  unfold SocketService.broadcastPriceUpdate, gets. cbn [bind].
  destruct (io (socket w)) eqn:Hio; cbn [negb].
  - unfold bind at 1. unfold SocketService.emit at 1.
    destruct (nextFault _) as [[] rest]; [discriminate|].
    unfold bind at 1.
    match goal with |- context [forEach prices ?body ?x] =>
      destruct (forEach prices body x) as [[[]|e|] w2] eqn:Hf end; try discriminate.
    apply forEach_emit in Hf as [Hf _]. cbn in Hf.
    intros [= <-]. cbn [socket emitted with_logs]. rewrite Hf, <- app_assoc. reflexivity.
  - intros [= <-]. rewrite app_nil_r. reflexivity.
Qed.

Lemma Inv_checkAlerts_events (priceData : list CryptoPriceData) :
  Inv (Step is_alert_event (fun _ => True)) (AlertService.checkAlerts priceData).
Proof.
  unfold AlertService.checkAlerts.
  pose proof (fun a => Inv_checkAlert is_alert_event (fun _ => True) priceData a
                         (fun _ _ _ => I) (fun _ _ _ => I)) as T.
  inv_auto.
Qed.

(** C9.  In a tick whose fetch returned [prices], the broadcast comes before
    the alert check: the events of [broadcastPriceUpdate] are those of the
    snapshot set alone, and whatever the alert check then does, or fails to
    do, they stay in the emitted sequence, followed only by alert events. *)
Theorem priceTick_broadcast_before_alerts (fuel : nat) (w w1 w2 : World)
    (prices : list CryptoPriceData) :
  CoinGeckoService.getCurrentPrices fuel None w = (Ok prices, w1) ->
  SocketService.broadcastPriceUpdate prices w1 = (Ok tt, w2) ->
  emitted (socket w2) =
    (emitted (socket w1) ++ (if io (socket w1) then broadcastEvents prices else []))%list /\
  exists evs,
    emitted (socket (snd (App.priceTick fuel w))) = (emitted (socket w2) ++ evs)%list /\
    Forall is_alert_event evs.
Proof.
  intros Hfetch Hcast. split; [apply broadcastPriceUpdate_events, Hcast|].
  unfold App.priceTick, App.priceTickBody.
  rewrite (tryCatch_bind_Ok _ _ _ _ _ _ Hfetch), (tryCatch_bind_Ok _ _ _ _ _ _ Hcast).
  match goal with |- context [tryCatch ?m ?h w2] =>
    assert (T : Inv (Step is_alert_event (fun _ => True)) (tryCatch m h)) end.
  { pose proof (Inv_checkAlerts_events prices) as C. unfold Date_now. inv_auto. }
  destruct (T w2) as [_ (evs & mails & He & _ & HE & _)].
  exists evs. split; assumption.
Qed.

Lemma priceTick_broadcast_before_alerts_witness :
  let w := Scenario.world 100000 ∅
             (Scenario.always (Response 200 None [Scenario.btc 61000 1.5]))
             [Scenario.rule_btc_above] [true] in
  exists evs,
    emitted (socket (snd (App.priceTick 1 w))) =
      (broadcastEvents [Scenario.btc 61000 1.5] ++ evs)%list /\
    Forall is_alert_event evs.
Proof.
  intros w.
  set (w1 := snd (CoinGeckoService.getCurrentPrices 1 None w)).
  set (w2 := snd (SocketService.broadcastPriceUpdate [Scenario.btc 61000 1.5] w1)).
  assert (H1 : CoinGeckoService.getCurrentPrices 1 None w = (Ok [Scenario.btc 61000 1.5], w1)).
  { transitivity (fst (CoinGeckoService.getCurrentPrices 1 None w), w1);
      [apply surjective_pairing|]. f_equal; vm_compute; reflexivity. }
  assert (H2 : SocketService.broadcastPriceUpdate [Scenario.btc 61000 1.5] w1 = (Ok tt, w2)).
  { transitivity (fst (SocketService.broadcastPriceUpdate [Scenario.btc 61000 1.5] w1), w2);
      [apply surjective_pairing|]. f_equal; vm_compute; reflexivity. }
  destruct (priceTick_broadcast_before_alerts 1 w w1 w2 _ H1 H2) as [E (evs & He & HE)].
  exists evs. split; [|exact HE]. rewrite He, E.
  replace (emitted (socket w1)) with (@nil SocketEvent) by (vm_compute; reflexivity).
  replace (io (socket w1)) with true by (vm_compute; reflexivity).
  reflexivity.
Defined.

(** When the alert check fails at its first step (MongoDB does not answer),
    the tick has broadcast all the same. *)
Example priceTick_broadcast_without_alert_store :
  let w := with_mongo (mkMongo [Scenario.rule_btc_above] [Scenario.ann] [] [true])
             (Scenario.world 100000 ∅
                (Scenario.always (Response 200 None [Scenario.btc 61000 1.5])) [] []) in
  emitted (socket (snd (App.priceTick 1 w))) = broadcastEvents [Scenario.btc 61000 1.5] /\
  In (error, "Failed to check alerts:") (logs (snd (App.priceTick 1 w))).
Proof. split; vm_compute; [reflexivity|tauto]. Qed.

(** ** The trigger path (C5, C3) *)

Lemma User_findById_run (uid : string) (w : World) :
  quiet 1 (mongoFaults (mongo w)) ->
  exists w',
    User_findById uid w =
      (Ok (List.find (fun u => String.eqb (user_id u) uid) (users (mongo w))), w') /\
    alerts (mongo w') = alerts (mongo w) /\
    mongoFaults (mongo w') = tail (mongoFaults (mongo w)) /\
    socket w' = socket w /\ mailer w' = mailer w /\ now w' = now w.
Proof.
  intros Q. unfold User_findById. rewrite (mongoCall_quiet _ _ Q).
  eexists. split; [reflexivity|]. repeat split.
Qed.

Lemma sendAlert_run (alert : AlertDocument) (cp pc : float) (w : World) :
  quiet 1 (socketFaults (socket w)) ->
  exists w',
    SocketService.sendAlert alert cp pc w = (Ok tt, w') /\
    emitted (socket w') =
      (emitted (socket w) ++
       (if io (socket w) then [alert_triggered alert cp pc (now w)] else []))%list /\
    mongo w' = mongo w /\ mailer w' = mailer w.
Proof.
  intros Q. destruct (nextFault_quiet _ _ Q) as [E _].
  unfold SocketService.sendAlert, Date_now, gets. cbn [bind].
  destruct (io (socket w)); cbn [negb].
  - unfold bind, SocketService.emit. rewrite E. cbn.
    eexists. split; [reflexivity|]. repeat split.
  - eexists. split; [reflexivity|]. rewrite app_nil_r. repeat split.
Qed.

Lemma sendAlertEmail_run (to first : string) (alert : AlertDocument) (cp : float) (w : World) :
  quiet 1 (mailFaults (mailer w)) ->
  exists w',
    EmailService.sendAlertEmail to first alert cp w = (Ok tt, w') /\
    outbox (mailer w') = (outbox (mailer w) ++ [mkMail to first alert cp])%list /\
    mongo w' = mongo w /\ socket w' = socket w.
Proof.
  intros Q. destruct (nextFault_quiet _ _ Q) as [E _].
  unfold EmailService.sendAlertEmail, tryCatch, bind, EmailService.sendMail. rewrite E. cbn.
  eexists. split; [reflexivity|]. repeat split.
Qed.

Lemma sendAlertEmail_fault (to first : string) (alert : AlertDocument) (cp : float)
    (w : World) (rest : list bool) :
  nextFault (mailFaults (mailer w)) = (true, rest) ->
  exists w',
    EmailService.sendAlertEmail to first alert cp w = (Throw (CollaboratorError "smtp"), w') /\
    outbox (mailer w') = outbox (mailer w) /\
    mongo w' = mongo w /\ socket w' = socket w /\
    logs w' = (logs w ++ [(error, "Error sending alert email:")])%list.
Proof.
  intros E.
  unfold EmailService.sendAlertEmail, tryCatch, bind, EmailService.sendMail. rewrite E. cbn.
  eexists. split; [reflexivity|]. repeat split.
Qed.

Lemma updateAlert_run (alertId : string) (w : World) :
  quiet 1 (mongoFaults (mongo w)) ->
  exists r w',
    AlertService.updateAlert alertId deactivation None w = (Ok r, w') /\
    alerts (mongo w') =
      snd (updateFirst (mkQuery (Some alertId) None None) deactivation (alerts (mongo w))) /\
    socket w' = socket w /\ mailer w' = mailer w.
Proof.
  intros Q. unfold AlertService.updateAlert, Alert_findOneAndUpdate, tryCatch.
  erewrite bind_Ok; [|apply mongoCall_quiet, Q].
  cbn [alerts users priceHistory mongoFaults].
  destruct (updateFirst _ deactivation (alerts (mongo w))) as [[d|] l]; cbn;
    do 2 eexists; (split; [reflexivity|]); repeat split.
Qed.

Lemma updateFirst_by_id_inactive (x : string) (l : list AlertDocument) :
  NoDup (List.map _id l) ->
  forall d, In d (snd (updateFirst (mkQuery (Some x) None None) deactivation l)) ->
    _id d = x -> isActive d = false.
Proof.
  induction l as [|a l IH]; cbn [updateFirst List.map]; intros N d Hd Hx; [destruct Hd|].
  inversion N as [|? ? Hnotin N']; subst.
  unfold matches at 1 in Hd. cbn [q_id q_userId q_isActive] in Hd.
  rewrite !andb_true_r in Hd.
  destruct (String.eqb_spec (_id a) (_id d)) as [E|E].
  - cbn [snd] in Hd. destruct Hd as [<-|Hd]; [reflexivity|].
    exfalso. apply Hnotin. rewrite E. apply list_elem_of_In, in_map. exact Hd.
  - destruct (updateFirst _ deactivation l) as [found l'] eqn:U. cbn [snd] in Hd, IH.
    destruct Hd as [<-|Hd]; [congruence|]. apply IH; auto.
Qed.

(** The steps of [triggerAlert] up to and including the push notification,
    when the user lookup and the socket server do not fail. *)
Lemma triggerAlert_pushed (alert : AlertDocument) (priceData : CryptoPriceData) (w : World)
    (rest : option UserDocument -> M unit) (h : Exn -> M unit) :
  quiet 1 (mongoFaults (mongo w)) ->
  quiet 1 (socketFaults (socket w)) ->
  exists w2,
    tryCatch
      (log info "Alert triggered" >>
       user <- User_findById (userId alert) ;;
       SocketService.sendAlert alert (current_price priceData)
         (price_change_percentage_24h priceData) >>
       rest user) h w =
    tryCatch (rest (List.find (fun u => String.eqb (user_id u) (userId alert)) (users (mongo w))))
      h w2 /\
    emitted (socket w2) =
      (emitted (socket w) ++
       (if io (socket w)
        then [alert_triggered alert (current_price priceData)
                (price_change_percentage_24h priceData) (now w)]
        else []))%list /\
    alerts (mongo w2) = alerts (mongo w) /\
    mongoFaults (mongo w2) = tail (mongoFaults (mongo w)) /\
    mailer w2 = mailer w.
Proof.
  intros Qm Qs.
  set (w0 := with_logs (logs w ++ [(info, "Alert triggered")]) w).
  destruct (User_findById_run (userId alert) w0 Qm) as (w1 & R1 & A1 & F1 & S1 & M1 & T1).
  assert (Qs1 : quiet 1 (socketFaults (socket w1))) by (rewrite S1; exact Qs).
  destruct (sendAlert_run alert (current_price priceData)
              (price_change_percentage_24h priceData) w1 Qs1) as (w2 & R2 & E2 & G2 & M2).
  exists w2. split; [|repeat split].
  - erewrite (tryCatch_bind_Ok (log info "Alert triggered")); [|reflexivity].
    fold w0. rewrite (tryCatch_bind_Ok _ _ _ _ _ _ R1), (tryCatch_bind_Ok _ _ _ _ _ _ R2).
    reflexivity.
  - rewrite E2, S1, T1. reflexivity.
  - rewrite G2. exact A1.
  - rewrite G2. exact F1.
  - rewrite M2. exact M1.
Qed.

(** What the trigger path does with failures.  It runs its three side
    effects in sequence inside one [try] block: push notification, e-mail
    dispatch, deactivation.  (1) A failure of any step is caught there: the
    call always returns.  (2) When the user lookup and the socket server do
    not fail, the push notification is emitted, and no later failure, of the
    e-mail dispatch or of the deactivation, removes it.  (3) When the e-mail
    dispatch raises, the [try] block is left before the deactivation: the
    Alert collection stays as it was. *)
Lemma triggerAlert_one_failure_boundary (alert : AlertDocument) (priceData : CryptoPriceData)
    (w : World) :
  fst (AlertService.triggerAlert alert priceData w) = Ok tt /\
  (quiet 1 (mongoFaults (mongo w)) -> quiet 1 (socketFaults (socket w)) ->
   emitted (socket (snd (AlertService.triggerAlert alert priceData w))) =
     (emitted (socket w) ++
      (if io (socket w)
       then [alert_triggered alert (current_price priceData)
               (price_change_percentage_24h priceData) (now w)]
       else []))%list) /\
  (forall u rest,
     quiet 1 (mongoFaults (mongo w)) -> quiet 1 (socketFaults (socket w)) ->
     List.find (fun u => String.eqb (user_id u) (userId alert)) (users (mongo w)) = Some u ->
     emailNotifications u = true ->
     nextFault (mailFaults (mailer w)) = (true, rest) ->
     alerts (mongo (snd (AlertService.triggerAlert alert priceData w))) = alerts (mongo w) /\
     In (error, "Error sending alert email:")
       (logs (snd (AlertService.triggerAlert alert priceData w)))).
Proof.
  split; [|split].
  - apply returns; [apply Settles_triggerAlert|apply NoThrow_triggerAlert].
  - intros Qm Qs. unfold AlertService.triggerAlert.
    match goal with |- context [tryCatch _ ?h w] =>
      destruct (triggerAlert_pushed alert priceData w
                  (fun user =>
                     (match user with
                      | Some u =>
                          if emailNotifications u then
                            EmailService.sendAlertEmail (email u) (firstName u) alert
                              (current_price priceData)
                          else ret tt
                      | None => ret tt
                      end) >>
                     _u <- AlertService.updateAlert (_id alert)
                             (mkUpdate None None None None (Some false)) None ;;
                     ret tt) h Qm Qs) as (w2 & R & E & _)
    end.
    rewrite R, <- E.
    match goal with |- context [tryCatch ?m ?h w2] =>
      assert (T : Inv (Step (fun _ => False) (fun _ => True)) (tryCatch m h)) end.
    { change (mkUpdate None None None None (Some false)) with deactivation. inv_auto. }
    destruct (T w2) as [_ (evs & mails & He & _ & HE & _)].
    destruct evs as [|ev evs]; [|inversion HE; contradiction].
    rewrite He, app_nil_r. reflexivity.
  - intros u rest Qm Qs Hu Hn Hf. unfold AlertService.triggerAlert.
    match goal with |- context [tryCatch _ ?h w] =>
      destruct (triggerAlert_pushed alert priceData w
                  (fun user =>
                     (match user with
                      | Some u =>
                          if emailNotifications u then
                            EmailService.sendAlertEmail (email u) (firstName u) alert
                              (current_price priceData)
                          else ret tt
                      | None => ret tt
                      end) >>
                     _u <- AlertService.updateAlert (_id alert)
                             (mkUpdate None None None None (Some false)) None ;;
                     ret tt) h Qm Qs) as (w2 & R & _ & A & _ & Ml)
    end.
    rewrite R, Hu, Hn.
    rewrite <- Ml in Hf.
    destruct (sendAlertEmail_fault (email u) (firstName u) alert (current_price priceData)
                w2 rest Hf) as (w3 & R3 & _ & G3 & _ & L3).
    erewrite tryCatch_Throw; [|erewrite bind_Throw; [reflexivity|exact R3]].
    cbn [log modify snd mongo logs with_logs]. rewrite G3, L3. split; [exact A|].
    apply in_or_app. left. apply in_or_app. right. left. reflexivity.
Qed.

Example triggerAlert_one_failure_boundary_at_smtp_failure :
  let w := Scenario.world 100000 ∅ (Scenario.always NetworkError)
             [Scenario.rule_btc_above] [true] in
  let w' := snd (AlertService.triggerAlert Scenario.rule_btc_above (Scenario.btc 61000 1.5) w) in
  alerts (mongo w') = [Scenario.rule_btc_above] /\
  In (error, "Error sending alert email:") (logs w').
Proof.
  intros w w'.
  apply (proj2 (proj2 (triggerAlert_one_failure_boundary Scenario.rule_btc_above
                         (Scenario.btc 61000 1.5) w)) Scenario.ann []).
  - apply quiet_nil.
  - apply quiet_nil.
  - reflexivity.
  - reflexivity.
  - reflexivity.
Defined.

(** C5, at the failing input.  The owner of the rule has e-mail
    notifications and the SMTP transport fails.  The push notification has
    been sent, the e-mail dispatch raises and is logged, and the
    deactivation, which the specification isolates from that failure, has
    not happened: the rule is still active in the store. *)
Theorem triggerAlert_email_failure_skips_deactivation :
  let w := Scenario.world 100000 ∅ (Scenario.always NetworkError)
             [Scenario.rule_btc_above] [true] in
  let w' := snd (AlertService.triggerAlert Scenario.rule_btc_above (Scenario.btc 61000 1.5) w) in
  firings (emitted (socket w')) = ["a1"] /\
  In (error, "Error sending alert email:") (logs w') /\
  outbox (mailer w') = [] /\
  List.map (fun d => (_id d, isActive d)) (alerts (mongo w')) = [("a1", true)].
Proof. repeat split; vm_compute; tauto. Qed.

(** ** One-shot firing (C3) *)

Lemma Alert_find_inv (q : AlertQuery) (w w1 : World) (l : list AlertDocument) :
  Alert_find q w = (Ok l, w1) ->
  l = List.filter (matches q) (alerts (mongo w)) /\ alerts (mongo w1) = alerts (mongo w).
Proof.
  unfold Alert_find, mongoCall. destruct (nextFault _) as [[] rest]; [discriminate|].
  cbn. intros [= <- <-]. split; reflexivity.
Qed.

Lemma matches_active (d : AlertDocument) :
  matches (mkQuery None None (Some true)) d = true -> isActive d = true.
Proof. unfold matches. cbn. destruct (isActive d); [reflexivity|discriminate]. Qed.

Lemma Inv_checkAlerts_Track (x : string) (priceData : list CryptoPriceData) :
  Inv (Track x) (AlertService.checkAlerts priceData).
Proof.
  intros w. unfold AlertService.checkAlerts.
  apply rel_tryCatch; try typeclasses eauto.
  - apply rel_bind; try typeclasses eauto.
    + apply Step_Track, Same_Step, Inv_Alert_find.
    + intros l w1 Hfind. apply Alert_find_inv in Hfind as [-> Ha]. split.
      * assert (T : Inv (Step (fun _ => True) (fun _ => True))
                      (forEach (List.filter (matches (mkQuery None None (Some true)))
                                  (alerts (mongo w))) (AlertService.checkAlert priceData))).
        { apply Inv_forEach; try typeclasses eauto. intros a _.
          apply Inv_checkAlert; intros; exact I. }
        apply (T w1).
      * intros Hin.
        assert (T : Inv (Step (not_firing_of x) (not_mail_of x))
                      (forEach (List.filter (matches (mkQuery None None (Some true)))
                                  (alerts (mongo w))) (AlertService.checkAlert priceData))).
        { apply Inv_forEach; try typeclasses eauto. intros a Ha'.
          apply filter_In in Ha' as [Hmem Hact]. apply matches_active in Hact.
          assert (Hne : _id a <> x).
          { intros E. rewrite <- Ha in Hmem. rewrite (Hin a Hmem E) in Hact. discriminate. }
          apply Inv_checkAlert; intros; exact Hne. }
        apply (T w1).
  - intros e w1 _. apply Step_Track, Same_Step, KeepsStores_Same, OnlyCache_KeepsStores, Inv_log.
Qed.

Lemma Inv_priceTick_Track (x : string) (fuel : nat) : Inv (Track x) (App.priceTick fuel).
Proof.
  unfold App.priceTick, App.priceTickBody, Date_now.
  pose proof (Inv_checkAlerts_Track x) as C.
  inv_auto.
Qed.

Lemma cronDriver_Track (x : string) (ticks fuel : nat) (w : World) :
  Track x w (snd (App.cronDriver ticks fuel w)).
Proof.
  revert w. induction ticks as [|n IH]; intros w; cbn [App.cronDriver]; [reflexivity|].
  pose proof (Inv_priceTick_Track x fuel w) as T.
  destruct (App.priceTick fuel w) as [r w1]. cbn [snd] in T.
  assert (K : forall t, Track x w1 (with_now t w1)).
  { intros t. apply Step_Track, Same_Step. repeat split. }
  destruct r as [[]|e|]; [|exact T|].
  all: match goal with |- context [App.cronDriver ?k ?f ?w'] =>
         specialize (IH w'); destruct (App.cronDriver k f w') as [rs w2] end.
  all: cbn [snd] in *; etransitivity; [exact T|]; etransitivity; [apply K|exact IH].
Qed.

(** What holds of one-shot firing.  (1) When no step of the trigger path
    fails (user lookup, push, e-mail dispatch, store update), the rule that
    fired is inactive in the store when [triggerAlert] returns.  (2) The
    alert check reads the rules with [isActive = true] only.  (3) A rule that
    is inactive stays inactive and does not fire, by push or by e-mail, in
    any later tick, however many ticks run and whatever fails in them. *)
Lemma one_shot_when_trigger_path_completes :
  (forall (alert : AlertDocument) (priceData : CryptoPriceData) (w : World),
     NoDup (List.map _id (alerts (mongo w))) ->
     quiet 2 (mongoFaults (mongo w)) ->
     quiet 1 (socketFaults (socket w)) ->
     quiet 1 (mailFaults (mailer w)) ->
     inactive (_id alert) (snd (AlertService.triggerAlert alert priceData w))) /\
  (forall (w w1 : World) (l : list AlertDocument),
     Alert_find (mkQuery None None (Some true)) w = (Ok l, w1) ->
     forall d, In d l -> isActive d = true) /\
  (forall (ticks fuel : nat) (w : World) (x : string),
     inactive x w ->
     inactive x (snd (App.cronDriver ticks fuel w)) /\
     exists evs mails,
       emitted (socket (snd (App.cronDriver ticks fuel w))) = (emitted (socket w) ++ evs)%list /\
       outbox (mailer (snd (App.cronDriver ticks fuel w))) = (outbox (mailer w) ++ mails)%list /\
       Forall (not_firing_of x) evs /\ Forall (not_mail_of x) mails).
Proof.
  split; [|split].
  - intros alert priceData w N Qm Qs Ql. unfold AlertService.triggerAlert.
    match goal with |- context [tryCatch _ ?h w] =>
      destruct (triggerAlert_pushed alert priceData w
                  (fun user =>
                     (match user with
                      | Some u =>
                          if emailNotifications u then
                            EmailService.sendAlertEmail (email u) (firstName u) alert
                              (current_price priceData)
                          else ret tt
                      | None => ret tt
                      end) >>
                     _u <- AlertService.updateAlert (_id alert)
                             (mkUpdate None None None None (Some false)) None ;;
                     ret tt) h (quiet_le 1 2 _ ltac:(lia) Qm) Qs) as (w2 & R & _ & A & Fm & Ml)
    end.
    rewrite R. clear R.
    destruct (nextFault_quiet _ _ Qm) as [_ Qm1]. rewrite <- Fm in Qm1.
    assert (U : forall w3, mongo w3 = mongo w2 ->
                inactive (_id alert)
                  (snd (tryCatch
                          (_u <- AlertService.updateAlert (_id alert) deactivation None ;; ret tt)
                          (fun _ => log error "Failed to trigger alert:") w3))).
    { intros w3 E3. rewrite <- E3 in Qm1.
      destruct (updateAlert_run (_id alert) w3 Qm1) as (r & w4 & R4 & A4 & _).
      erewrite tryCatch_Ok; [|erewrite bind_Ok; [reflexivity|exact R4]].
      cbn [snd]. intros d Hd Hx. rewrite A4, E3, A in Hd.
      eapply updateFirst_by_id_inactive; eassumption. }
    change (mkUpdate None None None None (Some false)) with deactivation.
    destruct (List.find _ (users (mongo w))) as [u|].
    + destruct (emailNotifications u).
      * rewrite <- Ml in Ql.
        destruct (sendAlertEmail_run (email u) (firstName u) alert (current_price priceData)
                    w2 Ql) as (w3 & R3 & _ & G3 & _).
        rewrite (tryCatch_bind_Ok _ _ _ _ _ _ R3). apply U, G3.
      * erewrite (tryCatch_bind_Ok (ret tt)); [|reflexivity]. apply U. reflexivity.
    + erewrite (tryCatch_bind_Ok (ret tt)); [|reflexivity]. apply U. reflexivity.
  - intros w w1 l Hfind d Hd. apply Alert_find_inv in Hfind as [-> _].
    apply filter_In in Hd as [_ Hd]. apply matches_active, Hd.
  - intros ticks fuel w x Hin.
    destruct (cronDriver_Track x ticks fuel w) as [Hm Hf].
    split; [eapply Mono_inactive; eassumption|]. apply Hf, Hin.
Qed.

Example one_shot_after_a_complete_trigger :
  let w := Scenario.world 100000 ∅
             (Scenario.always (Response 200 None [Scenario.btc 61000 1.5]))
             [Scenario.rule_btc_above] [] in
  let w' := snd (AlertService.triggerAlert Scenario.rule_btc_above (Scenario.btc 61000 1.5) w) in
  firings (emitted (socket w')) = ["a1"] /\
  inactive "a1" w' /\
  inactive "a1" (snd (App.cronDriver 3 1 w')) /\
  exists evs mails,
    emitted (socket (snd (App.cronDriver 3 1 w'))) = (emitted (socket w') ++ evs)%list /\
    outbox (mailer (snd (App.cronDriver 3 1 w'))) = (outbox (mailer w') ++ mails)%list /\
    Forall (not_firing_of "a1") evs /\ Forall (not_mail_of "a1") mails.
Proof.
  intros w w'.
  assert (H : inactive "a1" w').
  { apply (proj1 one_shot_when_trigger_path_completes Scenario.rule_btc_above
             (Scenario.btc 61000 1.5) w).
    - cbn. repeat constructor. apply not_elem_of_nil.
    - apply quiet_nil.
    - apply quiet_nil.
    - apply quiet_nil. }
  split; [vm_compute; reflexivity|]. split; [exact H|].
  exact (proj2 (proj2 one_shot_when_trigger_path_completes) 3%nat 1%nat w' "a1" H).
Defined.

(** C3, at the failing input.  The owner of the rule has e-mail
    notifications and the SMTP transport is down.  The rule fires on the
    first tick, its active flag is not set to false by the trigger path, and
    on the next tick, ten seconds later, the same rule fires again. *)
Theorem one_shot_lost_when_email_fails :
  let w := Scenario.world 100000 ∅
             (Scenario.always (Response 200 None [Scenario.btc 61000 1.5]))
             [Scenario.rule_btc_above] [true; true] in
  firings (emitted (socket (snd (App.priceTick 1 w)))) = ["a1"] /\
  List.map (fun d => (_id d, isActive d)) (alerts (mongo (snd (App.priceTick 1 w)))) =
    [("a1", true)] /\
  firings (emitted (socket (snd (App.cronDriver 2 1 w)))) = ["a1"; "a1"].
Proof. repeat split; vm_compute; reflexivity. Qed.

(** * Further properties *)

(** ** The cache layer *)

Lemma set_run (key : string) (v : list CryptoPriceData) (ttlSeconds : option Z) (w : World) :
  isConnected (cache w) = true ->
  quiet 1 (redisFaults (cache w)) ->
  CacheService.set key v ttlSeconds w =
    (Ok tt,
     with_logs (logs w ++ [(debug, "Cache set: " ++ key)])
       (with_cache
          (mkCache (isConnected (cache w))
             (<[key := mkCacheData v (now w) (ttlMs ttlSeconds)]> (redis (cache w)))
             (tail (redisFaults (cache w)))) w)).
Proof.
  intros C Q. unfold CacheService.set. apply tryCatch_Ok.
  unfold Date_now, gets. cbn [bind]. rewrite C. cbn [negb bind].
  unfold ttlMs, client_setEx, client_set.
  destruct (CacheService.truthy ttlSeconds);
    (erewrite bind_Ok; [|apply redisCall_quiet, Q]); rewrite C; reflexivity.
Qed.

Lemma set_then_get_answer (key : string) (v : list CryptoPriceData) (ttlSeconds : option Z)
    (d : Z) (w : World) :
  isConnected (cache w) = true ->
  quiet 2 (redisFaults (cache w)) ->
  fst (CacheService.get key (later d (snd (CacheService.set key v ttlSeconds w)))) =
    Ok (if ttlMs ttlSeconds <? d then None else Some v).
Proof.
  intros C Q. destruct (nextFault_quiet _ _ Q) as [_ Q1].
  rewrite (set_run key v ttlSeconds w C (quiet_le 1 2 _ ltac:(lia) Q)). cbn [snd].
  set (e := mkCacheData v (now w) (ttlMs ttlSeconds)).
  match goal with |- context [CacheService.get key ?x] => set (w1 := x) end.
  assert (L : redis (cache w1) !! key = Some e) by apply lookup_insert_eq.
  assert (T : now w1 - timestamp e = d) by (cbn; lia).
  destruct (Z.ltb_spec (ttlMs ttlSeconds) d) as [H|H].
  - apply (get_never_stale key w1 e L). rewrite T. exact H.
  - rewrite (get_fresh key w1 e); [reflexivity|exact C|exact Q1|exact L|].
    rewrite T. exact H.
Qed.

(** [set] followed, [d] milliseconds later, by [get] of the same key: the
    value written comes back while less than the [ttl] written with it has
    elapsed ([ttlSeconds] * 1000, or the default of one minute when
    [ttlSeconds] is absent or 0), and the key reads as absent once more than
    that has elapsed. *)
Theorem set_then_get (key : string) (v : list CryptoPriceData) (ttlSeconds : option Z)
    (d : Z) (w : World) :
  isConnected (cache w) = true ->
  quiet 2 (redisFaults (cache w)) ->
  ttlMs ttlSeconds = (if CacheService.truthy ttlSeconds then default 0 ttlSeconds * 1000
                      else 60000) /\
  (0 <= d < ttlMs ttlSeconds ->
   fst (CacheService.get key (later d (snd (CacheService.set key v ttlSeconds w)))) =
     Ok (Some v)) /\
  (ttlMs ttlSeconds < d ->
   fst (CacheService.get key (later d (snd (CacheService.set key v ttlSeconds w)))) =
     Ok None).
Proof.
  intros C Q. rewrite (set_then_get_answer key v ttlSeconds d w C Q).
  split; [reflexivity|].
  destruct (Z.ltb_spec (ttlMs ttlSeconds) d); split; intros ?; (reflexivity || lia).
Qed.

Lemma set_then_get_witness :
  let w := Scenario.world 1000 ∅ (Scenario.always NetworkError) [] [] in
  let v := [Scenario.btc 61000 1.5] in
  fst (CacheService.get "k" (later 29999 (snd (CacheService.set "k" v (Some 30) w)))) =
    Ok (Some v) /\
  fst (CacheService.get "k" (later 30001 (snd (CacheService.set "k" v (Some 30) w)))) = Ok None.
Proof.
  intros w v.
  split.
  - apply (set_then_get "k" v (Some 30) 29999 w eq_refl (quiet_nil 2)).
    split; [lia|reflexivity].
  - apply (set_then_get "k" v (Some 30) 30001 w eq_refl (quiet_nil 2)). reflexivity.
Defined.

(** While the service is not connected every operation is a no-op that does
    not reach Redis: writes and deletions change nothing, a read answers
    absent and [exists] answers [false], whatever the store holds. *)
Theorem disconnected_cache_is_inert (key : string) (v : list CryptoPriceData)
    (ttlSeconds : option Z) (w : World) :
  isConnected (cache w) = false ->
  CacheService.set key v ttlSeconds w = (Ok tt, w) /\
  CacheService.delete key w = (Ok tt, w) /\
  CacheService_flush w = (Ok tt, w) /\
  CacheService.get key w = (Ok None, w) /\
  CacheService_exists key w = (Ok false, w).
Proof.
  intros C.
  unfold CacheService.set, CacheService.delete, CacheService_flush, CacheService.get,
    CacheService_exists, tryCatch, bind, gets.
  rewrite C. cbn. repeat split.
Qed.

Lemma disconnected_cache_is_inert_witness :
  let entry := mkCacheData [Scenario.btc 61000 1.5] 1000 30000 in
  let w := with_cache (mkCache false {[ "k" := entry ]} [])
             (Scenario.world 2000 ∅ (Scenario.always NetworkError) [] []) in
  CacheService.get "k" w = (Ok None, w) /\ CacheService.delete "k" w = (Ok tt, w).
Proof.
  intros entry w.
  destruct (disconnected_cache_is_inert "k" [] None w eq_refl) as (_ & D & _ & G & _).
  split; assumption.
Defined.

Lemma get_answer (key : string) (w : World) :
  isConnected (cache w) = true ->
  quiet 1 (redisFaults (cache w)) ->
  fst (CacheService.get key w) = Ok (answer (redis (cache w) !! key) (now w)).
Proof.
  intros C Q. unfold answer. destruct (redis (cache w) !! key) as [e|] eqn:L.
  - destruct (Z.ltb_spec (ttl e) (now w - timestamp e)) as [H|H].
    + apply (get_never_stale key w e L H).
    + rewrite (get_fresh key w e C Q L H). reflexivity.
  - rewrite (get_absent key w C Q L). reflexivity.
Qed.

Lemma exists_run (key : string) (w : World) :
  isConnected (cache w) = true ->
  quiet 1 (redisFaults (cache w)) ->
  CacheService_exists key w =
    (Ok (bool_decide (is_Some (redis (cache w) !! key))),
     with_cache (mkCache (isConnected (cache w)) (redis (cache w))
                   (tail (redisFaults (cache w)))) w).
Proof.
  intros C Q. unfold CacheService_exists. apply tryCatch_Ok.
  unfold gets. cbn [bind]. rewrite C. cbn [negb].
  unfold client_exists. erewrite bind_Ok; [|apply redisCall_quiet, Q].
  cbn [fst snd]. rewrite C. destruct (redis (cache w) !! key); reflexivity.
Qed.

Lemma flush_run (w : World) :
  isConnected (cache w) = true ->
  quiet 1 (redisFaults (cache w)) ->
  CacheService_flush w =
    (Ok tt,
     with_logs (logs w ++ [(info, "Cache flushed")])
       (with_cache (mkCache (isConnected (cache w)) ∅ (tail (redisFaults (cache w)))) w)).
Proof.
  intros C Q. unfold CacheService_flush. apply tryCatch_Ok.
  unfold gets. cbn [bind]. rewrite C. cbn [negb].
  unfold client_flushAll. erewrite bind_Ok; [|apply redisCall_quiet, Q].
  rewrite C. reflexivity.
Qed.

(** [exists] does not look at the age of an entry.  For an entry older than
    its [ttl], [exists] answers [true] while [get] answers absent; the
    [get] evicts the entry, after which [exists] answers [false]. *)
Theorem exists_ignores_expiry (key : string) (w : World) (e : CacheData) :
  isConnected (cache w) = true ->
  quiet 3 (redisFaults (cache w)) ->
  redis (cache w) !! key = Some e ->
  ttl e < now w - timestamp e ->
  fst (CacheService_exists key w) = Ok true /\
  fst (CacheService.get key w) = Ok None /\
  fst (CacheService_exists key (snd (CacheService.get key w))) = Ok false.
Proof.
  intros C Q L F.
  destruct (nextFault_quiet _ _ Q) as [_ Q2]. destruct (nextFault_quiet _ _ Q2) as [_ Q1].
  split; [|split].
  - rewrite (exists_run key w C (quiet_le 1 3 _ ltac:(lia) Q)), L. reflexivity.
  - apply (get_never_stale key w e L F).
  - rewrite (get_stale key w e C (quiet_le 2 3 _ ltac:(lia) Q) L F). cbn [snd].
    rewrite exists_run; [|exact C|exact Q1].
    cbn [fst cache with_logs with_cache redis]. rewrite lookup_delete_eq. reflexivity.
Qed.

Lemma exists_ignores_expiry_witness :
  let entry := mkCacheData [Scenario.btc 61000 1.5] 0 30000 in
  let w := Scenario.world 40000 {[ "k" := entry ]} (Scenario.always NetworkError) [] [] in
  fst (CacheService_exists "k" w) = Ok true /\
  fst (CacheService.get "k" w) = Ok None /\
  fst (CacheService_exists "k" (snd (CacheService.get "k" w))) = Ok false.
Proof.
  intros entry w.
  apply (exists_ignores_expiry "k" w entry).
  - reflexivity.
  - apply quiet_nil.
  - vm_compute. reflexivity.
  - vm_compute. reflexivity.
Defined.

(** [delete] and [flush] against later reads: after [delete key] a read of
    [key] answers absent even if the entry was fresh, and a read of any
    other key answers what it would have answered before; after [flush]
    every read answers absent. *)
Theorem delete_and_flush_then_get (key other : string) (w : World) :
  isConnected (cache w) = true ->
  quiet 2 (redisFaults (cache w)) ->
  other <> key ->
  fst (CacheService.get key (snd (CacheService.delete key w))) = Ok None /\
  fst (CacheService.get other (snd (CacheService.delete key w))) =
    fst (CacheService.get other w) /\
  fst (CacheService.get other (snd (CacheService_flush w))) = Ok None.
Proof.
  intros C Q N.
  destruct (nextFault_quiet _ _ Q) as [_ Q1].
  pose proof (quiet_le 1 2 _ ltac:(lia) Q) as Q0.
  rewrite (delete_quiet key w C Q0), (flush_run w C Q0). cbn [snd].
  rewrite !get_answer; try assumption.
  cbn [cache with_logs with_cache redis now].
  rewrite lookup_delete_eq, lookup_delete_ne, lookup_empty by congruence.
  repeat split.
Qed.

Lemma delete_and_flush_then_get_witness :
  let entry := mkCacheData [Scenario.btc 61000 1.5] 1000 30000 in
  let w := Scenario.world 2000 {[ "a" := entry; "b" := entry ]}
             (Scenario.always NetworkError) [] [] in
  fst (CacheService.get "a" (snd (CacheService.delete "a" w))) = Ok None /\
  fst (CacheService.get "b" (snd (CacheService.delete "a" w))) = fst (CacheService.get "b" w) /\
  fst (CacheService.get "b" (snd (CacheService_flush w))) = Ok None.
Proof.
  intros entry w.
  apply (delete_and_flush_then_get "a" "b" w); [reflexivity|apply quiet_nil|discriminate].
Defined.

Lemma Settles_CacheService_exists (key : string) : Settles (CacheService_exists key).
Proof. unfold CacheService_exists, client_exists. settles_auto. Qed.

Lemma Settles_CacheService_flush : Settles CacheService_flush.
Proof. unfold CacheService_flush, client_flushAll. settles_auto. Qed.

Lemma answers {A} (m : M A) (w : World) :
  Settles m -> NoThrow m -> exists a, fst (m w) = Ok a.
Proof.
  intros S N. specialize (S w). specialize (N w).
  destruct (fst (m w)) as [a|e|]; [eauto|destruct (N e); reflexivity|congruence].
Qed.

(** The guarded operations are fail-soft.  Whatever Redis does, [set],
    [delete] and [flush] return normally and [get] and [exists] answer.
    When the Redis client fails on the call, the failure is logged, [get]
    answers absent, [exists] answers [false], and [set] leaves the store as
    it was. *)
Theorem cache_absorbs_redis_failures (key : string) (v : list CryptoPriceData)
    (ttlSeconds : option Z) (w : World) :
  fst (CacheService.set key v ttlSeconds w) = Ok tt /\
  fst (CacheService.delete key w) = Ok tt /\
  fst (CacheService_flush w) = Ok tt /\
  (exists o, fst (CacheService.get key w) = Ok o) /\
  (exists b, fst (CacheService_exists key w) = Ok b) /\
  (forall rest,
     isConnected (cache w) = true ->
     nextFault (redisFaults (cache w)) = (true, rest) ->
     fst (CacheService.get key w) = Ok None /\
     fst (CacheService_exists key w) = Ok false /\
     redis (cache (snd (CacheService.set key v ttlSeconds w))) = redis (cache w) /\
     In (error, "Cache set error:") (logs (snd (CacheService.set key v ttlSeconds w)))).
Proof.
  split; [|split; [|split; [|split; [|split]]]].
  - apply returns; [apply Settles_CacheService_set|apply NoThrow_CacheService_set].
  - apply returns; [apply Settles_CacheService_delete|apply NoThrow_CacheService_delete].
  - apply returns; [apply Settles_CacheService_flush|].
    apply NoThrow_tryCatch. intros _. apply NoThrow_log.
  - apply CacheService_get_answers.
  - apply answers; [apply Settles_CacheService_exists|].
    apply NoThrow_tryCatch. intros _. apply NoThrow_bind; [apply NoThrow_log|].
    intros _. apply NoThrow_ret.
  - intros rest C E.
    unfold CacheService.get, CacheService_exists, CacheService.set, tryCatch, bind,
      Date_now, gets, client_get, client_exists, client_set, client_setEx, redisCall.
    rewrite C. cbn [negb]. cbv beta iota zeta.
    destruct (CacheService.truthy ttlSeconds); rewrite !E; cbn;
      (repeat split; try reflexivity); apply in_or_app; right; left; reflexivity.
Qed.

Lemma cache_absorbs_redis_failures_witness :
  let entry := mkCacheData [Scenario.btc 61000 1.5] 1000 30000 in
  let w := with_cache (mkCache true {[ "k" := entry ]} [true])
             (Scenario.world 2000 ∅ (Scenario.always NetworkError) [] []) in
  fst (CacheService.get "k" w) = Ok None /\
  fst (CacheService_exists "k" w) = Ok false /\
  redis (cache (snd (CacheService.set "k" [] (Some 30) w))) = redis (cache w) /\
  In (error, "Cache set error:") (logs (snd (CacheService.set "k" [] (Some 30) w))).
Proof.
  intros entry w.
  apply (proj2 (proj2 (proj2 (proj2 (proj2
           (cache_absorbs_redis_failures "k" [] (Some 30) w))))) []); reflexivity.
Defined.

Lemma fold_insert_notin (l : list (string * CacheData)) :
  forall (m : gmap string CacheData) (k : string),
    ~ In k (List.map fst l) ->
    List.fold_left (fun store kv => <[fst kv := snd kv]> store) l m !! k = m !! k.
Proof.
  induction l as [|[k' e'] l IH]; intros m k H; cbn [List.fold_left]; [reflexivity|].
  cbn [List.map fst In] in H. rewrite IH by tauto.
  cbn [fst snd]. apply lookup_insert_ne. tauto.
Qed.

Lemma fold_insert_in (l : list (string * CacheData)) :
  forall (m : gmap string CacheData) (k : string) (e : CacheData),
    List.NoDup (List.map fst l) -> In (k, e) l ->
    List.fold_left (fun store kv => <[fst kv := snd kv]> store) l m !! k = Some e.
Proof.
  induction l as [|[k' e'] l IH]; intros m k e N H; [destruct H|].
  cbn [List.fold_left fst snd]. cbn [List.map fst] in N.
  inversion N as [|? ? Hnotin N']; subst.
  destruct H as [[= -> ->]|H].
  - rewrite fold_insert_notin by exact Hnotin. apply lookup_insert_eq.
  - apply IH; assumption.
Qed.

(** [setMultiple] is not guarded like [set].  A failure of Redis is thrown
    to the caller; and the entries are written without regard to
    [isConnected].  What it writes reads back like a [set] of each entry: for
    distinct keys, [get] of a key answers the value given for it while less
    than the [ttl] has elapsed. *)
Theorem setMultiple_unguarded_round_trip (data : list (string * list CryptoPriceData))
    (ttlSeconds : option Z) (w : World) :
  (forall rest,
     nextFault (redisFaults (cache w)) = (true, rest) ->
     fst (CacheService_setMultiple data ttlSeconds w) = Throw (CollaboratorError "redis")) /\
  (forall k v d,
     quiet 2 (redisFaults (cache w)) ->
     List.NoDup (List.map fst data) ->
     In (k, v) data ->
     redis (cache (snd (CacheService_setMultiple data ttlSeconds w))) !! k =
       Some (mkCacheData v (now w) (ttlMs ttlSeconds)) /\
     (isConnected (cache w) = true -> 0 <= d < ttlMs ttlSeconds ->
      fst (CacheService.get k (later d (snd (CacheService_setMultiple data ttlSeconds w)))) =
        Ok (Some v))).
Proof.
  split.
  - intros rest E.
    unfold CacheService_setMultiple, Date_now, gets, bind, client_multi_exec, redisCall.
    rewrite E. reflexivity.
  - intros k v d Q N H.
    destruct (nextFault_quiet _ _ Q) as [_ Q1].
    unfold CacheService_setMultiple, Date_now, gets. cbn [bind].
    unfold client_multi_exec.
    erewrite bind_Ok; [|apply redisCall_quiet; eapply quiet_le; [|exact Q]; lia].
    cbn [fst snd log modify].
    set (e := mkCacheData v (now w) (ttlMs ttlSeconds)).
    match goal with |- context [List.fold_left ?f ?l ?m] =>
      assert (L : List.fold_left f l m !! k = Some e) end.
    { apply fold_insert_in.
      - rewrite List.map_map. cbn [fst]. exact N.
      - apply (in_map (fun kv => (fst kv, mkCacheData (snd kv) (now w) (ttlMs ttlSeconds)))
                 data (k, v) H). }
    split; [exact L|]. intros C Hd.
    match goal with |- context [CacheService.get k ?x] => set (w1 := x) end.
    assert (L1 : redis (cache w1) !! k = Some e) by exact L.
    assert (T : now w1 - timestamp e = d) by (cbn; lia).
    rewrite (get_fresh k w1 e); [reflexivity|exact C|exact Q1|exact L1|].
    rewrite T. cbn [ttl e]. lia.
Qed.

Lemma setMultiple_unguarded_round_trip_witness :
  let w := with_cache (mkCache false ∅ [])
             (Scenario.world 1000 ∅ (Scenario.always NetworkError) [] []) in
  let data := [("a", [Scenario.btc 1 0]); ("b", [Scenario.btc 2 0])] in
  redis (cache (snd (CacheService_setMultiple data (Some 30) w))) !! "b" =
    Some (mkCacheData [Scenario.btc 2 0] 1000 30000).
Proof.
  intros w data.
  apply (proj2 (setMultiple_unguarded_round_trip data (Some 30) w) "b" [Scenario.btc 2 0] 0).
  - apply quiet_nil.
  - repeat constructor; cbn; intuition discriminate.
  - right. left. reflexivity.
Defined.

(** ** The HTTP client *)

#[local] Instance KeepsClient_refl : Reflexive KeepsClient.
Proof. intros w. split; reflexivity. Qed.

#[local] Instance KeepsClient_trans : Transitive KeepsClient.
Proof. intros a b c [H1 H2] [K1 K2]. split; congruence. Qed.

#[local] Instance Paced_refl : Reflexive Paced.
Proof. intros w. unfold Paced. split; lia. Qed.

#[local] Instance Paced_trans : Transitive Paced.
Proof.
  intros a b c [H1 H2] [K1 K2]. unfold Paced in *.
  assert (0 <= CoinGeckoService.REQUEST_INTERVAL) by (vm_compute; discriminate).
  split; [lia|nia].
Qed.

Lemma OnlyCache_KeepsClient (w w' : World) : OnlyCache w w' -> KeepsClient w w'.
Proof. intros (_ & H1 & H2 & _). split; assumption. Qed.

Lemma KeepsClient_Paced (w w' : World) : KeepsClient w w' -> Paced w w'.
Proof. intros [H1 H2]. unfold Paced. rewrite H1, H2. split; lia. Qed.

Lemma Inv_OnlyCache_KeepsClient {A} (m : M A) : Inv OnlyCache m -> Inv KeepsClient m.
Proof. apply Inv_weaken, OnlyCache_KeepsClient. Qed.

Lemma Inv_KeepsClient_Paced {A} (m : M A) : Inv KeepsClient m -> Inv Paced m.
Proof. apply Inv_weaken, KeepsClient_Paced. Qed.

Lemma Inv_mongoCall_KeepsClient {A} (op : Mongo -> A * Mongo) : Inv KeepsClient (mongoCall op).
Proof.
  intros w. unfold mongoCall. destruct (nextFault _) as [[] rest]; [split; reflexivity|].
  cbn. destruct (op _). split; reflexivity.
Qed.

Lemma Inv_emit_KeepsClient (ev : SocketEvent) : Inv KeepsClient (SocketService.emit ev).
Proof.
  intros w. unfold SocketService.emit.
  destruct (nextFault _) as [[] rest]; split; reflexivity.
Qed.

Lemma Inv_sendMail_KeepsClient (msg : MailMessage) : Inv KeepsClient (EmailService.sendMail msg).
Proof.
  intros w. unfold EmailService.sendMail.
  destruct (nextFault _) as [[] rest]; split; reflexivity.
Qed.

#[local] Hint Resolve Inv_OnlyCache_KeepsClient Inv_KeepsClient_Paced
  Inv_mongoCall_KeepsClient Inv_emit_KeepsClient Inv_sendMail_KeepsClient : inv.

Lemma Paced_sendOnce (cfg : RequestConfig) (w : World) : Paced w (sendOnce cfg w).
Proof.
  destruct (sendOnce_frame cfg w) as (Hs & _ & _ & _ & Hl & _).
  unfold Paced. rewrite Hs, length_app, Hl. cbn [length].
  unfold sendOnce, CoinGeckoService.dispatch. cbn [snd now with_network].
  unfold paced, CoinGeckoService.requestInterceptor, Date_now, gets, bind.
  destruct (Z.ltb_spec (now w - lastRequestTime (gecko w)) CoinGeckoService.REQUEST_INTERVAL);
    cbn; split; lia.
Qed.

Lemma Inv_request_Paced (fuel : nat) (cfg : RequestConfig) :
  Inv Paced (CoinGeckoService.request fuel cfg).
Proof.
  induction fuel as [|fuel IH]; intros w; [apply Paced_refl|].
  rewrite request_unfold.
  pose proof (Paced_sendOnce cfg w) as P.
  assert (L : forall l, Paced w (with_logs l (sendOnce cfg w))) by (intros l; exact P).
  destruct (upstream (network w) (length (sent (network w)))) as [status ra body|];
    [|apply L].
  destruct (is2xx status); [exact P|].
  destruct (status =? 429); [|apply L].
  etransitivity; [|apply IH].
  etransitivity; [exact P|].
  apply KeepsClient_Paced. split; reflexivity.
Qed.

#[local] Hint Resolve Inv_request_Paced : inv.

Lemma Inv_getCurrentPrices_Paced (fuel : nat) (coinIds : option (list string)) :
  Inv Paced (CoinGeckoService.getCurrentPrices fuel coinIds).
Proof. unfold CoinGeckoService.getCurrentPrices. inv_auto. Qed.

Lemma Inv_priceTick_Paced (fuel : nat) : Inv Paced (App.priceTick fuel).
Proof.
  pose proof (Inv_getCurrentPrices_Paced fuel None) as G.
  unfold App.priceTick, App.priceTickBody, SocketService.broadcastPriceUpdate,
    AlertService.checkAlerts, AlertService.checkAlert, AlertService.triggerAlert,
    SocketService.sendAlert, EmailService.sendAlertEmail, AlertService.updateAlert,
    App.storePriceHistory, Alert_find, User_findById, Alert_findOneAndUpdate,
    PriceHistory_insertMany, Date_now.
  inv_auto.
Qed.


Lemma get_miss_world (key : string) (w : World) :
  isConnected (cache w) = true ->
  quiet 2 (redisFaults (cache w)) ->
  answer (redis (cache w) !! key) (now w) = None ->
  exists w1,
    CacheService.get key w = (Ok None, w1) /\
    isConnected (cache w1) = true /\
    (forall n, quiet (2 + n) (redisFaults (cache w)) -> quiet n (redisFaults (cache w1))) /\
    answer (redis (cache w1) !! key) (now w1) = None /\
    OnlyCache w w1.
Proof.
  intros C Q A. unfold answer in A.
  assert (T : forall n l, quiet (S n) l -> quiet n (tail l)).
  { intros n l H. apply (nextFault_quiet n l H). }
  destruct (redis (cache w) !! key) as [e|] eqn:L.
  - destruct (Z.ltb_spec (ttl e) (now w - timestamp e)) as [H|H]; [|discriminate].
    rewrite (get_stale key w e C Q L H). eexists. split; [reflexivity|].
    split; [exact C|]. split; [|split; [|repeat split]].
    + intros n Hn. cbn. apply T, T. exact Hn.
    + cbn [cache with_logs with_cache redis]. rewrite lookup_delete_eq. reflexivity.
  - rewrite (get_absent key w C (quiet_le 1 2 _ ltac:(lia) Q) L).
    eexists. split; [reflexivity|]. split; [exact C|]. split; [|split; [|repeat split]].
    + intros n Hn. cbn. apply T. eapply quiet_le; [|exact Hn]. lia.
    + cbn [cache with_cache redis]. rewrite L. reflexivity.
Qed.

(** Two calls in a row.  With a connected cache that holds no fresh entry for
    the key and an upstream whose answer is a 2xx, the first call sends one
    request and returns its body; a second call for the same list, less than
    30 s later, returns the same body from the cache and sends nothing. *)
Theorem getCurrentPrices_then_cached (fuel : nat) (coinIds : option (list string))
    (w : World) (status : Z) (ra : option Z) (body : list CryptoPriceData) (d : Z) :
  let key := CoinGeckoService.cacheKey (default config.supportedCoins coinIds) in
  let first := CoinGeckoService.getCurrentPrices (S fuel) coinIds w in
  let second := CoinGeckoService.getCurrentPrices (S fuel) coinIds (later d (snd first)) in
  isConnected (cache w) = true ->
  quiet 4 (redisFaults (cache w)) ->
  answer (redis (cache w) !! key) (now w) = None ->
  upstream (network w) (length (sent (network w))) = Response status ra body ->
  is2xx status = true ->
  0 <= d < 30000 ->
  fst first = Ok body /\
  length (sent (network (snd first))) = S (length (sent (network w))) /\
  fst second = Ok body /\
  sent (network (snd second)) = sent (network (snd first)).
Proof.
  intros key first second C Q A U S2 Hd. subst first second.
  destruct (get_miss_world key w C (quiet_le 2 4 _ ltac:(lia) Q) A)
    as (w1 & G1 & C1 & Q1 & _ & (N1 & G1' & Net1 & _)).
  specialize (Q1 2%nat Q).
  set (cfg := mkRequest "/coins/markets"
                (CoinGeckoService.join (default config.supportedCoins coinIds))
                (length (default config.supportedCoins coinIds))).
  assert (R : CoinGeckoService.request (S fuel) cfg w1 = (Ok body, sendOnce cfg w1)).
  { rewrite request_unfold, Net1, U, S2. reflexivity. }
  destruct (sendOnce_frame cfg w1) as (Hs & _ & Hc & _).
  set (w2 := sendOnce cfg w1) in *.
  assert (C2 : isConnected (cache w2) = true) by (rewrite Hc; exact C1).
  assert (Q2 : quiet 2 (redisFaults (cache w2))) by (rewrite Hc; exact Q1).
  pose proof (set_run key body (Some 30) w2 C2 (quiet_le 1 2 _ ltac:(lia) Q2)) as Hset.
  set (w3 := with_logs _ _) in Hset.
  assert (E : CoinGeckoService.getCurrentPrices (S fuel) coinIds w =
              (Ok body, with_logs (logs w3 ++ [(info, "Fetched prices for cryptocurrencies")]) w3)).
  { unfold CoinGeckoService.getCurrentPrices. apply tryCatch_Ok.
    fold key. erewrite bind_Ok; [|exact G1]. cbn beta iota. fold cfg.
    erewrite bind_Ok; [|exact R]. erewrite bind_Ok; [|exact Hset]. reflexivity. }
  rewrite E. cbn [fst snd].
  set (w4 := with_logs _ w3).
  split; [reflexivity|]. split.
  { change (network w4) with (network w2). rewrite Hs, Net1, length_app. cbn. lia. }
  set (e := mkCacheData body (now w2) (ttlMs (Some 30))).
  assert (L : redis (cache (later d w4)) !! key = Some e) by apply lookup_insert_eq.
  assert (F : now (later d w4) - timestamp e <= ttl e).
  { change (now (later d w4)) with (now w2 + d). cbn. lia. }
  assert (Q4 : quiet 1 (redisFaults (cache (later d w4)))).
  { change (redisFaults (cache (later d w4))) with (tail (redisFaults (cache w2))).
    apply (nextFault_quiet 1 _ Q2). }
  rewrite (getCurrentPrices_hit (S fuel) coinIds (later d w4) _ body
             (get_fresh key (later d w4) e C2 Q4 L F)).
  split; reflexivity.
Qed.

Lemma getCurrentPrices_then_cached_witness :
  let body := [Scenario.btc 61000 1.5] in
  let w := Scenario.world 100000 ∅ (Scenario.always (Response 200 None body)) [] [] in
  let first := CoinGeckoService.getCurrentPrices 1 None w in
  let second := CoinGeckoService.getCurrentPrices 1 None (later 10000 (snd first)) in
  fst first = Ok body /\
  length (sent (network (snd first))) = 1%nat /\
  fst second = Ok body /\
  sent (network (snd second)) = sent (network (snd first)).
Proof.
  intros body w.
  apply (getCurrentPrices_then_cached 0 None w 200 None body 10000);
    try reflexivity.
  - apply quiet_nil.
  - lia.
Defined.

(** The only exception that leaves [getCurrentPrices] is its own
    [Error('Failed to fetch cryptocurrency prices')]: the rejection of the
    HTTP request is caught and never reaches the caller.  With a connected
    cache that has no fresh entry and an upstream whose answer is neither a
    2xx nor a 429, that error is what the call throws. *)
Theorem getCurrentPrices_throws_one_error (fuel : nat) (coinIds : option (list string))
    (w : World) :
  (forall e, fst (CoinGeckoService.getCurrentPrices fuel coinIds w) = Throw e ->
     e = JsError "Failed to fetch cryptocurrency prices") /\
  (forall ex,
     isConnected (cache w) = true ->
     quiet 3 (redisFaults (cache w)) ->
     answer (redis (cache w) !!
               CoinGeckoService.cacheKey (default config.supportedCoins coinIds)) (now w) = None ->
     is429 (upstream (network w) (length (sent (network w)))) = false ->
     settle (upstream (network w) (length (sent (network w)))) = Throw ex ->
     (0 < fuel)%nat ->
     fst (CoinGeckoService.getCurrentPrices fuel coinIds w) =
       Throw (JsError "Failed to fetch cryptocurrency prices")).
Proof.
  split.
  - intros e. unfold CoinGeckoService.getCurrentPrices, tryCatch.
    match goal with |- context [bind ?m ?k w] => destruct (bind m k w) as [[a|e'|] w1] end;
      cbn [fst]; try discriminate.
    unfold bind, log, modify.
    match goal with |- context [CacheService.get ?k ?x] =>
      destruct (CacheService_get_answers k x) as [o Ho];
      destruct (CacheService.get k x) as [r w2] end.
    cbn [fst] in Ho. subst r. destruct o; cbn; [discriminate|]. intros [= <-]. reflexivity.
  - intros ex C Q A H429 Hex Hfuel. destruct fuel as [|fuel]; [lia|].
    set (key := CoinGeckoService.cacheKey (default config.supportedCoins coinIds)) in *.
    destruct (get_miss_world key w C (quiet_le 2 3 _ ltac:(lia) Q) A)
      as (w1 & G1 & C1 & Q1 & A1 & (N1 & _ & Net1 & _)).
    specialize (Q1 1%nat Q).
    set (cfg := mkRequest "/coins/markets"
                  (CoinGeckoService.join (default config.supportedCoins coinIds))
                  (length (default config.supportedCoins coinIds))).
    rewrite <- Net1 in H429, Hex.
    destruct (request_settles fuel cfg w1 H429) as [l R]. rewrite Hex in R.
    destruct (sendOnce_frame cfg w1) as (_ & _ & Hc & _).
    set (w2 := with_logs (logs (sendOnce cfg w1) ++ l) (sendOnce cfg w1)) in R.
    unfold CoinGeckoService.getCurrentPrices. fold key.
    erewrite tryCatch_Throw;
      [|erewrite bind_Ok; [|exact G1]; cbn beta iota; fold cfg;
        erewrite bind_Throw; [reflexivity|exact R]].
    cbn [bind log modify].
    match goal with |- context [bind _ _ ?x] => set (w3 := x) end.
    assert (E3 : cache w3 = cache w1) by exact Hc.
    assert (A3 : answer (redis (cache w3) !! key) (now w3) = None).
    { rewrite E3. unfold answer in *.
      destruct (redis (cache w1) !! key) as [e|]; [|reflexivity].
      destruct (Z.ltb_spec (ttl e) (now w1 - timestamp e)) as [H|H]; [|discriminate].
      destruct (sendOnce_frame cfg w1) as (_ & _ & _ & _ & _ & Ht).
      change (now w3) with (now (sendOnce cfg w1)).
      destruct (Z.ltb_spec (ttl e) (now (sendOnce cfg w1) - timestamp e)); [reflexivity|lia]. }
    assert (G3 : fst (CacheService.get key w3) = Ok None).
    { rewrite get_answer; [rewrite A3; reflexivity|rewrite E3; exact C1|rewrite E3; exact Q1]. }
    unfold bind. destruct (CacheService.get key w3) as [r w4]. cbn [fst] in G3. subst r.
    reflexivity.
Qed.

Lemma getCurrentPrices_throws_one_error_witness :
  let w := Scenario.world 100000 ∅ (Scenario.always (Response 500 None [])) [] [] in
  fst (CoinGeckoService.getCurrentPrices 1 (Some ["bitcoin"]) w) =
    Throw (JsError "Failed to fetch cryptocurrency prices").
Proof.
  intros w.
  apply (proj2 (getCurrentPrices_throws_one_error 1 (Some ["bitcoin"]) w)
           (AxiosError (Some 500))); try reflexivity.
  - apply quiet_nil.
  - lia.
Defined.

#[local] Instance Counted_refl : Reflexive Counted.
Proof. intros w. unfold Counted. lia. Qed.

#[local] Instance Counted_trans : Transitive Counted.
Proof. intros a b c H K. unfold Counted in *. lia. Qed.

Lemma KeepsClient_Counted (w w' : World) : KeepsClient w w' -> Counted w w'.
Proof. intros [H1 H2]. unfold Counted. rewrite H1, H2. lia. Qed.

Lemma Inv_KeepsClient_Counted {A} (m : M A) : Inv KeepsClient m -> Inv Counted m.
Proof. apply Inv_weaken, KeepsClient_Counted. Qed.

#[local] Hint Resolve Inv_KeepsClient_Counted : inv.

Lemma Counted_sendOnce (cfg : RequestConfig) (w : World) : Counted w (sendOnce cfg w).
Proof.
  destruct (sendOnce_frame cfg w) as (Hs & _ & _ & Hc & _).
  unfold Counted. rewrite Hs, Hc, length_app. cbn [length]. lia.
Qed.

Lemma Inv_request_Counted (fuel : nat) (cfg : RequestConfig) :
  Inv Counted (CoinGeckoService.request fuel cfg).
Proof.
  induction fuel as [|fuel IH]; intros w; [apply Counted_refl|].
  rewrite request_unfold.
  pose proof (Counted_sendOnce cfg w) as P.
  assert (L : forall l, Counted w (with_logs l (sendOnce cfg w))) by (intros l; exact P).
  destruct (upstream (network w) (length (sent (network w)))) as [status ra body|];
    [|apply L].
  destruct (is2xx status); [exact P|].
  destruct (status =? 429); [|apply L].
  etransitivity; [|apply IH].
  etransitivity; [exact P|].
  apply KeepsClient_Counted. split; reflexivity.
Qed.

#[local] Hint Resolve Inv_request_Counted : inv.

Lemma Inv_getCurrentPrices_Counted (fuel : nat) (coinIds : option (list string)) :
  Inv Counted (CoinGeckoService.getCurrentPrices fuel coinIds).
Proof. unfold CoinGeckoService.getCurrentPrices. inv_auto. Qed.

Lemma Inv_priceTick_Counted (fuel : nat) : Inv Counted (App.priceTick fuel).
Proof.
  pose proof (Inv_getCurrentPrices_Counted fuel None) as G.
  unfold App.priceTick, App.priceTickBody, SocketService.broadcastPriceUpdate,
    AlertService.checkAlerts, AlertService.checkAlert, AlertService.triggerAlert,
    SocketService.sendAlert, EmailService.sendAlertEmail, AlertService.updateAlert,
    App.storePriceHistory, Alert_find, User_findById, Alert_findOneAndUpdate,
    PriceHistory_insertMany, Date_now.
  inv_auto.
Qed.

(** What [getUsageStats] reports.  [requestCount] counts the requests that
    reached the upstream, retries included: across a call of [request], of
    [getCurrentPrices], or any number of firings of the price job, it grows
    by exactly the number of requests sent, whatever the upstream answers;
    [getUsageStats] reads it, with the instant of the last request and the
    configured rate limit, and changes nothing. *)
Theorem usage_stats_count_requests :
  (forall fuel cfg w, Counted w (snd (CoinGeckoService.request fuel cfg w))) /\
  (forall fuel coinIds w, Counted w (snd (CoinGeckoService.getCurrentPrices fuel coinIds w))) /\
  (forall ticks fuel w, Counted w (snd (App.cronDriver ticks fuel w))) /\
  (forall w,
     CoinGeckoService.getUsageStats w =
       (Ok (requestCount (gecko w), lastRequestTime (gecko w), 30), w)).
Proof.
  split; [|split; [|split]].
  - intros fuel cfg w. apply Inv_request_Counted.
  - intros fuel coinIds w. apply Inv_getCurrentPrices_Counted.
  - intros ticks fuel. induction ticks as [|n IH]; intros w; cbn [App.cronDriver];
      [apply Counted_refl|].
    pose proof (Inv_priceTick_Counted fuel w) as T.
    destruct (App.priceTick fuel w) as [r w1]. cbn [snd] in T.
    assert (K : forall t, Counted w1 (with_now t w1)).
    { intros t. apply KeepsClient_Counted. split; reflexivity. }
    destruct r as [[]|e|]; [|exact T|].
    all: match goal with |- context [App.cronDriver ?k ?f ?w'] =>
           specialize (IH w'); destruct (App.cronDriver k f w') as [rs w2] end.
    all: cbn [snd] in *; etransitivity; [exact T|]; etransitivity; [apply K|exact IH].
  - intros w. reflexivity.
Qed.

(** ** The alert store *)

Lemma quiet_no_fault (n : nat) (script rest : list bool) :
  quiet (S n) script -> nextFault script = (true, rest) -> False.
Proof. intros Q E. destruct (nextFault_quiet _ _ Q) as [E1 _]. congruence. Qed.

Lemma quiet_rest (n : nat) (script rest : list bool) :
  quiet (S n) script -> nextFault script = (false, rest) -> quiet n rest.
Proof.
  intros Q E. destruct (nextFault_quiet _ _ Q) as [E1 Q1].
  rewrite E in E1. inversion E1. exact Q1.
Qed.

Lemma upper_ascii_idem (c : ascii) : upper_ascii (upper_ascii c) = upper_ascii c.
Proof. destruct c as [[] [] [] [] [] [] [] []]; reflexivity. Qed.

Lemma toUpperCase_idem (s : string) : toUpperCase (toUpperCase s) = toUpperCase s.
Proof.
  induction s as [|c s IH]; cbn [toUpperCase]; [reflexivity|].
  rewrite upper_ascii_idem, IH. reflexivity.
Qed.

Lemma toUpperCase_nonempty (s : string) : s <> "" -> toUpperCase s <> "".
Proof. destruct s; [congruence|discriminate]. Qed.

Lemma schemaValid_inv (d : AlertData) :
  schemaValid d = true ->
  exists s c,
    d_symbol d = Some s /\ s <> "" /\ d_condition d = Some c /\ In c conditionEnum /\
    ((c = "above" \/ c = "below") -> d_targetPrice d <> None) /\
    ((c = "percent_increase" \/ c = "percent_decrease") -> d_percentageChange d <> None).
Proof.
  unfold schemaValid. intros H.
  apply andb_prop in H as [H Hp]. apply andb_prop in H as [H Ht].
  apply andb_prop in H as [Hs Hc].
  destruct (d_symbol d) as [s|]; [|discriminate].
  destruct (d_condition d) as [c|]; [|discriminate].
  exists s, c. cbn [default] in *.
  split; [reflexivity|]. split.
  { intros ->. discriminate. }
  split; [reflexivity|]. split.
  { apply existsb_exists in Hc as (x & Hx & E). apply String.eqb_eq in E. subst. exact Hx. }
  split.
  - intros [->| ->]; cbn in Ht; destruct (d_targetPrice d); congruence.
  - intros [->| ->]; cbn in Hp; destruct (d_percentageChange d); congruence.
Qed.

Lemma createAlert_run (oid : string) (data : AlertData) (w : World) :
  users (mongo (snd (AlertService_createAlert oid data w))) = users (mongo w) /\
  ((fst (AlertService_createAlert oid data w) = Ok (newAlert oid (now w) data) /\
    schemaValid data = true /\
    alerts (mongo (snd (AlertService_createAlert oid data w))) =
      (alerts (mongo w) ++ [newAlert oid (now w) data])%list) \/
   (fst (AlertService_createAlert oid data w) = Throw (JsError "Failed to create alert") /\
    alerts (mongo (snd (AlertService_createAlert oid data w))) = alerts (mongo w))) /\
  (schemaValid data = true -> quiet 1 (mongoFaults (mongo w)) ->
   fst (AlertService_createAlert oid data w) = Ok (newAlert oid (now w) data)).
Proof.
  unfold AlertService_createAlert, tryCatch, Date_now, gets, Alert_save.
  destruct (schemaValid data) eqn:V.
  - unfold bind, log, modify, ret, throw, mongoCall. cbv beta.
    destruct (nextFault (mongoFaults (mongo w))) as [[] rest] eqn:E; cbn.
    + split; [reflexivity|]. split; [right; split; reflexivity|].
      intros _ Q. exfalso. eauto using quiet_no_fault.
    + split; [reflexivity|]. split; [left; repeat split|]. reflexivity.
  - cbn. split; [reflexivity|]. split; [right; split; reflexivity|]. discriminate.
Qed.

(** What [createAlert] stores.  A call either returns the new document,
    appended to the collection, or throws
    [Error('Failed to create alert')] and leaves the collection as it was.
    A stored document has a condition of the four kinds, the threshold that
    its condition requires (so the defensive branch of the evaluator is not
    what decides it), a non-empty upper-case symbol, and never an id that
    another document has when the new ObjectId is fresh.  The call returns
    when the input passes the schema and MongoDB answers. *)
Theorem createAlert_stores_valid_rules (oid : string) (data : AlertData) (w : World) :
  match fst (AlertService_createAlert oid data w) with
  | Ok a =>
      a = newAlert oid (now w) data /\
      alerts (mongo (snd (AlertService_createAlert oid data w))) =
        (alerts (mongo w) ++ [a])%list /\
      In (condition a) conditionEnum /\
      ~ AlertEvaluator.threshold_unset a /\
      alertSymbol a <> "" /\ toUpperCase (alertSymbol a) = alertSymbol a /\
      (List.NoDup (List.map _id (alerts (mongo w))) ->
       ~ In oid (List.map _id (alerts (mongo w))) ->
       List.NoDup (List.map _id (alerts (mongo (snd (AlertService_createAlert oid data w))))))
  | Throw e =>
      e = JsError "Failed to create alert" /\
      alerts (mongo (snd (AlertService_createAlert oid data w))) = alerts (mongo w)
  | Pending => False
  end /\
  (schemaValid data = true -> quiet 1 (mongoFaults (mongo w)) ->
   fst (AlertService_createAlert oid data w) = Ok (newAlert oid (now w) data)).
Proof.
  unfold AlertService_createAlert, tryCatch, Date_now, gets, Alert_save.
  destruct (schemaValid data) eqn:V.
  - unfold bind, log, modify, ret, throw, mongoCall. cbv beta.
    destruct (nextFault (mongoFaults (mongo w))) as [[] rest] eqn:E.
    + cbn. split; [split; reflexivity|].
      intros _ Q. destruct (nextFault_quiet _ _ Q) as [E' _]. congruence.
    + cbn. split; [|reflexivity].
      destruct (schemaValid_inv data V) as (s & c & Hs & Hne & Hc & Hin & Ht & Hp).
      split; [reflexivity|]. split; [reflexivity|].
      unfold newAlert. cbn [condition alertSymbol targetPrice percentageChange _id].
      rewrite Hs, Hc. cbn [default].
      split; [exact Hin|]. split.
      { unfold AlertEvaluator.threshold_unset.
        cbn [condition targetPrice percentageChange default Datatypes.id]. tauto. }
      split; [apply toUpperCase_nonempty, Hne|]. split; [apply toUpperCase_idem|].
      intros N Hfresh. rewrite List.map_app. cbn [List.map _id].
      apply NoDup_ListNoDup. apply NoDup_ListNoDup in N.
      apply NoDup_app. split; [exact N|]. split.
      * intros x Hx Hx'. apply list_elem_of_In in Hx.
        apply list_elem_of_singleton in Hx'. subst. contradiction.
      * apply NoDup_singleton.
  - cbn. split; [split; reflexivity|]. discriminate.
Qed.

Lemma createAlert_stores_valid_rules_witness :
  let w := Scenario.world 5000 ∅ (Scenario.always NetworkError) [Scenario.rule_btc_above] [] in
  let data := mkAlertData (Some "u1") (Some "eth") (Some "percent_decrease") None
                (Some 5%float) None in
  fst (AlertService_createAlert "a9" data w) =
    Ok (mkAlert "a9" "u1" "ETH" "percent_decrease" None (Some 5%float) true 5000).
Proof.
  intros w data.
  apply (proj2 (createAlert_stores_valid_rules "a9" data w)); [reflexivity|apply quiet_nil].
Defined.

(** A request without the threshold of its condition is refused. *)
Example createAlert_refuses_missing_threshold :
  let w := Scenario.world 5000 ∅ (Scenario.always NetworkError) [] [] in
  let data := mkAlertData (Some "u1") (Some "eth") (Some "above") None (Some 5%float) None in
  fst (AlertService_createAlert "a9" data w) = Throw (JsError "Failed to create alert") /\
  alerts (mongo (snd (AlertService_createAlert "a9" data w))) = [].
Proof. split; reflexivity. Qed.

Lemma matches_owned (alertId u : string) (d : AlertDocument) :
  u <> "" ->
  matches (ownedQuery alertId (Some u)) d = true -> _id d = alertId /\ userId d = u.
Proof.
  intros Hu. unfold ownedQuery, truthyId, matches. cbn [q_id q_userId q_isActive].
  destruct (String.eqb_spec u ""); [contradiction|].
  rewrite andb_true_r. intros H. apply andb_prop in H as [H1 H2].
  apply String.eqb_eq in H1, H2. split; assumption.
Qed.

Lemma updateFirst_ofOthers (alertId u : string) (upd : AlertUpdate) (l : list AlertDocument) :
  u <> "" ->
  ofOthers u (snd (updateFirst (ownedQuery alertId (Some u)) upd l)) = ofOthers u l.
Proof.
  intros Hu. induction l as [|d l IH]; cbn [updateFirst]; [reflexivity|].
  destruct (matches _ d) eqn:Hm.
  - apply (matches_owned alertId u d Hu) in Hm as [_ Ho].
    unfold ofOthers. cbn [snd List.filter userId applyUpdate].
    rewrite Ho, String.eqb_refl. reflexivity.
  - destruct (updateFirst _ upd l) as [found l']. cbn [snd] in *.
    unfold ofOthers in *. cbn [List.filter]. rewrite IH. reflexivity.
Qed.

Lemma deleteFirst_ofOthers (alertId u : string) (l : list AlertDocument) :
  u <> "" ->
  ofOthers u (snd (deleteFirst (ownedQuery alertId (Some u)) l)) = ofOthers u l.
Proof.
  intros Hu. induction l as [|d l IH]; cbn [deleteFirst]; [reflexivity|].
  destruct (matches _ d) eqn:Hm.
  - apply (matches_owned alertId u d Hu) in Hm as [_ Ho].
    unfold ofOthers. cbn [snd List.filter]. rewrite Ho, String.eqb_refl. reflexivity.
  - destruct (deleteFirst _ l) as [found l']. cbn [snd] in *.
    unfold ofOthers in *. cbn [List.filter]. rewrite IH. reflexivity.
Qed.

Lemma updateFirst_no_match (q : AlertQuery) (upd : AlertUpdate) (l : list AlertDocument) :
  List.existsb (matches q) l = false -> updateFirst q upd l = (None, l).
Proof.
  induction l as [|d l IH]; cbn [updateFirst List.existsb]; [reflexivity|].
  intros H. apply orb_false_elim in H as [H1 H2]. rewrite H1, (IH H2). reflexivity.
Qed.

Lemma deleteFirst_no_match (q : AlertQuery) (l : list AlertDocument) :
  List.existsb (matches q) l = false -> deleteFirst q l = (None, l).
Proof.
  induction l as [|d l IH]; cbn [deleteFirst List.existsb]; [reflexivity|].
  intros H. apply orb_false_elim in H as [H1 H2]. rewrite H1, (IH H2). reflexivity.
Qed.

Lemma updateAlert_ofOthers (alertId u : string) (upd : AlertUpdate) (w : World) :
  u <> "" ->
  ofOthers u (alerts (mongo (snd (AlertService.updateAlert alertId upd (Some u) w)))) =
    ofOthers u (alerts (mongo w)).
Proof.
  intros Hu.
  pose proof (updateFirst_ofOthers alertId u upd (alerts (mongo w)) Hu) as HU.
  unfold AlertService.updateAlert, tryCatch, bind, Alert_findOneAndUpdate, mongoCall.
  change (mkQuery (Some alertId) (if String.eqb u "" then None else Some u) None)
    with (ownedQuery alertId (Some u)) in *.
  destruct (nextFault _) as [[] rest]; [reflexivity|].
  cbn [alerts users priceHistory mongoFaults].
  destruct (updateFirst _ upd (alerts (mongo w))) as [[d|] l]; exact HU.
Qed.

Lemma deleteAlert_ofOthers (alertId u : string) (w : World) :
  u <> "" ->
  ofOthers u (alerts (mongo (snd (AlertService_deleteAlert alertId (Some u) w)))) =
    ofOthers u (alerts (mongo w)).
Proof.
  intros Hu.
  pose proof (deleteFirst_ofOthers alertId u (alerts (mongo w)) Hu) as HD.
  unfold AlertService_deleteAlert, tryCatch, bind, Alert_findOneAndDelete, mongoCall.
  destruct (nextFault _) as [[] rest]; [reflexivity|].
  cbn [alerts users priceHistory mongoFaults].
  destruct (deleteFirst _ (alerts (mongo w))) as [[d|] l]; exact HD.
Qed.



Lemma matches_id (alertId : string) (uid : option string) (d : AlertDocument) :
  matches (ownedQuery alertId uid) d = true -> _id d = alertId.
Proof.
  unfold ownedQuery, matches. cbn [q_id q_userId q_isActive].
  intros H. apply andb_prop in H as [H _]. apply andb_prop in H as [H _].
  apply String.eqb_eq in H. exact H.
Qed.

Lemma filter_all_kept {A} (f : A -> bool) (l : list A) :
  (forall x, In x l -> f x = true) -> List.filter f l = l.
Proof.
  induction l as [|x l IH]; cbn [List.filter]; [reflexivity|].
  intros H. rewrite (H x (or_introl eq_refl)), IH; [reflexivity|].
  intros y Hy. apply H. right. exact Hy.
Qed.

Lemma deleteFirst_filter (alertId : string) (uid : option string) (l : list AlertDocument) :
  List.NoDup (List.map _id l) ->
  deleteFirst (ownedQuery alertId uid) l =
    (List.find (matches (ownedQuery alertId uid)) l,
     List.filter (fun d => negb (matches (ownedQuery alertId uid) d)) l).
Proof.
  induction l as [|d l IH]; cbn [deleteFirst List.find List.filter List.map];
    [reflexivity|].
  intros N. inversion N as [|? ? Hd N']; subst.
  destruct (matches _ d) eqn:Hm; cbn [negb].
  - f_equal. symmetry. apply filter_all_kept. intros x Hx.
    destruct (matches _ x) eqn:Hx'; [|reflexivity].
    apply matches_id in Hm, Hx'. exfalso. apply Hd.
    rewrite Hm, <- Hx'. apply in_map. exact Hx.
  - rewrite (IH N'). reflexivity.
Qed.

Lemma find_existsb {A} (f : A -> bool) (l : list A) :
  List.existsb f l = match List.find f l with Some _ => true | None => false end.
Proof.
  induction l as [|x l IH]; cbn [List.find List.existsb]; [reflexivity|].
  destruct (f x); [reflexivity|exact IH].
Qed.

Lemma unique_by_id (l : list AlertDocument) (x d : AlertDocument) :
  List.NoDup (List.map _id l) -> In x l -> In d l -> _id x = _id d -> x = d.
Proof.
  induction l as [|y l IH]; cbn [List.map]; intros N Hx Hd E; [destruct Hx|].
  inversion N as [|? ? Hy N']; subst.
  destruct Hx as [->|Hx], Hd as [->|Hd]; [reflexivity| | |exact (IH N' Hx Hd E)].
  - exfalso. apply Hy. rewrite E. apply in_map. exact Hd.
  - exfalso. apply Hy. rewrite <- E. apply in_map. exact Hx.
Qed.



(** *** Statistics *)

Lemma filter_length_le {A} (f g : A -> bool) (l : list A) :
  (forall x, f x = true -> g x = true) ->
  (length (List.filter f l) <= length (List.filter g l))%nat.
Proof.
  intros H. induction l as [|x l IH]; cbn [List.filter]; [lia|].
  destruct (f x) eqn:F.
  - rewrite (H x F). cbn [length]. lia.
  - destruct (g x); cbn [length]; lia.
Qed.

Lemma totalCount_bump (s : string) (g : list (string * nat)) :
  totalCount (bump s g) = S (totalCount g).
Proof.
  induction g as [|[k n] g IH]; cbn [bump totalCount List.fold_right snd]; [lia|].
  destruct (String.eqb k s); cbn [totalCount List.fold_right snd]; [lia|].
  fold (totalCount (bump s g)). fold (totalCount g). rewrite IH. lia.
Qed.

Lemma countFor_bump (s k : string) (g : list (string * nat)) :
  countFor s (bump k g) = if String.eqb k s then S (countFor s g) else countFor s g.
Proof.
  induction g as [|[k' n] g IH]; cbn [bump countFor].
  - destruct (String.eqb k s); reflexivity.
  - destruct (String.eqb_spec k' k) as [->|Hk]; cbn [countFor].
    + destruct (String.eqb k s); reflexivity.
    + destruct (String.eqb_spec k' s) as [->|Hs].
      * destruct (String.eqb_spec k s); [congruence|reflexivity].
      * exact IH.
Qed.

Lemma keys_bump (s k : string) (g : list (string * nat)) :
  In s (List.map fst (bump k g)) <-> s = k \/ In s (List.map fst g).
Proof.
  induction g as [|[k' n] g IH]; cbn [bump List.map fst In].
  - intuition congruence.
  - destruct (String.eqb_spec k' k) as [->|Hk]; cbn [List.map fst In].
    + intuition congruence.
    + rewrite IH. intuition congruence.
Qed.

Lemma NoDup_bump (k : string) (g : list (string * nat)) :
  List.NoDup (List.map fst g) -> List.NoDup (List.map fst (bump k g)).
Proof.
  induction g as [|[k' n] g IH]; cbn [bump List.map fst]; intros N.
  - repeat constructor. intros [].
  - inversion N as [|? ? Hk' N']; subst.
    destruct (String.eqb_spec k' k) as [->|Hk]; cbn [List.map fst].
    + constructor; assumption.
    + constructor; [|apply IH, N'].
      rewrite keys_bump. intuition congruence.
Qed.

Lemma positive_bump (k : string) (g : list (string * nat)) :
  (forall x, In x g -> 1 <= snd x)%nat -> (forall x, In x (bump k g) -> 1 <= snd x)%nat.
Proof.
  induction g as [|[k' n] g IH]; cbn [bump]; intros H x Hx.
  - destruct Hx as [<-|[]]. cbn. lia.
  - destruct (String.eqb k' k).
    + destruct Hx as [<-|Hx]; [cbn; lia|]. apply H. right. exact Hx.
    + destruct Hx as [<-|Hx]; [apply (H (k', n)); left; reflexivity|].
      apply IH; [|exact Hx]. intros y Hy. apply H. right. exact Hy.
Qed.

Lemma groupBySymbol_snoc (l : list AlertDocument) (d : AlertDocument) :
  groupBySymbol (l ++ [d]) = bump (alertSymbol d) (groupBySymbol l).
Proof. unfold groupBySymbol. rewrite List.fold_left_app. reflexivity. Qed.

Lemma groupBySymbol_spec (l : list AlertDocument) :
  totalCount (groupBySymbol l) = length l /\
  List.NoDup (List.map fst (groupBySymbol l)) /\
  (forall x, In x (groupBySymbol l) -> 1 <= snd x)%nat /\
  (forall s, countFor s (groupBySymbol l) = countOn s l).
Proof.
  induction l as [|d l (T & N & P & C)] using rev_ind.
  - repeat split; [constructor|intros ? []].
  - rewrite groupBySymbol_snoc. repeat split.
    + rewrite totalCount_bump, T, List.length_app. cbn. lia.
    + apply NoDup_bump, N.
    + apply positive_bump, P.
    + intros s. rewrite countFor_bump, C. unfold countOn.
      rewrite List.filter_app, List.length_app. cbn [List.filter].
      destruct (String.eqb (alertSymbol d) s); cbn [length]; lia.
Qed.

Lemma insertByCountDesc_perm (g : string * nat) (l : list (string * nat)) :
  Permutation (insertByCountDesc g l) (g :: l).
Proof.
  induction l as [|x l IH]; cbn [insertByCountDesc]; [reflexivity|].
  destruct (snd x <? snd g)%nat; [reflexivity|].
  rewrite IH. apply perm_swap.
Qed.

Lemma sortByCountDesc_perm (l : list (string * nat)) : Permutation (sortByCountDesc l) l.
Proof.
  induction l as [|x l IH]; cbn [sortByCountDesc List.fold_right]; [reflexivity|].
  fold (sortByCountDesc l). rewrite insertByCountDesc_perm, IH. reflexivity.
Qed.

Lemma countsDescending_insert (g : string * nat) (l : list (string * nat)) :
  countsDescending l = true -> countsDescending (insertByCountDesc g l) = true.
Proof.
  induction l as [|x l IH]; cbn [insertByCountDesc countsDescending]; [reflexivity|].
  intros H. apply andb_prop in H as [Hx Hl].
  destruct (Nat.ltb_spec (snd x) (snd g)) as [Hlt|Hge]; cbn [countsDescending List.forallb].
  - rewrite Hx, Hl, !andb_true_r. apply andb_true_intro. split.
    + apply Nat.leb_le. lia.
    + rewrite forallb_forall in Hx |- *. intros y Hy.
      specialize (Hx y Hy). apply Nat.leb_le in Hx. apply Nat.leb_le. lia.
  - rewrite (IH Hl), andb_true_r.
    rewrite forallb_forall in Hx |- *. intros y Hy.
    apply (Permutation_in _ (insertByCountDesc_perm g l)) in Hy as [<-|Hy].
    + apply Nat.leb_le. exact Hge.
    + apply Hx, Hy.
Qed.

Lemma countsDescending_sort (l : list (string * nat)) :
  countsDescending (sortByCountDesc l) = true.
Proof.
  induction l as [|x l IH]; cbn [sortByCountDesc List.fold_right]; [reflexivity|].
  apply countsDescending_insert, IH.
Qed.

Lemma totalCount_perm (l l' : list (string * nat)) :
  Permutation l l' -> totalCount l = totalCount l'.
Proof.
  unfold totalCount. induction 1; cbn [List.fold_right]; lia.
Qed.

Lemma countFor_In (s : string) (n : nat) (g : list (string * nat)) :
  List.NoDup (List.map fst g) -> In (s, n) g -> countFor s g = n.
Proof.
  induction g as [|[k m] g IH]; cbn [List.map fst countFor]; intros N H; [destruct H|].
  inversion N as [|? ? Hk N']; subst.
  destruct H as [H|H].
  - inversion H; subst. rewrite String.eqb_refl. reflexivity.
  - destruct (String.eqb_spec k s) as [->|_]; [|exact (IH N' H)].
    exfalso. apply Hk. change s with (fst (s, n)). apply in_map. exact H.
Qed.

Lemma In_countFor (s : string) (g : list (string * nat)) :
  (1 <= countFor s g)%nat -> In (s, countFor s g) g.
Proof.
  induction g as [|[k m] g IH]; cbn [countFor]; [lia|].
  destruct (String.eqb_spec k s) as [->|_]; [left; reflexivity|].
  intros H. right. exact (IH H).
Qed.

Lemma filter_active (owner : option string) (l : list AlertDocument) :
  List.filter (matches (mkQuery None owner (Some true))) l =
    List.filter isActive (List.filter (matches (mkQuery None owner None)) l).
Proof.
  assert (P : forall d, matches (mkQuery None owner (Some true)) d =
                        matches (mkQuery None owner None) d && isActive d).
  { intros d. unfold matches. cbn [q_id q_userId q_isActive].
    rewrite andb_true_r. destruct (isActive d); reflexivity. }
  induction l as [|d l IH]; cbn [List.filter]; [reflexivity|].
  rewrite P. destruct (matches (mkQuery None owner None) d); cbn [andb List.filter];
    [|exact IH].
  destruct (isActive d); rewrite IH; reflexivity.
Qed.

Lemma getAlertStats_run (uid : option string) (w : World) :
  let mine := List.filter (matches (mkQuery None (truthyId uid) None)) (alerts (mongo w)) in
  let active := List.filter isActive mine in
  alerts (mongo (snd (AlertService_getAlertStats uid w))) = alerts (mongo w) /\
  (fst (AlertService_getAlertStats uid w) = Ok (mkStats 0 0 []) \/
   fst (AlertService_getAlertStats uid w) =
     Ok (mkStats (length mine) (length active) (sortByCountDesc (groupBySymbol active)))) /\
  (quiet 3 (mongoFaults (mongo w)) ->
   fst (AlertService_getAlertStats uid w) =
     Ok (mkStats (length mine) (length active) (sortByCountDesc (groupBySymbol active)))).
Proof.
  cbv zeta. rewrite <- filter_active.
  unfold AlertService_getAlertStats, tryCatch, Alert_countDocuments, Alert_aggregateBySymbol.
  unfold bind, log, modify, ret, mongoCall. cbv beta.
  destruct (nextFault (mongoFaults (mongo w))) as [[] r1] eqn:E1.
  { cbn. split; [reflexivity|]. split; [left; reflexivity|].
    intros Q. exfalso. eauto using quiet_no_fault. }
  cbn [mongo with_mongo alerts users priceHistory mongoFaults fst snd].
  destruct (nextFault r1) as [[] r2] eqn:E2.
  { cbn. split; [reflexivity|]. split; [left; reflexivity|].
    intros Q. exfalso. eauto using quiet_no_fault, quiet_rest. }
  cbn [mongo with_mongo alerts users priceHistory mongoFaults fst snd].
  destruct (nextFault r2) as [[] r3] eqn:E3.
  { cbn. split; [reflexivity|]. split; [left; reflexivity|].
    intros Q. exfalso. eauto using quiet_no_fault, quiet_rest. }
  cbn [mongo with_mongo alerts users priceHistory mongoFaults fst snd].
  split; [reflexivity|]. split; [right; reflexivity|]. intros _. reflexivity.
Qed.

(** The figures of [getAlertStats].  It never throws and leaves the
    collection as it is; what it returns is consistent: no more active alerts
    than alerts, one entry per symbol, each with a count of at least one, in
    decreasing order of count, and the counts add up to the number of active
    alerts.  When MongoDB answers its three queries the figures are those of
    the collection: the alerts of the user (of every user, without a user
    id), the active ones among them, and for each symbol the number of these
    on it. *)
Theorem getAlertStats_is_consistent (uid : option string) (w : World) :
  exists st,
    fst (AlertService_getAlertStats uid w) = Ok st /\
    alerts (mongo (snd (AlertService_getAlertStats uid w))) = alerts (mongo w) /\
    (activeAlerts st <= totalAlerts st)%nat /\
    totalCount (alertsBySymbol st) = activeAlerts st /\
    List.NoDup (List.map fst (alertsBySymbol st)) /\
    (forall x, In x (alertsBySymbol st) -> 1 <= snd x)%nat /\
    countsDescending (alertsBySymbol st) = true /\
    (quiet 3 (mongoFaults (mongo w)) ->
     let mine := List.filter (matches (mkQuery None (truthyId uid) None))
                   (alerts (mongo w)) in
     let active := List.filter isActive mine in
     totalAlerts st = length mine /\
     activeAlerts st = length active /\
     forall s n, In (s, n) (alertsBySymbol st) <-> n = countOn s active /\ (1 <= n)%nat).
Proof.
  pose proof (getAlertStats_run uid w) as R. cbv zeta in R.
  set (mine := List.filter (matches (mkQuery None (truthyId uid) None)) (alerts (mongo w))) in *.
  set (act := List.filter isActive mine) in *.
  destruct R as (A & R & RQ).
  destruct (groupBySymbol_spec act) as (T & N & P & C).
  pose proof (sortByCountDesc_perm (groupBySymbol act)) as Pm.
  assert (Hle : (length act <= length mine)%nat).
  { unfold act. clear. induction mine as [|d l IH]; cbn [List.filter length]; [lia|].
    destruct (isActive d); cbn [length]; lia. }
  assert (Full : let st := mkStats (length mine) (length act)
                             (sortByCountDesc (groupBySymbol act)) in
            (activeAlerts st <= totalAlerts st)%nat /\
            totalCount (alertsBySymbol st) = activeAlerts st /\
            List.NoDup (List.map fst (alertsBySymbol st)) /\
            (forall x, In x (alertsBySymbol st) -> 1 <= snd x)%nat /\
            countsDescending (alertsBySymbol st) = true /\
            forall s n, In (s, n) (alertsBySymbol st) <-> n = countOn s act /\ (1 <= n)%nat).
  { cbn [totalAlerts activeAlerts alertsBySymbol].
    split; [exact Hle|].
    split; [rewrite (totalCount_perm _ _ Pm); exact T|].
    split; [apply NoDup_ListNoDup; rewrite Pm; apply NoDup_ListNoDup, N|].
    split; [intros x Hx; apply P; exact (Permutation_in _ Pm Hx)|].
    split; [apply countsDescending_sort|].
    intros s n. rewrite <- C. split.
    - intros H. apply (Permutation_in _ Pm) in H.
      split; [symmetry; apply countFor_In; assumption|]. apply (P _ H).
    - intros [-> H]. apply (Permutation_in _ (Permutation_sym Pm)).
      apply In_countFor, H. }
  destruct Full as (F1 & F2 & F3 & F4 & F5 & F6).
  destruct R as [R|R]; eexists; (split; [exact R|]); (split; [exact A|]).
  - cbn [totalAlerts activeAlerts alertsBySymbol].
    split; [lia|]. split; [reflexivity|]. split; [constructor|].
    split; [intros ? []|]. split; [reflexivity|].
    intros Q. specialize (RQ Q). rewrite R in RQ. injection RQ as E1 E2 E3.
    split; [exact E1|]. split; [exact E2|]. rewrite E3. exact F6.
  - split; [exact F1|]. split; [exact F2|]. split; [exact F3|]. split; [exact F4|].
    split; [exact F5|]. intros _. split; [reflexivity|]. split; [reflexivity|exact F6].
Qed.

Lemma getAlertStats_is_consistent_witness :
  let w := Scenario.world 5000 ∅ (Scenario.always NetworkError)
             [Scenario.rule_btc_above; Scenario.rule_eth_inactive] [] in
  exists st,
    fst (AlertService_getAlertStats None w) = Ok st /\
    totalAlerts st = 2%nat /\ activeAlerts st = 1%nat.
Proof.
  intros w. destruct (getAlertStats_is_consistent None w) as (st & R & _ & _ & _ & _ & _ & _ & H).
  exists st. destruct (H (quiet_nil 3)) as (T & A & _).
  split; [exact R|]. split; [exact T|exact A].
Defined.

(** ** The price history *)

#[local] Instance Sampled_refl : Reflexive Sampled.
Proof. intros w. split; [reflexivity|]. exists []. rewrite app_nil_r. split; constructor. Qed.

#[local] Instance Sampled_trans : Transitive Sampled.
Proof.
  intros a b c (H1 & r1 & H2 & H3) (K1 & r2 & K2 & K3).
  split; [congruence|]. exists (r1 ++ r2)%list.
  rewrite K2, H2, <- app_assoc. split; [reflexivity|].
  apply Forall_app. split; assumption.
Qed.

Lemma KeepsStores_Sampled (w w' : World) : KeepsStores w w' -> Sampled w w'.
Proof. intros (H & _ & _). unfold Sampled. rewrite H. exact (Sampled_refl w). Qed.

Lemma Inv_KeepsStores_Sampled {A} (m : M A) : Inv KeepsStores m -> Inv Sampled m.
Proof. apply Inv_weaken, KeepsStores_Sampled. Qed.

Lemma Inv_mongoCall_Sampled {A} (op : Mongo -> A * Mongo) :
  (forall m, users (snd (op m)) = users m /\ priceHistory (snd (op m)) = priceHistory m) ->
  Inv Sampled (mongoCall op).
Proof.
  intros H w. unfold mongoCall.
  destruct (nextFault _) as [[] rest]; [exact (Sampled_refl w)|].
  match goal with |- context [op ?m] => destruct (H m) as [U P]; destruct (op m) end.
  cbn in *. split; [exact U|]. exists []. rewrite app_nil_r. split; [exact P|constructor].
Qed.

Lemma Inv_Alert_find_Sampled (q : AlertQuery) : Inv Sampled (Alert_find q).
Proof. apply Inv_mongoCall_Sampled. split; reflexivity. Qed.

Lemma Inv_User_findById_Sampled (uid : string) : Inv Sampled (User_findById uid).
Proof. apply Inv_mongoCall_Sampled. split; reflexivity. Qed.

Lemma Inv_Alert_findOneAndUpdate_Sampled (q : AlertQuery) (u : AlertUpdate) :
  Inv Sampled (Alert_findOneAndUpdate q u).
Proof.
  apply Inv_mongoCall_Sampled. intros m. destruct (updateFirst q u (alerts m)).
  split; reflexivity.
Qed.

Lemma Inv_emit_Sampled (ev : SocketEvent) : Inv Sampled (SocketService.emit ev).
Proof.
  intros w. unfold SocketService.emit.
  destruct (nextFault _) as [[] rest]; exact (Sampled_refl w).
Qed.

Lemma Inv_sendMail_Sampled (msg : MailMessage) : Inv Sampled (EmailService.sendMail msg).
Proof.
  intros w. unfold EmailService.sendMail.
  destruct (nextFault _) as [[] rest]; exact (Sampled_refl w).
Qed.

#[local] Hint Resolve Inv_OnlyCache_KeepsStores Inv_KeepsStores_Sampled Inv_Alert_find_Sampled
  Inv_User_findById_Sampled Inv_Alert_findOneAndUpdate_Sampled Inv_emit_Sampled
  Inv_sendMail_Sampled : inv.

Lemma historyRecords_upper (t : Z) (prices : list CryptoPriceData) :
  Forall (fun r => ph_timestamp r = t /\ toUpperCase (ph_symbol r) = ph_symbol r)
    (historyRecords t prices).
Proof.
  unfold historyRecords. induction prices as [|p prices IH]; cbn [List.map]; constructor.
  - cbn. split; [reflexivity|apply toUpperCase_idem].
  - exact IH.
Qed.

Lemma storePriceHistory_run (prices : list CryptoPriceData) (w : World) :
  fst (App.storePriceHistory prices w) = Ok tt /\
  alerts (mongo (snd (App.storePriceHistory prices w))) = alerts (mongo w) /\
  users (mongo (snd (App.storePriceHistory prices w))) = users (mongo w) /\
  priceHistory (mongo (snd (App.storePriceHistory prices w))) =
    (priceHistory (mongo w) ++
       if fst (nextFault (mongoFaults (mongo w))) then []
       else historyRecords (now w) prices)%list.
Proof.
  unfold App.storePriceHistory, tryCatch, Date_now, gets, PriceHistory_insertMany.
  fold (historyRecords (now w) prices).
  unfold bind, log, modify, mongoCall. cbv beta.
  destruct (nextFault (mongoFaults (mongo w))) as [[] rest]; cbn;
    rewrite ?app_nil_r; repeat split.
Qed.

(** [storePriceHistory] never throws and touches nothing but the price
    history.  It adds one record for each price it is given, in the order
    given, with the symbol in upper case and the instant of the call as
    timestamp - or, when the insertion fails, adds nothing at all; it adds
    them when MongoDB answers. *)
Theorem storePriceHistory_appends (prices : list CryptoPriceData) (w : World) :
  let w' := snd (App.storePriceHistory prices w) in
  fst (App.storePriceHistory prices w) = Ok tt /\
  alerts (mongo w') = alerts (mongo w) /\
  users (mongo w') = users (mongo w) /\
  (priceHistory (mongo w') = (priceHistory (mongo w) ++ historyRecords (now w) prices)%list \/
   priceHistory (mongo w') = priceHistory (mongo w)) /\
  length (historyRecords (now w) prices) = length prices /\
  Forall (fun r => ph_timestamp r = now w /\ toUpperCase (ph_symbol r) = ph_symbol r)
    (historyRecords (now w) prices) /\
  (quiet 1 (mongoFaults (mongo w)) ->
   priceHistory (mongo w') = (priceHistory (mongo w) ++ historyRecords (now w) prices)%list).
Proof.
  intros w'. subst w'.
  destruct (storePriceHistory_run prices w) as (R & A & U & P).
  split; [exact R|]. split; [exact A|]. split; [exact U|]. rewrite P.
  split; [|split; [|split]].
  - destruct (fst (nextFault _)); [right; apply app_nil_r|left; reflexivity].
  - unfold historyRecords. apply List.length_map.
  - apply historyRecords_upper.
  - intros Q. destruct (nextFault_quiet _ _ Q) as [-> _]. reflexivity.
Qed.

Lemma storePriceHistory_appends_witness :
  let w := Scenario.world 120000 ∅ (Scenario.always NetworkError) [] [] in
  List.map ph_symbol
    (priceHistory (mongo (snd (App.storePriceHistory [Scenario.btc 61000 1.5] w)))) = ["BTC"].
Proof.
  intros w.
  destruct (storePriceHistory_appends [Scenario.btc 61000 1.5] w) as (_ & _ & _ & _ & _ & _ & H).
  rewrite (H (quiet_nil 1)). reflexivity.
Defined.

Lemma storePriceHistory_Sampled (prices : list CryptoPriceData) (w : World) :
  Z.rem (now w / 1000) 60 = 0 -> Sampled w (snd (App.storePriceHistory prices w)).
Proof.
  intros H. destruct (storePriceHistory_run prices w) as (_ & _ & U & P).
  split; [exact U|]. eexists. split; [exact P|].
  destruct (fst (nextFault _)); [constructor|].
  eapply Forall_impl; [apply historyRecords_upper|].
  intros r [Ht Hs]. split; [rewrite Ht; exact H|exact Hs].
Qed.

Lemma Inv_minuteGate_Sampled (prices : list CryptoPriceData) :
  Inv Sampled
    (t <- Date_now ;;
     if Z.rem (t / 1000) 60 =? 0 then App.storePriceHistory prices else ret tt).
Proof.
  intros w. unfold Date_now, gets, bind. cbv beta iota.
  destruct (Z.eqb_spec (Z.rem (now w / 1000) 60) 0) as [H|_].
  - apply storePriceHistory_Sampled, H.
  - exact (Sampled_refl w).
Qed.

Lemma Inv_priceTick_Sampled (fuel : nat) : Inv Sampled (App.priceTick fuel).
Proof.
  pose proof Inv_minuteGate_Sampled as G.
  unfold App.priceTick, App.priceTickBody, SocketService.broadcastPriceUpdate,
    AlertService.checkAlerts, AlertService.checkAlert, AlertService.triggerAlert,
    SocketService.sendAlert, EmailService.sendAlertEmail, AlertService.updateAlert.
  inv_auto.
Qed.

(** The price job samples the history on the minute.  Across any number of
    firings of the ten-second job, whatever fails in them, the price history
    only grows, every record added carries a timestamp in the first second of
    a minute and an upper-case symbol, and the users are as they were.  A
    firing at any other second adds nothing. *)
Theorem price_job_samples_history_on_the_minute :
  (forall ticks fuel w, Sampled w (snd (App.cronDriver ticks fuel w))) /\
  (forall fuel w, Sampled w (snd (App.priceTick fuel w))).
Proof.
  split; [|intros fuel w; apply Inv_priceTick_Sampled].
  intros ticks fuel. induction ticks as [|n IH]; intros w; cbn [App.cronDriver];
    [exact (Sampled_refl w)|].
  pose proof (Inv_priceTick_Sampled fuel w) as T.
  destruct (App.priceTick fuel w) as [r w1]. cbn [snd] in T.
  assert (K : forall t, Sampled w1 (with_now t w1)) by (intros t; exact (Sampled_refl w1)).
  destruct r as [[]|e|]; [|exact T|].
  all: match goal with |- context [App.cronDriver ?k ?f ?w'] =>
         specialize (IH w'); destruct (App.cronDriver k f w') as [rs w2] end.
  all: cbn [snd] in *; etransitivity; [exact T|]; etransitivity; [apply K|exact IH].
Qed.

(** ** What a check of the alerts sends *)

Section Notifications.
Context (registered : list UserDocument) (stored : list AlertDocument)
  (priceData : list CryptoPriceData).

#[local] Instance Notifies_refl : Reflexive (Notifies registered stored priceData).
Proof. intros w H. split; [exact H|reflexivity]. Qed.

#[local] Instance Notifies_trans : Transitive (Notifies registered stored priceData).
Proof.
  intros a b c H K Ha. destruct (H Ha) as [Hb F1]. destruct (K Hb) as [Hc F2].
  split; [exact Hc|]. etransitivity; eassumption.
Qed.

Lemma Notifies_silent (w w' : World) :
  users (mongo w') = users (mongo w) ->
  emitted (socket w') = emitted (socket w) ->
  outbox (mailer w') = outbox (mailer w) ->
  Notifies registered stored priceData w w'.
Proof.
  intros Hu Hs Hl H. split; [congruence|].
  exists [], []. rewrite Hs, Hl, !app_nil_r. repeat split; constructor.
Qed.

Lemma KeepsStores_Notifies (w w' : World) :
  KeepsStores w w' -> Notifies registered stored priceData w w'.
Proof. intros (Hm & Hs & Hl). apply Notifies_silent; congruence. Qed.

Lemma Inv_KeepsStores_Notifies {A} (m : M A) :
  Inv KeepsStores m -> Inv (Notifies registered stored priceData) m.
Proof. apply Inv_weaken, KeepsStores_Notifies. Qed.

Lemma Inv_mongoCall_Notifies {A} (op : Mongo -> A * Mongo) :
  (forall m, users (snd (op m)) = users m) ->
  Inv (Notifies registered stored priceData) (mongoCall op).
Proof.
  intros H w. unfold mongoCall.
  destruct (nextFault _) as [[] rest]; [apply Notifies_silent; reflexivity|].
  match goal with |- context [op ?m] => specialize (H m); destruct (op m) end.
  apply Notifies_silent; [exact H|reflexivity|reflexivity].
Qed.

Lemma Inv_Alert_find_Notifies (q : AlertQuery) :
  Inv (Notifies registered stored priceData) (Alert_find q).
Proof. apply Inv_mongoCall_Notifies. reflexivity. Qed.

Lemma Inv_User_findById_Notifies (uid : string) :
  Inv (Notifies registered stored priceData) (User_findById uid).
Proof. apply Inv_mongoCall_Notifies. reflexivity. Qed.

Lemma Inv_Alert_findOneAndUpdate_Notifies (q : AlertQuery) (u : AlertUpdate) :
  Inv (Notifies registered stored priceData) (Alert_findOneAndUpdate q u).
Proof.
  apply Inv_mongoCall_Notifies. intros m. destruct (updateFirst q u (alerts m)). reflexivity.
Qed.

Lemma Inv_emit_Notifies (ev : SocketEvent) :
  dueEvent stored priceData ev ->
  Inv (Notifies registered stored priceData) (SocketService.emit ev).
Proof.
  intros H w. unfold SocketService.emit.
  destruct (nextFault _) as [[] rest]; [apply Notifies_silent; reflexivity|].
  intros Hu. split; [exact Hu|].
  exists [ev], []. rewrite app_nil_r.
  split; [reflexivity|]. split; [reflexivity|]. split; [|constructor].
  constructor; [exact H|constructor].
Qed.

Lemma Inv_sendMail_Notifies (msg : MailMessage) :
  dueMail registered stored priceData msg ->
  Inv (Notifies registered stored priceData) (EmailService.sendMail msg).
Proof.
  intros H w. unfold EmailService.sendMail.
  destruct (nextFault _) as [[] rest]; [apply Notifies_silent; reflexivity|].
  intros Hu. split; [exact Hu|].
  exists [], [msg]. rewrite app_nil_r.
  split; [reflexivity|]. split; [reflexivity|]. split; [constructor|].
  constructor; [exact H|constructor].
Qed.

#[local] Hint Resolve Inv_OnlyCache_KeepsStores Inv_KeepsStores_Notifies Inv_Alert_find_Notifies
  Inv_User_findById_Notifies Inv_Alert_findOneAndUpdate_Notifies Inv_emit_Notifies
  Inv_sendMail_Notifies : inv.

Lemma User_findById_inv (uid : string) (w w1 : World) (found : option UserDocument) :
  User_findById uid w = (Ok found, w1) ->
  found = List.find (fun u => String.eqb (user_id u) uid) (users (mongo w)) /\
  users (mongo w1) = users (mongo w).
Proof.
  unfold User_findById, mongoCall. destruct (nextFault _) as [[] rest]; [discriminate|].
  cbn. intros [= <- <-]. split; reflexivity.
Qed.

Lemma Inv_triggerAlert_Notifies (alert : AlertDocument) (d : CryptoPriceData) :
  due stored priceData alert d ->
  Inv (Notifies registered stored priceData) (AlertService.triggerAlert alert d).
Proof.
  intros Hdue w. unfold AlertService.triggerAlert.
  assert (HE : forall t, dueEvent stored priceData
                 (alert_triggered alert (current_price d) (price_change_percentage_24h d) t)).
  { intros t. exists d. split; [exact Hdue|split; reflexivity]. }
  apply rel_tryCatch; try typeclasses eauto;
    [|intros e w1 _; apply KeepsStores_Notifies, OnlyCache_KeepsStores, Inv_log].
  apply rel_bind; try typeclasses eauto;
    [apply KeepsStores_Notifies, OnlyCache_KeepsStores, Inv_log|].
  intros _ w1 _.
  apply rel_bind; try typeclasses eauto; [apply Inv_User_findById_Notifies|].
  intros found w2 Hfind Hu. apply User_findById_inv in Hfind as [-> Hsame].
  rewrite Hsame in Hu.
  match goal with |- context [bind ?m ?k w2] =>
    assert (T : Inv (Notifies registered stored priceData) (bind m k)) end.
  { unfold SocketService.sendAlert, EmailService.sendAlertEmail, AlertService.updateAlert,
      Date_now.
    rewrite Hu.
    destruct (List.find _ registered) as [u|] eqn:Hf; [destruct (emailNotifications u) eqn:Hn|].
    - assert (HF : dueMail registered stored priceData
                     (mkMail (email u) (firstName u) alert (current_price d))).
      { split; [exists d; split; [exact Hdue|reflexivity]|].
        exists u. split; [exact Hf|]. split; [exact Hn|split; reflexivity]. }
      inv_auto.
    - inv_auto.
    - inv_auto. }
  apply T. rewrite Hsame. exact Hu.
Qed.

Lemma Inv_checkAlert_Notifies (alert : AlertDocument) :
  In alert stored -> isActive alert = true ->
  Inv (Notifies registered stored priceData) (AlertService.checkAlert priceData alert).
Proof.
  intros Hin Hact. unfold AlertService.checkAlert.
  destruct (List.find _ priceData) as [d|] eqn:Hp; [|apply Inv_ret; typeclasses eauto].
  destruct (AlertEvaluator.evaluateAlert alert d) eqn:He; [|apply Inv_ret; typeclasses eauto].
  apply Inv_triggerAlert_Notifies. repeat split; assumption.
Qed.

Lemma checkAlerts_Notifies (w : World) :
  alerts (mongo w) = stored ->
  Notifies registered stored priceData w (snd (AlertService.checkAlerts priceData w)).
Proof.
  intros Hs. unfold AlertService.checkAlerts.
  apply rel_tryCatch; try typeclasses eauto.
  - apply rel_bind; try typeclasses eauto; [apply Inv_Alert_find_Notifies|].
    intros active w1 Hfind. apply Alert_find_inv in Hfind as [-> _]. rewrite Hs.
    apply Inv_forEach; try typeclasses eauto.
    intros a Ha. apply filter_In in Ha as [Hin Hact]. apply matches_active in Hact.
    apply Inv_checkAlert_Notifies; assumption.
  - intros e w1 _. apply KeepsStores_Notifies, OnlyCache_KeepsStores, Inv_log.
Qed.

End Notifications.

(** No spurious notification.  Whatever fails during [checkAlerts], every
    push notification and every e-mail that it sends is about an alert that
    was active in the store when the check began and whose condition holds
    on the price that the snapshot has for its symbol; the notification
    carries the figures of that price, and an e-mail goes to the address of
    the user that owns the alert, who has e-mail notifications on.  Nothing
    else is emitted or mailed, and the users are left as they were. *)
Theorem checkAlerts_notifies_only_due_rules (priceData : list CryptoPriceData) (w : World) :
  let w' := snd (AlertService.checkAlerts priceData w) in
  users (mongo w') = users (mongo w) /\
  exists evs mails,
    emitted (socket w') = (emitted (socket w) ++ evs)%list /\
    outbox (mailer w') = (outbox (mailer w) ++ mails)%list /\
    Forall (dueEvent (alerts (mongo w)) priceData) evs /\
    Forall (dueMail (users (mongo w)) (alerts (mongo w)) priceData) mails.
Proof.
  cbv zeta.
  enough (H : Notifies (users (mongo w)) (alerts (mongo w)) priceData w
                (snd (AlertService.checkAlerts priceData w))).
  { destruct (H eq_refl) as [Hu (evs & mails & H1 & H2 & H3 & H4)].
    split; [exact Hu|]. exists evs, mails. repeat split; assumption. }
  apply checkAlerts_Notifies. reflexivity.
Qed.

(** ** The socket clients *)

Lemma prefix_inj (p a b : string) : (p ++ a)%string = (p ++ b)%string -> a = b.
Proof.
  induction p as [|c p IH]; rewrite ?append_nil, ?append_cons; intros H; [exact H|].
  injection H as H. exact (IH H).
Qed.

Lemma inSync_noClients : inSync noClients.
Proof.
  split.
  - intros room i. cbn. split; [intros H; apply elem_of_empty in H; destruct H|].
    intros (subs & s & H & _). rewrite lookup_empty in H. discriminate.
  - intros i subs s H. cbn in H. rewrite lookup_empty in H. discriminate.
Qed.

Lemma inSync_subscribe (r : Registry) (i sym : string) :
  inSync r -> inSync (SocketService_subscribeToSymbol i sym r).
Proof.
  intros [HR HU]. unfold SocketService_subscribeToSymbol.
  destruct (connectedClients r !! i) as [subs|] eqn:Hi; [|split; assumption].
  split; cbn [connectedClients rooms].
  - intros room j. rewrite elem_of_union, elem_of_singleton, HR. split.
    + intros [[= -> ->]|(subs0 & s & Hj & Hs & ->)].
      * exists ({[toUpperCase sym]} ∪ subs), (toUpperCase sym).
        rewrite lookup_insert_eq. split; [reflexivity|].
        split; [apply elem_of_union_l, elem_of_singleton; reflexivity|reflexivity].
      * destruct (decide (j = i)) as [->|Hne].
        -- exists ({[toUpperCase sym]} ∪ subs), s. rewrite lookup_insert_eq.
           rewrite Hi in Hj. injection Hj as <-.
           split; [reflexivity|]. split; [apply elem_of_union_r, Hs|reflexivity].
        -- exists subs0, s. rewrite lookup_insert_ne by congruence. auto.
    + intros (subs0 & s & Hj & Hs & ->).
      destruct (decide (j = i)) as [->|Hne].
      * rewrite lookup_insert_eq in Hj. injection Hj as <-.
        apply elem_of_union in Hs as [Hs|Hs].
        -- apply elem_of_singleton in Hs as ->. left. reflexivity.
        -- right. exists subs, s. auto.
      * rewrite lookup_insert_ne in Hj by congruence. right. exists subs0, s. auto.
  - intros j subs0 s Hj Hs. destruct (decide (j = i)) as [->|Hne].
    + rewrite lookup_insert_eq in Hj. injection Hj as <-.
      apply elem_of_union in Hs as [Hs|Hs].
      * apply elem_of_singleton in Hs as ->. apply toUpperCase_idem.
      * exact (HU i subs s Hi Hs).
    + rewrite lookup_insert_ne in Hj by congruence. exact (HU j subs0 s Hj Hs).
Qed.

Lemma inSync_unsubscribe (r : Registry) (i sym : string) :
  inSync r -> inSync (SocketService_unsubscribeFromSymbol i sym r).
Proof.
  intros [HR HU]. unfold SocketService_unsubscribeFromSymbol.
  destruct (connectedClients r !! i) as [subs|] eqn:Hi; [|split; assumption].
  split; cbn [connectedClients rooms].
  - intros room j. rewrite elem_of_difference, elem_of_singleton, HR. split.
    + intros [(subs0 & s & Hj & Hs & ->) Hne].
      destruct (decide (j = i)) as [->|Hji].
      * rewrite Hi in Hj. injection Hj as <-.
        exists (subs ∖ {[toUpperCase sym]}), s. rewrite lookup_insert_eq.
        split; [reflexivity|]. split; [|reflexivity].
        apply elem_of_difference. split; [exact Hs|].
        intros Hs'. apply elem_of_singleton in Hs' as ->. apply Hne. reflexivity.
      * exists subs0, s. rewrite lookup_insert_ne by congruence. auto.
    + intros (subs0 & s & Hj & Hs & ->).
      destruct (decide (j = i)) as [->|Hji].
      * rewrite lookup_insert_eq in Hj. injection Hj as <-.
        apply elem_of_difference in Hs as [Hs Hne]. split.
        -- exists subs, s. auto.
        -- intros [= E]. apply prefix_inj in E. apply Hne, elem_of_singleton, E.
      * rewrite lookup_insert_ne in Hj by congruence. split.
        -- exists subs0, s. auto.
        -- intros [= _ E]. congruence.
  - intros j subs0 s Hj Hs. destruct (decide (j = i)) as [->|Hne].
    + rewrite lookup_insert_eq in Hj. injection Hj as <-.
      apply elem_of_difference in Hs as [Hs _]. exact (HU i subs s Hi Hs).
    + rewrite lookup_insert_ne in Hj by congruence. exact (HU j subs0 s Hj Hs).
Qed.

Lemma inSync_onDisconnect (r : Registry) (i : string) :
  inSync r -> inSync (onDisconnect i r).
Proof.
  intros [HR HU]. split; cbn [onDisconnect connectedClients rooms].
  - intros room j. rewrite elem_of_filter, HR. cbn [snd]. split.
    + intros [Hne (subs0 & s & Hj & Hs & ->)].
      exists subs0, s. rewrite lookup_delete_ne by congruence. auto.
    + intros (subs0 & s & Hj & Hs & ->).
      apply lookup_delete_Some in Hj as [Hne Hj].
      split; [congruence|]. exists subs0, s. auto.
  - intros j subs0 s Hj Hs. apply lookup_delete_Some in Hj as [_ Hj].
    exact (HU j subs0 s Hj Hs).
Qed.

Lemma inSync_onConnection (r : Registry) (i : string) (t : Z) :
  connectedClients r !! i = None -> inSync r -> inSync (onConnection i t r).
Proof.
  intros Hi [HR HU]. split; cbn [onConnection connectedClients rooms].
  - intros room j. rewrite HR. split.
    + intros (subs0 & s & Hj & Hs & ->).
      exists subs0, s. rewrite lookup_insert_ne by congruence. auto.
    + intros (subs0 & s & Hj & Hs & ->).
      destruct (decide (j = i)) as [->|Hne].
      * rewrite lookup_insert_eq in Hj. injection Hj as <-.
        apply elem_of_empty in Hs. destruct Hs.
      * rewrite lookup_insert_ne in Hj by congruence. exists subs0, s. auto.
  - intros j subs0 s Hj Hs. destruct (decide (j = i)) as [->|Hne].
    + rewrite lookup_insert_eq in Hj. injection Hj as <-.
      apply elem_of_empty in Hs. destruct Hs.
    + rewrite lookup_insert_ne in Hj by congruence. exact (HU j subs0 s Hj Hs).
Qed.

(** Subscriptions and rooms stay in step.  Every handler of the socket
    service keeps the agreement between [subscribedSymbols] and the rooms of
    socket.io (a new connection, when its socket id is not in use).  So the
    room to which [broadcastPriceUpdate] sends the update of a price holds
    exactly the connected clients whose [subscribedSymbols] has the symbol of
    the price in upper case: a client gets the symbol updates of what it is
    listed as subscribed to, whatever the letter case it subscribed with. *)
Theorem subscriptions_match_rooms (r : Registry) (i sym : string) (t : Z) :
  inSync r ->
  inSync (SocketService_subscribeToSymbol i sym r) /\
  inSync (SocketService_unsubscribeFromSymbol i sym r) /\
  inSync (onDisconnect i r) /\
  inSync (onPing i t r) /\
  (connectedClients r !! i = None -> inSync (onConnection i t r)) /\
  (forall prices d,
     In d prices ->
     exists room,
       In (symbol_price_update room d) (broadcastEvents prices) /\
       ((room, i) ∈ rooms r <->
        exists subs, connectedClients r !! i = Some subs /\ toUpperCase (symbol d) ∈ subs)).
Proof.
  intros H. split; [apply inSync_subscribe, H|]. split; [apply inSync_unsubscribe, H|].
  split; [apply inSync_onDisconnect, H|]. split; [exact H|].
  split; [intros Hi; apply inSync_onConnection; assumption|].
  intros prices d Hd. exists ("symbol:" ++ toUpperCase (symbol d))%string. split.
  - unfold broadcastEvents. right.
    apply (in_map (fun d => symbol_price_update ("symbol:" ++ toUpperCase (symbol d)) d)), Hd.
  - destruct H as [HR _]. rewrite HR. split.
    + intros (subs & s & Hi & Hs & E). apply prefix_inj in E. subst s. exists subs. auto.
    + intros (subs & Hi & Hs). exists subs, (toUpperCase (symbol d)). auto.
Qed.

Lemma subscriptions_match_rooms_witness :
  inSync (SocketService_subscribeToSymbol "s1" "btc" (onConnection "s1" 0 noClients)).
Proof.
  refine (proj1 (subscriptions_match_rooms (onConnection "s1" 0 noClients) "s1" "btc" 0 _)).
  apply inSync_onConnection; [apply lookup_empty|apply inSync_noClients].
Defined.

Lemma add_twice `{Countable A} (x : A) (X : gset A) : {[x]} ∪ ({[x]} ∪ X) = {[x]} ∪ X.
Proof. rewrite (assoc_L (∪)), (idemp_L (∪)). reflexivity. Qed.

Lemma add_remove `{Countable A} (x : A) (X : gset A) : x ∉ X -> ({[x]} ∪ X) ∖ {[x]} = X.
Proof.
  intros Hx. apply set_eq. intros y.
  rewrite elem_of_difference, elem_of_union, elem_of_singleton. split.
  - intros [[->|Hy] Hn]; [destruct Hn; reflexivity|exact Hy].
  - intros Hy. split; [right; exact Hy|]. intros ->. contradiction.
Qed.

(** A subscription made in any letter case is undone in any letter case, and
    asking twice changes nothing more: what a client is subscribed to, and
    the rooms it is in, depend on the upper-case symbol only.  A request for
    a socket id that is not connected changes nothing at all. *)
Theorem subscribing_ignores_letter_case (r : Registry) (i sym sym' : string) :
  toUpperCase sym = toUpperCase sym' ->
  let keeps (a b : Registry) :=
    connectedClients a = connectedClients b /\ rooms a = rooms b in
  keeps (SocketService_subscribeToSymbol i sym' (SocketService_subscribeToSymbol i sym r))
        (SocketService_subscribeToSymbol i sym r) /\
  (forall subs, connectedClients r !! i = Some subs ->
     toUpperCase sym ∉ subs -> (roomOf sym, i) ∉ rooms r ->
     keeps (SocketService_unsubscribeFromSymbol i sym' (SocketService_subscribeToSymbol i sym r))
           r) /\
  (connectedClients r !! i = None ->
   SocketService_subscribeToSymbol i sym r = r /\
   SocketService_unsubscribeFromSymbol i sym r = r).
Proof.
  intros E keeps. subst keeps. cbv beta.
  assert (ER : roomOf sym' = roomOf sym) by (unfold roomOf; rewrite E; reflexivity).
  unfold SocketService_subscribeToSymbol, SocketService_unsubscribeFromSymbol.
  destruct (connectedClients r !! i) as [subs|] eqn:Hi.
  - cbn [connectedClients rooms]. rewrite !lookup_insert_eq. cbn [connectedClients rooms].
    rewrite ER, <- E. split; [|split].
    + split.
      * rewrite insert_insert_eq, add_twice. reflexivity.
      * apply add_twice.
    + intros subs0 [= <-] Hs Hroom. split.
      * rewrite insert_insert_eq.
        rewrite (add_remove _ _ Hs). apply insert_id, Hi.
      * apply add_remove, Hroom.
    + discriminate.
  - rewrite Hi. split; [split; reflexivity|]. split; [discriminate|].
    intros _. split; reflexivity.
Qed.

Lemma subscribing_ignores_letter_case_witness :
  let r := onConnection "s1" 0 noClients in
  connectedClients
    (SocketService_unsubscribeFromSymbol "s1" "BTC" (SocketService_subscribeToSymbol "s1" "btc" r))
    = connectedClients r.
Proof.
  intros r.
  destruct (subscribing_ignores_letter_case r "s1" "btc" "BTC" eq_refl) as (_ & H & _).
  refine (proj1 (H ∅ _ _ _)).
  - apply lookup_insert_eq.
  - apply not_elem_of_empty.
  - apply not_elem_of_empty.
Defined.

(** *** Statistics *)

Lemma countSymbol_fold (acc : gmap string nat) (X : gset string) :
  (forall s, default 0%nat (set_fold countSymbol acc X !! s) =
             (default 0 (acc !! s) + if decide (s ∈ X) then 1 else 0)%nat) /\
  ((forall s, acc !! s <> Some 0%nat) ->
   forall s, set_fold countSymbol acc X !! s <> Some 0%nat).
Proof.
  revert X.
  apply (set_fold_ind_L
    (fun (acc' : gmap string nat) (Y : gset string) =>
       (forall s, default 0%nat (acc' !! s) =
                  (default 0 (acc !! s) + if decide (s ∈ Y) then 1 else 0)%nat) /\
       ((forall s, acc !! s <> Some 0%nat) -> forall s, acc' !! s <> Some 0%nat))
    countSymbol acc).
  - split; [|auto]. intros s. rewrite decide_False by apply not_elem_of_empty. lia.
  - intros x Y acc' Hx [H1 H2]. unfold countSymbol. split.
    + intros s. destruct (decide (x = s)) as [->|Hne].
      * rewrite lookup_insert_eq. cbn [default]. rewrite H1.
        rewrite (decide_False (P := s ∈ Y)) by exact Hx.
        rewrite decide_True by (apply elem_of_union_l, elem_of_singleton; reflexivity).
        unfold Datatypes.id. lia.
      * rewrite lookup_insert_ne by exact Hne. rewrite H1.
        destruct (decide (s ∈ Y)).
        -- rewrite decide_True by (apply elem_of_union_r; assumption). reflexivity.
        -- rewrite decide_False; [reflexivity|].
           rewrite elem_of_union, elem_of_singleton. intros [E|E]; congruence.
    + intros H0 s. destruct (decide (x = s)) as [->|Hne].
      * rewrite lookup_insert_eq. intros [= E]. lia.
      * rewrite lookup_insert_ne by exact Hne. apply H2, H0.
Qed.

(** The figures of [getStats]: the number of connected clients, and for each
    symbol the number of connected clients subscribed to it - with no entry
    for a symbol that nobody is subscribed to, and never more than the
    number of clients. *)
Theorem getStats_counts_subscribers (t : Z) (r : Registry) (s : string) :
  let st := SocketService_getStats t r in
  totalClients st = size (connectedClients r) /\
  default 0%nat (subscriptionStats st !! s) = size (subscribers s r) /\
  subscriptionStats st !! s <> Some 0%nat /\
  (size (subscribers s r) <= totalClients st)%nat.
Proof.
  cbn zeta. unfold SocketService_getStats, subscribers.
  cbn [totalClients subscriptionStats].
  split; [reflexivity|].
  assert (H : (forall s, default 0%nat
                 (map_fold (fun _ subs stats => set_fold countSymbol stats subs) ∅
                    (connectedClients r) !! s) =
               size (filter (fun kv : string * gset string => s ∈ snd kv) (connectedClients r))) /\
              (forall s, map_fold (fun _ subs stats => set_fold countSymbol stats subs) ∅
                    (connectedClients r) !! s <> Some 0%nat)).
  { apply (map_fold_weak_ind
      (fun acc (m : gmap string (gset string)) =>
         (forall s, default 0%nat (acc !! s) =
                    size (filter (fun kv : string * gset string => s ∈ snd kv) m)) /\
         (forall s, acc !! s <> Some 0%nat))).
    - split; intros s'; rewrite lookup_empty; [|discriminate].
      rewrite map_filter_empty, map_size_empty. reflexivity.
    - intros j X m acc Hj [H1 H2].
      destruct (countSymbol_fold acc X) as [C1 C2]. split; [|apply C2, H2].
      intros s'. rewrite C1, H1, map_filter_insert. cbn [snd].
      destruct (decide (s' ∈ X)).
      + rewrite map_size_insert_None; [lia|].
        apply map_lookup_filter_None. left. exact Hj.
      + rewrite delete_id by exact Hj. lia. }
  destruct H as [H1 H2]. split; [apply H1|]. split; [apply H2|].
  apply map_subseteq_size, map_filter_subseteq.
Qed.

(** ** Authentication and the alert routes *)

Lemma splitOn_space_free (s : string) :
  space_free s = true -> splitOn " " s = [s].
Proof.
  induction s as [|c s IH]; cbn [space_free splitOn]; [reflexivity|].
  intros H. apply andb_prop in H as [Hc Hs].
  destruct (Ascii.eqb c " "); [discriminate|]. rewrite (IH Hs). reflexivity.
Qed.

Lemma requestToken_bearer {B} (token : string) (cookie : option string) (i : string)
    (b : B) (u : option UserDocument) :
  space_free token = true ->
  requestToken (mkReq (Some ("Bearer " ++ token)) cookie i b u) = Some token.
Proof.
  intros H. unfold requestToken. cbn [authorization].
  rewrite !append_cons, append_nil. cbn [String.eqb String.prefix negb andb Ascii.eqb
    Bool.eqb splitOn]. cbn. rewrite (splitOn_space_free token H). reflexivity.
Qed.

Lemma find_user_id (i : string) (l : list UserDocument) (u : UserDocument) :
  List.find (fun x => String.eqb (user_id x) i) l = Some u ->
  user_id u = i /\ In u l.
Proof.
  intros H. apply find_some in H as [Hin H]. apply String.eqb_eq in H. auto.
Qed.

Lemma protect_run {B} (jwt_verify : string -> option string) (req : Request B) (w : World) :
  exists out w1,
    protect jwt_verify req w = (Ok out, w1) /\
    alerts (mongo w1) = alerts (mongo w) /\ users (mongo w1) = users (mongo w) /\
    now w1 = now w /\
    (forall n, quiet (S n) (mongoFaults (mongo w)) -> quiet n (mongoFaults (mongo w1))) /\
    match out with
    | inr req1 => exists u, authenticates jwt_verify req w u /\ req1 = withUser u req
    | inl r =>
        r = notAuthorized \/
        r = respond 401 false (errorText "No user found with this token")
    end.
Proof.
  assert (Q0 : forall n, quiet (S n) (mongoFaults (mongo w)) -> quiet n (mongoFaults (mongo w))).
  { intros n. apply quiet_le. lia. }
  unfold protect, authenticates.
  destruct (requestToken req) as [token|] eqn:Ht;
    [|do 2 eexists; split; [reflexivity|]; repeat split; [exact Q0|left; reflexivity]].
  destruct (String.eqb_spec token "") as [->|Hne];
    [do 2 eexists; split; [reflexivity|]; repeat split; [exact Q0|left; reflexivity]|].
  destruct (jwt_verify token) as [i|] eqn:Hv;
    [|do 2 eexists; split; [reflexivity|]; repeat split; [exact Q0|left; reflexivity]].
  unfold tryCatch, bind, User_findById, mongoCall, ret. cbv beta.
  destruct (nextFault (mongoFaults (mongo w))) as [[] rest] eqn:E.
  { do 2 eexists. split; [reflexivity|]. repeat split; [|left; reflexivity].
    intros n Q. exfalso. eauto using quiet_no_fault. }
  cbn [users alerts priceHistory mongoFaults].
  assert (Q1 : forall n, quiet (S n) (mongoFaults (mongo w)) -> quiet n rest).
  { intros n Q. eauto using quiet_rest. }
  destruct (List.find _ (users (mongo w))) as [u|] eqn:Hf.
  - do 2 eexists. split; [reflexivity|]. repeat split; [exact Q1|].
    exists u. split; [|reflexivity]. exists token.
    destruct (find_user_id _ _ _ Hf) as [<- _]. repeat split; assumption.
  - do 2 eexists. split; [reflexivity|]. repeat split; [exact Q1|]. right. reflexivity.
Qed.

Lemma protect_accepts {B} (jwt_verify : string -> option string) (req : Request B)
    (w : World) (u : UserDocument) :
  authenticates jwt_verify req w u -> quiet 1 (mongoFaults (mongo w)) ->
  fst (protect jwt_verify req w) = Ok (inr (withUser u req)).
Proof.
  intros (token & Ht & Hne & Hv & Hf) Q. unfold protect. rewrite Ht.
  destruct (String.eqb_spec token ""); [contradiction|]. rewrite Hv.
  unfold tryCatch, bind, User_findById, mongoCall, ret. cbv beta.
  destruct (nextFault_quiet _ _ Q) as [-> _].
  cbn [users alerts priceHistory mongoFaults]. rewrite Hf. reflexivity.
Qed.

Lemma authenticates_unique {B} (jwt_verify : string -> option string) (req : Request B)
    (w : World) (u u' : UserDocument) :
  authenticates jwt_verify req w u -> authenticates jwt_verify req w u' -> u = u'.
Proof.
  intros (t & Ht & _ & Hv & Hf) (t' & Ht' & _ & Hv' & Hf').
  rewrite Ht in Ht'. injection Ht' as <-. rewrite Hv in Hv'. injection Hv' as E.
  rewrite E in Hf. congruence.
Qed.

(** Who [protect] lets through.  It never throws.  When it calls [next()],
    the request carries a non-empty token that [jwt.verify] accepts, and the
    user attached to the request is the user of the collection with the id
    of the token; in every other case the response is a 401.  The token is
    the second field of an [authorization] header that starts with
    [Bearer] - the cookie is read only without such a header.  MongoDB is
    left as it was.  A request whose token verifies to a user is let through
    when MongoDB answers. *)
Theorem protect_admits_only_token_owner {B} (jwt_verify : string -> option string)
    (req : Request B) (w : World) :
  (exists out,
     fst (protect jwt_verify req w) = Ok out /\
     match out with
     | inr req1 =>
         exists u, authenticates jwt_verify req w u /\ In u (users (mongo w)) /\
                   req1 = withUser u req
     | inl r => exists message, r = respond 401 false (errorText message)
     end) /\
  alerts (mongo (snd (protect jwt_verify req w))) = alerts (mongo w) /\
  users (mongo (snd (protect jwt_verify req w))) = users (mongo w) /\
  (forall token cookie,
     space_free token = true ->
     requestToken (mkReq (Some ("Bearer " ++ token)) cookie (paramsId req) (body req) (user req))
       = Some token) /\
  (forall u, authenticates jwt_verify req w u -> quiet 1 (mongoFaults (mongo w)) ->
     fst (protect jwt_verify req w) = Ok (inr (withUser u req))).
Proof.
  destruct (protect_run jwt_verify req w) as (out & w1 & E & A & U & _ & _ & H).
  rewrite E. cbn [fst snd]. split; [|split; [exact A|split; [exact U|split]]].
  - exists out. split; [reflexivity|]. destruct out as [r|req1].
    + destruct H as [->| ->]; eexists; reflexivity.
    + destruct H as (u & Hu & ->). exists u. split; [exact Hu|]. split; [|reflexivity].
      destruct Hu as (_ & _ & _ & _ & Hf). apply find_some in Hf. apply Hf.
  - intros token cookie. apply requestToken_bearer.
  - intros u Hu Q. pose proof (protect_accepts jwt_verify req w u Hu Q) as P.
    rewrite E in P. exact P.
Qed.

Lemma protect_admits_only_token_owner_witness :
  let verify := fun token => if String.eqb token "t-ann" then Some "u1" else None in
  let w := Scenario.world 0 ∅ (Scenario.always NetworkError) [] [] in
  let req := mkReq (Some "Bearer t-ann") None "a1" tt None in
  fst (protect verify req w) = Ok (inr (withUser Scenario.ann req)).
Proof.
  intros verify w req.
  refine (proj2 (proj2 (proj2 (proj2 (protect_admits_only_token_owner verify req w))))
            Scenario.ann _ (quiet_nil 1)).
  exists "t-ann". repeat split; [discriminate].
Defined.

(** [optionalAuth] never answers for the route: it always hands the request
    on, whatever the token and whatever MongoDB does.  The request is handed
    on as it came, or with the user that its token verifies to - no other
    user is ever attached - and that user is attached when MongoDB
    answers. *)
Theorem optionalAuth_always_continues {B} (jwt_verify : string -> option string)
    (req : Request B) (w : World) :
  (exists req1,
     fst (optionalAuth jwt_verify req w) = Ok req1 /\
     (req1 = req \/ exists u, authenticates jwt_verify req w u /\ req1 = withUser u req)) /\
  alerts (mongo (snd (optionalAuth jwt_verify req w))) = alerts (mongo w) /\
  users (mongo (snd (optionalAuth jwt_verify req w))) = users (mongo w) /\
  (forall u, authenticates jwt_verify req w u -> quiet 1 (mongoFaults (mongo w)) ->
     fst (optionalAuth jwt_verify req w) = Ok (withUser u req)).
Proof.
  unfold optionalAuth, authenticates.
  destruct (requestToken req) as [token|] eqn:Ht.
  2:{ cbn. split; [eexists; split; [reflexivity|left; reflexivity]|].
      repeat split. intros u (t & [=] & _). }
  destruct (String.eqb_spec token "") as [->|Hne].
  { cbn. split; [eexists; split; [reflexivity|left; reflexivity]|].
    repeat split. intros u (t & [= <-] & Hn & _). contradiction. }
  destruct (jwt_verify token) as [i|] eqn:Hv.
  2:{ cbn. split; [eexists; split; [reflexivity|left; reflexivity]|].
      repeat split. intros u (t & [= <-] & _ & Hv' & _). congruence. }
  unfold tryCatch, bind, User_findById, mongoCall, ret, log, modify. cbv beta.
  destruct (nextFault (mongoFaults (mongo w))) as [[] rest] eqn:E.
  { cbn. split; [eexists; split; [reflexivity|left; reflexivity]|].
    repeat split. intros u _ Q. exfalso. eauto using quiet_no_fault. }
  cbn [users alerts priceHistory mongoFaults].
  destruct (List.find _ (users (mongo w))) as [u|] eqn:Hf; cbn.
  - split; [|repeat split].
    + eexists. split; [reflexivity|]. right. exists u. split; [|reflexivity].
      exists token. destruct (find_user_id _ _ _ Hf) as [<- _]. repeat split; assumption.
    + intros u' (t & [= <-] & _ & Hv' & Hf') _.
      rewrite Hv in Hv'. injection Hv' as ->. rewrite Hf in Hf'. injection Hf' as ->.
      reflexivity.
  - split; [eexists; split; [reflexivity|left; reflexivity]|]. repeat split.
    intros u' (t & [= <-] & _ & Hv' & Hf') _.
    rewrite Hv in Hv'. injection Hv' as ->. rewrite Hf in Hf'. discriminate.
Qed.

Lemma optionalAuth_always_continues_witness :
  let verify := fun token => if String.eqb token "t-ann" then Some "u1" else None in
  let w := Scenario.world 0 ∅ (Scenario.always NetworkError) [] [] in
  let req := mkReq None (Some "t-ann") "a1" tt None in
  fst (optionalAuth verify req w) = Ok (withUser Scenario.ann req).
Proof.
  intros verify w req.
  refine (proj2 (proj2 (proj2 (optionalAuth_always_continues verify req w)))
            Scenario.ann _ (quiet_nil 1)).
  exists "t-ann". repeat split; [discriminate].
Defined.

(** *** The routes *)

Lemma alertRoute_cases {B} (jwt_verify : string -> option string)
    (schemaError : B -> option string) (handler : Request B -> M Reply)
    (req : Request B) (w : World) :
  (exists message w1,
     alertRoute jwt_verify schemaError handler req w =
       (Ok (respond 401 false (errorText message)), w1) /\
     fst (protect jwt_verify req w) = Ok (inl (respond 401 false (errorText message))) /\
     alerts (mongo w1) = alerts (mongo w) /\ users (mongo w1) = users (mongo w)) \/
  (exists u w1,
     authenticates jwt_verify req w u /\
     fst (protect jwt_verify req w) = Ok (inr (withUser u req)) /\
     alerts (mongo w1) = alerts (mongo w) /\ users (mongo w1) = users (mongo w) /\
     now w1 = now w /\
     (forall n, quiet (S n) (mongoFaults (mongo w)) -> quiet n (mongoFaults (mongo w1))) /\
     alertRoute jwt_verify schemaError handler req w =
       match schemaError (body req) with
       | Some message => (Ok (respond 400 false (errorText message)), w1)
       | None => handler (withUser u req) w1
       end).
Proof.
  destruct (protect_run jwt_verify req w) as (out & w1 & E & A & U & N & Q & H).
  unfold alertRoute, bind. rewrite E. destruct out as [r|req1].
  - left. destruct H as [->| ->]; do 2 eexists; (split; [reflexivity|]);
      (split; [reflexivity|]); split; assumption.
  - right. destruct H as (u & Hu & ->). exists u, w1.
    split; [exact Hu|]. split; [reflexivity|]. split; [exact A|]. split; [exact U|].
    split; [exact N|]. split; [exact Q|].
    unfold validate. cbn [body withUser]. destruct (schemaError (body req)); reflexivity.
Qed.

Lemma handler_frame {A} (m : M A) (k : A -> M Reply) (k' : A -> Reply) (msg : string)
    (w : World) :
  (forall x w0, k x w0 = (Ok (k' x), w0)) ->
  mongo (snd (tryCatch (x <- m ;; k x) (fun e => log error msg >> ret (forwarded e)) w)) =
    mongo (snd (m w)) /\
  fst (tryCatch (x <- m ;; k x) (fun e => log error msg >> ret (forwarded e)) w) =
    match fst (m w) with
    | Ok x => Ok (k' x)
    | Throw e => Ok (forwarded e)
    | Pending => Pending
    end.
Proof.
  intros H. unfold tryCatch, bind. destruct (m w) as [[x|e|] w1]; cbn [fst snd].
  - rewrite H. split; reflexivity.
  - split; reflexivity.
  - split; reflexivity.
Qed.

Lemma authenticated_id {B} (jwt_verify : string -> option string) (req : Request B)
    (w : World) (u : UserDocument) :
  (forall x, In x (users (mongo w)) -> user_id x <> "") ->
  authenticates jwt_verify req w u -> user_id u <> "" /\ In u (users (mongo w)).
Proof.
  intros H (_ & _ & _ & _ & Hf). apply find_some in Hf as [Hin _]. auto.
Qed.

(** Every route of the alert router sits behind [protect]: a request that
    does not authenticate - no token, a token that [jwt.verify] rejects, or
    one for a user that does not exist - is answered 401 whatever the route,
    and the handler of the route changes nothing for it. *)
Theorem alert_routes_require_authentication {B} (jwt_verify : string -> option string)
    (schemaError : B -> option string) (handler : Request B -> M Reply)
    (req : Request B) (w : World) :
  (forall u, ~ authenticates jwt_verify req w u) ->
  (exists message,
     fst (alertRoute jwt_verify schemaError handler req w) =
       Ok (respond 401 false (errorText message))) /\
  alerts (mongo (snd (alertRoute jwt_verify schemaError handler req w))) = alerts (mongo w) /\
  users (mongo (snd (alertRoute jwt_verify schemaError handler req w))) = users (mongo w).
Proof.
  intros Hno.
  destruct (alertRoute_cases jwt_verify schemaError handler req w)
    as [(message & w1 & E & _ & A & U)|(u & w1 & Hu & _)].
  - rewrite E. cbn [fst snd]. split; [exists message; reflexivity|]. split; assumption.
  - destruct (Hno u Hu).
Qed.

Lemma alert_routes_require_authentication_witness :
  let verify := fun token => if String.eqb token "t-ann" then Some "u1" else None in
  let w := Scenario.world 0 ∅ (Scenario.always NetworkError) [Scenario.rule_btc_above] [] in
  let req := mkReq (Some "Bearer stolen") (Some "t-ann") "a1" tt None in
  alerts (mongo (snd (DELETE_alerts_id verify req w))) = [Scenario.rule_btc_above].
Proof.
  intros verify w req.
  refine (proj1 (proj2 (alert_routes_require_authentication verify noSchema
                          AlertController_deleteAlert req w _))).
  intros u (token & Ht & _ & Hv & _). vm_compute in Ht. injection Ht as <-.
  vm_compute in Hv. discriminate.
Defined.

Lemma ofOthers_snoc_own (u : string) (l : list AlertDocument) (a : AlertDocument) :
  userId a = u -> ofOthers u (l ++ [a]) = ofOthers u l.
Proof.
  intros E. unfold ofOthers. rewrite List.filter_app. cbn [List.filter].
  rewrite E, String.eqb_refl. cbn [negb]. apply app_nil_r.
Qed.

Lemma orDefault_id (i : string) : i <> "" -> orDefault (Some i) = i.
Proof. intros H. unfold orDefault. destruct (String.eqb_spec i ""); [contradiction|reflexivity]. Qed.

(** Ownership through the routes.  A request to create, update or delete an
    alert leaves the collection as it was, or it authenticates as a user and
    every alert of every other user is exactly what it was - whatever alert
    id, body and validator the request meets, and whatever MongoDB does.
    (The ids of the users are ObjectIds: never the empty string.) *)
Theorem alert_routes_keep_other_users_alerts (jwt_verify : string -> option string)
    (createSchema : AlertData -> option string) (updateSchema : AlertUpdate -> option string)
    (oid : string) (w : World) :
  (forall x, In x (users (mongo w)) -> user_id x <> "") ->
  let kept {B} (req : Request B) (w' : World) :=
    alerts (mongo w') = alerts (mongo w) \/
    exists u, authenticates jwt_verify req w u /\
              ofOthers (user_id u) (alerts (mongo w')) = ofOthers (user_id u) (alerts (mongo w)) in
  (forall req, kept req (snd (POST_alerts jwt_verify createSchema oid req w))) /\
  (forall req, kept req (snd (PUT_alerts_id jwt_verify updateSchema req w))) /\
  (forall req, kept req (snd (DELETE_alerts_id jwt_verify req w))).
Proof.
  intros Hids kept. subst kept. cbv beta.
  unfold POST_alerts, PUT_alerts_id, DELETE_alerts_id.
  split; [|split]; intros req.
  - destruct (alertRoute_cases jwt_verify createSchema (AlertController_createAlert oid) req w)
      as [(message & w1 & E & _ & A & U)|(u & w1 & Hu & _ & A & U & _ & _ & E)];
      rewrite E; [left; exact A|].
    destruct (createSchema (body req)); [left; exact A|].
    destruct (authenticated_id jwt_verify req w u Hids Hu) as [Hne _].
    unfold AlertController_createAlert. cbv zeta.
    match goal with |- context [tryCatch (bind ?m ?k) _ w1] =>
      destruct (handler_frame m k
                  (fun alert => respond 201 true (alertData alert "Alert created successfully"))
                  "Error creating alert:" w1 (fun _ _ => eq_refl)) as [-> _];
      destruct (createAlert_run oid (withUserId (orDefault (callerId (withUser u req)))
                                       (body (withUser u req))) w1)
        as (_ & [(_ & _ & ->)|(_ & ->)] & _) end.
    + right. exists u. split; [exact Hu|]. rewrite A. apply ofOthers_snoc_own.
      cbn. apply orDefault_id, Hne.
    + left. exact A.
  - destruct (alertRoute_cases jwt_verify updateSchema AlertController_updateAlert req w)
      as [(message & w1 & E & _ & A & U)|(u & w1 & Hu & _ & A & U & _ & _ & E)];
      rewrite E; [left; exact A|].
    destruct (updateSchema (body req)); [left; exact A|].
    destruct (authenticated_id jwt_verify req w u Hids Hu) as [Hne _].
    unfold AlertController_updateAlert.
    match goal with |- context [tryCatch (bind ?m ?k) _ w1] =>
      destruct (handler_frame m k
                  (fun alert => match alert with
                                | None => respond 404 false
                                            (errorText "Alert not found or not authorized")
                                | Some a => respond 200 true
                                              (alertData a "Alert updated successfully")
                                end)
                  "Error updating alert:" w1) as [-> _]; [intros [a|] w0; reflexivity|] end.
    right. exists u. split; [exact Hu|]. cbn [callerId user withUser paramsId body].
    rewrite (updateAlert_ofOthers _ _ _ _ Hne), A. reflexivity.
  - destruct (alertRoute_cases jwt_verify noSchema AlertController_deleteAlert req w)
      as [(message & w1 & E & _ & A & U)|(u & w1 & Hu & _ & A & U & _ & _ & E)];
      rewrite E; [left; exact A|].
    cbn [noSchema].
    destruct (authenticated_id jwt_verify req w u Hids Hu) as [Hne _].
    unfold AlertController_deleteAlert.
    match goal with |- context [tryCatch (bind ?m ?k) _ w1] =>
      destruct (handler_frame m k
                  (fun deleted : bool =>
                     if negb deleted
                     then respond 404 false (errorText "Alert not found or not authorized")
                     else respond 200 true (messageOnly "Alert deleted successfully"))
                  "Error deleting alert:" w1) as [-> _]; [intros [] w0; reflexivity|] end.
    right. exists u. split; [exact Hu|]. cbn [callerId user withUser paramsId].
    rewrite (deleteAlert_ofOthers _ _ _ Hne), A. reflexivity.
Qed.

Lemma alert_routes_keep_other_users_alerts_witness :
  let verify := fun token => if String.eqb token "t-bob" then Some "u2" else None in
  let bob := mkUser "u2" "bob@example.org" "Bob" true in
  let w := mkWorld 0 (mkCache true ∅ []) (mkGecko 0 0)
             (mkNetwork [] (Scenario.always NetworkError))
             (mkMongo [Scenario.rule_btc_above] [Scenario.ann; bob] [] [])
             (mkSocket true [] []) (mkMailer [] []) [] in
  let req := mkReq (Some "Bearer t-bob") None (_id Scenario.rule_btc_above) tt None in
  ofOthers "u2" (alerts (mongo (snd (DELETE_alerts_id verify req w)))) =
    [Scenario.rule_btc_above].
Proof.
  intros verify bob w req.
  assert (Hids : forall x, In x (users (mongo w)) -> user_id x <> "").
  { intros x [<-|[<-|[]]]; discriminate. }
  destruct (alert_routes_keep_other_users_alerts verify noSchema noSchema "a9" w Hids)
    as (_ & _ & D).
  destruct (D req) as [->|(u & Hu & H)]; [reflexivity|].
  assert (u = bob) as ->.
  { destruct Hu as (token & Ht & _ & Hv & Hf). vm_compute in Ht. injection Ht as <-.
    apply find_some in Hf as [[<-|[<-|[]]] _]; [discriminate Hv|reflexivity]. }
  exact H.
Defined.

(** Whose alert a POST creates.  When the answer is 201, the new alert is the
    last document of the collection, it has the ObjectId given to it, and
    its owner is the user that the request authenticates as - never a
    [userId] carried by the body; with any other answer the collection is as
    it was.  The answer is 201 when the request authenticates, the validator
    and the schema accept the body, and MongoDB answers. *)
Theorem POST_alerts_creates_for_caller (jwt_verify : string -> option string)
    (createSchema : AlertData -> option string) (oid : string)
    (req : Request AlertData) (w : World) :
  (forall x, In x (users (mongo w)) -> user_id x <> "") ->
  let out := POST_alerts jwt_verify createSchema oid req w in
  (forall a message,
     fst out = Ok (respond 201 true (alertData a message)) ->
     exists u,
       authenticates jwt_verify req w u /\ userId a = user_id u /\ _id a = oid /\
       createSchema (body req) = None /\
       alerts (mongo (snd out)) = (alerts (mongo w) ++ [a])%list) /\
  ((forall a message, fst out <> Ok (respond 201 true (alertData a message))) ->
   alerts (mongo (snd out)) = alerts (mongo w)) /\
  (forall u,
     authenticates jwt_verify req w u -> createSchema (body req) = None ->
     schemaValid (body req) = true -> quiet 2 (mongoFaults (mongo w)) ->
     fst out =
       Ok (respond 201 true
             (alertData (newAlert oid (now w) (withUserId (user_id u) (body req)))
                "Alert created successfully"))).
Proof.
  intros Hids out. subst out. unfold POST_alerts.
  destruct (alertRoute_cases jwt_verify createSchema (AlertController_createAlert oid) req w)
    as [(m401 & w1 & E & P & A & U)|(u & w1 & Hu & _ & A & U & N & Q & E)]; rewrite E.
  { cbn [fst snd]. split; [intros a m [=]|]. split; [intros _; exact A|].
    intros u Hu _ _ Q2.
    rewrite (protect_accepts jwt_verify req w u Hu (quiet_le 1 2 _ ltac:(lia) Q2)) in P.
    discriminate. }
  destruct (authenticated_id jwt_verify req w u Hids Hu) as [Hne _].
  destruct (createSchema (body req)) as [msg|] eqn:Hs.
  { cbn [fst snd]. split; [intros a m [=]|]. split; [intros _; exact A|].
    intros; discriminate. }
  unfold AlertController_createAlert. cbv zeta.
  cbn [callerId user withUser body]. rewrite (orDefault_id _ Hne).
  set (data := withUserId (user_id u) (body req)).
  destruct (handler_frame (AlertService_createAlert oid data)
              (fun alert => ret (respond 201 true (alertData alert "Alert created successfully")))
              (fun alert => respond 201 true (alertData alert "Alert created successfully"))
              "Error creating alert:" w1 (fun _ _ => eq_refl)) as [Hm Hr].
  rewrite Hr. rewrite Hm.
  destruct (createAlert_run oid data w1) as (_ & R & Rq).
  split; [|split].
  - intros a m Ha. destruct R as [(R1 & _ & R2)|(R1 & _)]; rewrite R1 in Ha; [|discriminate].
    injection Ha as <- _. exists u. rewrite R2, A.
    split; [exact Hu|]. repeat split.
  - intros Hnot. destruct R as [(R1 & _ & R2)|(R1 & R2)]; [|rewrite R2; exact A].
    exfalso. eapply Hnot. rewrite R1. reflexivity.
  - intros u' Hu' _ Hv Q2. rewrite (authenticates_unique _ _ _ _ _ Hu' Hu).
    rewrite Rq; [rewrite N; reflexivity|exact Hv|apply Q, Q2].
Qed.

Lemma POST_alerts_creates_for_caller_witness :
  let verify := fun token => if String.eqb token "t-ann" then Some "u1" else None in
  let w := Scenario.world 5000 ∅ (Scenario.always NetworkError) [] [] in
  let data := mkAlertData (Some "u2") (Some "eth") (Some "below") (Some 1000%float) None None in
  let req := mkReq (Some "Bearer t-ann") None "" data None in
  fst (POST_alerts verify noSchema "a9" req w) =
    Ok (respond 201 true
          (alertData (mkAlert "a9" "u1" "ETH" "below" (Some 1000%float) None true 5000)
             "Alert created successfully")).
Proof.
  intros verify w data req.
  assert (Hids : forall x, In x (users (mongo w)) -> user_id x <> "").
  { intros x [<-|[]]. discriminate. }
  refine (proj2 (proj2 (POST_alerts_creates_for_caller verify noSchema "a9" req w Hids))
            Scenario.ann _ eq_refl eq_refl (quiet_nil 2)).
  exists "t-ann". repeat split; [discriminate].
Defined.

Lemma getUserAlerts_run (uid : string) (w : World) :
  alerts (mongo (snd (AlertService.getUserAlerts (Some uid) w))) = alerts (mongo w) /\
  (forall r, fst (AlertService.getUserAlerts (Some uid) w) = Ok r ->
     forall d, In d r <-> In d (alerts (mongo w)) /\ userId d = uid /\ isActive d = true) /\
  (quiet 1 (mongoFaults (mongo w)) ->
   exists r, fst (AlertService.getUserAlerts (Some uid) w) = Ok r).
Proof.
  unfold AlertService.getUserAlerts, Alert_find, tryCatch, bind, mongoCall, log, modify, throw.
  cbn [default].
  destruct (nextFault (mongoFaults (mongo w))) as [[] rest] eqn:E; cbn.
  - split; [reflexivity|]. split; [discriminate|].
    intros Q. exfalso. eauto using quiet_no_fault.
  - split; [reflexivity|]. split; [|intros _; eexists; reflexivity].
    intros r [= <-] d.
    rewrite In_sortByCreatedAtDesc, filter_In, matches_user_active. reflexivity.
Qed.

Lemma GET_alerts_run (jwt_verify : string -> option string) (req : Request unit) (w : World) :
  (forall x, In x (users (mongo w)) -> user_id x <> "") ->
  alerts (mongo (snd (GET_alerts jwt_verify req w))) = alerts (mongo w) /\
  (forall l,
     fst (GET_alerts jwt_verify req w) = Ok (respond 200 true (alertList l)) ->
     exists u,
       authenticates jwt_verify req w u /\
       forall d, In d l <->
                 In d (alerts (mongo w)) /\ userId d = user_id u /\ isActive d = true) /\
  (forall u,
     authenticates jwt_verify req w u -> quiet 2 (mongoFaults (mongo w)) ->
     exists l, fst (GET_alerts jwt_verify req w) = Ok (respond 200 true (alertList l))).
Proof.
  intros Hids. unfold GET_alerts.
  destruct (alertRoute_cases jwt_verify noSchema AlertController_getUserAlerts req w)
    as [(m & w1 & E & P & A & U)|(u & w1 & Hu & _ & A & U & _ & Q & E)];
    rewrite E; cbn [noSchema fst snd].
  - split; [exact A|]. split; [intros l [=]|]. intros u Hu Q2.
    rewrite (protect_accepts jwt_verify req w u Hu (quiet_le 1 2 _ ltac:(lia) Q2)) in P.
    discriminate.
  - destruct (authenticated_id jwt_verify req w u Hids Hu) as [Hne _].
    unfold AlertController_getUserAlerts. cbv zeta.
    cbn [callerId user withUser]. rewrite (orDefault_id _ Hne).
    destruct (handler_frame (AlertService.getUserAlerts (Some (user_id u)))
                (fun found => ret (respond 200 true (alertList found)))
                (fun found => respond 200 true (alertList found))
                "Error fetching user alerts:" w1 (fun _ _ => eq_refl)) as [-> ->].
    destruct (getUserAlerts_run (user_id u) w1) as (G1 & G2 & G3).
    split; [rewrite G1; exact A|]. split.
    + intros l Hl. exists u. split; [exact Hu|].
      destruct (fst (AlertService.getUserAlerts (Some (user_id u)) w1)) as [r|e|];
        [|discriminate|discriminate].
      injection Hl as <-. intros d. rewrite (G2 r eq_refl d), A. reflexivity.
    + intros _ _ Q2. destruct (G3 (Q 1%nat Q2)) as [r ->]. eexists. reflexivity.
Qed.

Lemma GET_alerts_stats_run (jwt_verify : string -> option string) (req : Request unit)
    (w : World) :
  (forall x, In x (users (mongo w)) -> user_id x <> "") ->
  alerts (mongo (snd (GET_alerts_stats jwt_verify req w))) = alerts (mongo w) /\
  (forall st,
     fst (GET_alerts_stats jwt_verify req w) = Ok (respond 200 true (statsData st)) ->
     exists u,
       authenticates jwt_verify req w u /\
       let mine := List.filter (matches (mkQuery None (Some (user_id u)) None))
                     (alerts (mongo w)) in
       let active := List.filter isActive mine in
       st = mkStats 0 0 [] \/
       st = mkStats (length mine) (length active) (sortByCountDesc (groupBySymbol active))).
Proof.
  intros Hids. unfold GET_alerts_stats.
  destruct (alertRoute_cases jwt_verify noSchema AlertController_getAlertStats req w)
    as [(m & w1 & E & P & A & U)|(u & w1 & Hu & _ & A & U & _ & Q & E)];
    rewrite E; cbn [noSchema fst snd].
  - split; [exact A|]. intros st [=].
  - destruct (authenticated_id jwt_verify req w u Hids Hu) as [Hne _].
    unfold AlertController_getAlertStats. cbn [callerId user withUser].
    destruct (handler_frame (AlertService_getAlertStats (Some (user_id u)))
                (fun stats => ret (respond 200 true (statsData stats)))
                (fun stats => respond 200 true (statsData stats))
                "Error fetching alert stats:" w1 (fun _ _ => eq_refl)) as [-> ->].
    destruct (getAlertStats_run (Some (user_id u)) w1) as (S1 & S2 & _).
    cbv zeta in S2. rewrite A in S2.
    assert (Ht : truthyId (Some (user_id u)) = Some (user_id u)).
    { unfold truthyId. destruct (String.eqb_spec (user_id u) ""); [contradiction|reflexivity]. }
    rewrite Ht in S2.
    split; [rewrite S1; exact A|]. intros st Hst. exists u. split; [exact Hu|]. cbv zeta.
    destruct S2 as [S2|S2]; rewrite S2 in Hst; injection Hst as <-; [left|right]; reflexivity.
Qed.

(** What the reading routes show.  [GET /alerts] lists exactly the active
    alerts of the user that the request authenticates as; the figures of
    [GET /alerts/stats] are those of that user's alerts (or all zero, when
    MongoDB failed in between); neither route changes the collection. *)
Theorem GET_alerts_shows_the_callers_alerts (jwt_verify : string -> option string)
    (req : Request unit) (w : World) :
  (forall x, In x (users (mongo w)) -> user_id x <> "") ->
  alerts (mongo (snd (GET_alerts jwt_verify req w))) = alerts (mongo w) /\
  alerts (mongo (snd (GET_alerts_stats jwt_verify req w))) = alerts (mongo w) /\
  (forall l,
     fst (GET_alerts jwt_verify req w) = Ok (respond 200 true (alertList l)) ->
     exists u,
       authenticates jwt_verify req w u /\
       forall d, In d l <->
                 In d (alerts (mongo w)) /\ userId d = user_id u /\ isActive d = true) /\
  (forall st,
     fst (GET_alerts_stats jwt_verify req w) = Ok (respond 200 true (statsData st)) ->
     exists u,
       authenticates jwt_verify req w u /\
       let mine := List.filter (matches (mkQuery None (Some (user_id u)) None))
                     (alerts (mongo w)) in
       let active := List.filter isActive mine in
       st = mkStats 0 0 [] \/
       st = mkStats (length mine) (length active) (sortByCountDesc (groupBySymbol active))) /\
  (forall u,
     authenticates jwt_verify req w u -> quiet 2 (mongoFaults (mongo w)) ->
     exists l, fst (GET_alerts jwt_verify req w) = Ok (respond 200 true (alertList l))).
Proof.
  intros Hids.
  destruct (GET_alerts_run jwt_verify req w Hids) as (A1 & L & C).
  destruct (GET_alerts_stats_run jwt_verify req w Hids) as (A2 & S).
  split; [exact A1|]. split; [exact A2|]. split; [exact L|]. split; [exact S|exact C].
Qed.

Lemma GET_alerts_shows_the_callers_alerts_witness :
  let verify := fun token => if String.eqb token "t-ann" then Some "u1" else None in
  let w := Scenario.world 0 ∅ (Scenario.always NetworkError)
             [Scenario.rule_btc_above; Scenario.rule_eth_inactive] [] in
  let req := mkReq None (Some "t-ann") "" tt None in
  exists l, fst (GET_alerts verify req w) = Ok (respond 200 true (alertList l)).
Proof.
  intros verify w req.
  assert (Hids : forall x, In x (users (mongo w)) -> user_id x <> "").
  { intros x [<-|[]]. discriminate. }
  refine (proj2 (proj2 (proj2 (proj2 (GET_alerts_shows_the_callers_alerts verify req w Hids))))
            Scenario.ann _ (quiet_nil 2)).
  exists "t-ann". repeat split; [discriminate].
Defined.

(** ** The price route *)

Lemma splitOn_nonempty (sep : ascii) (s : string) : splitOn sep s <> [].
Proof.
  destruct s as [|c r]; cbn [splitOn]; [discriminate|].
  destruct (Ascii.eqb c sep); [discriminate|]. destruct (splitOn sep r); discriminate.
Qed.

Lemma concat_splitOn (s : string) : String.concat "," (splitOn "," s) = s.
Proof.
  induction s as [|c r IH]; cbn [splitOn]; [reflexivity|].
  pose proof (splitOn_nonempty "," r) as N.
  destruct (Ascii.eqb_spec c ",") as [->|_].
  - destruct (splitOn "," r) as [|h t]; [contradiction|].
    change (String.concat "," ("" :: h :: t)) with ("" ++ "," ++ String.concat "," (h :: t)).
    rewrite IH. reflexivity.
  - destruct (splitOn "," r) as [|h t]; [contradiction|].
    rewrite <- IH. destruct t as [|h' t']; reflexivity.
Qed.

Lemma splitOn_comma_free (s : string) :
  Forall (fun x => comma_free x = true) (splitOn "," s).
Proof.
  induction s as [|c r IH]; cbn [splitOn]; [repeat constructor|].
  pose proof (splitOn_nonempty "," r) as N.
  destruct (Ascii.eqb c ",") eqn:E.
  - constructor; [reflexivity|exact IH].
  - destruct (splitOn "," r) as [|h t]; [contradiction|].
    inversion IH; subst. constructor; [|assumption].
    cbn [comma_free]. rewrite E. assumption.
Qed.

(** The [coins] query of [GET /prices] is used as it is written.  The list
    that the controller makes of a non-empty query joins back to the query,
    so the cache key is ["prices:"] followed by the query and two queries
    share a cache entry only when they are the same string; a query that is
    absent or empty stands for the configured list.  When the cache holds a
    fresh entry under that key, the route answers with it and sends nothing
    upstream. *)
Theorem price_query_is_used_verbatim (coins : string) :
  coins <> "" ->
  (exists coinIds,
     queryCoinIds (Some coins) = Some coinIds /\
     CoinGeckoService.join coinIds = coins /\
     CoinGeckoService.cacheKey coinIds = "prices:" ++ coins /\
     Forall (fun x => comma_free x = true) coinIds) /\
  (forall coins',
     coins' <> "" ->
     CoinGeckoService.cacheKey (default config.supportedCoins (queryCoinIds (Some coins))) =
       CoinGeckoService.cacheKey (default config.supportedCoins (queryCoinIds (Some coins'))) ->
     coins = coins') /\
  queryCoinIds None = None /\ queryCoinIds (Some "") = None /\
  (forall fuel w e,
     isConnected (cache w) = true ->
     quiet 1 (redisFaults (cache w)) ->
     redis (cache w) !! ("prices:" ++ coins) = Some e ->
     now w - timestamp e <= ttl e ->
     fst (PriceController_getCurrentPrices fuel (Some coins) w) =
       Ok (respond 200 true (priceList (data e))) /\
     sent (network (snd (PriceController_getCurrentPrices fuel (Some coins) w))) =
       sent (network w)).
Proof.
  intros Hne.
  assert (Q : forall c, c <> "" -> queryCoinIds (Some c) = Some (splitOn "," c)).
  { intros c Hc. unfold queryCoinIds. destruct (String.eqb_spec c ""); [contradiction|].
    reflexivity. }
  assert (K : forall c, CoinGeckoService.cacheKey (splitOn "," c) = "prices:" ++ c).
  { intros c. unfold CoinGeckoService.cacheKey, CoinGeckoService.join.
    rewrite concat_splitOn. reflexivity. }
  split; [|split; [|split; [|split]]].
  - exists (splitOn "," coins). split; [apply Q, Hne|].
    split; [apply concat_splitOn|]. split; [apply K|apply splitOn_comma_free].
  - intros coins' Hne'. rewrite (Q _ Hne), (Q _ Hne').
    change (CoinGeckoService.cacheKey (splitOn "," coins) =
            CoinGeckoService.cacheKey (splitOn "," coins') -> coins = coins').
    rewrite !K. apply prefix_inj.
  - reflexivity.
  - reflexivity.
  - intros fuel w e C Qr L F. unfold PriceController_getCurrentPrices.
    rewrite (Q _ Hne). rewrite <- K in L.
    pose proof (getCurrentPrices_hit fuel (Some (splitOn "," coins)) w _ (data e)
                  (get_fresh _ w e C Qr L F)) as H.
    unfold tryCatch, bind. rewrite H. split; reflexivity.
Qed.

Lemma price_query_is_used_verbatim_witness :
  CoinGeckoService.cacheKey (default config.supportedCoins (queryCoinIds (Some "bitcoin,ethereum")))
    = "prices:bitcoin,ethereum".
Proof.
  destruct (price_query_is_used_verbatim "bitcoin,ethereum" ltac:(discriminate))
    as ((coinIds & Hq & _ & Hk & _) & _).
  rewrite Hq. exact Hk.
Defined.
